(** * Nolossia: duplicate clustering, master selection, merge planning,
      safe moves and undo

    A shallow embedding of the safety-critical core of the photo-library
    merger (src/duplicates.py, src/hashing.py, src/organizer.py,
    src/merge_engine.py, src/utils.py) together with the properties its
    specification states about it.

    Conventions of the embedding.
    - Python [str] is [string]; characters are bytes, so the character
      classes used by the code ([str.isdigit], [\d], [str.lower],
      [str.strip]) are taken on ASCII: the functions of [Text] are those
      of Python on the strings for which [str.isascii] holds, and a
      statement that depends on a character class is made for such
      strings.
    - Python [int] is [Z]; [None] is [None] of an [option].
    - A naive [datetime] is the record of its seven fields.
    - Functions that raise return a sum; functions that touch the
      filesystem thread an explicit filesystem state. *)

From Stdlib Require Import ZArith QArith List String Ascii Lia Permutation.
From stdpp Require Import gmap strings list fin_maps sorting.

Local Open Scope string_scope.
Local Open Scope Z_scope.

(* ===================================================================== *)
(** * Part I. The embedding                                               *)
(* ===================================================================== *)

(** ** Text helpers (Python [str] methods used by the code) *)

Module Text.

(** [s.isascii()] *)
Fixpoint isascii (s : string) : bool :=
  match s with
  | EmptyString => true
  | String c r => (nat_of_ascii c <? 128)%nat && isascii r
  end.

Definition is_digit (c : ascii) : bool :=
  let n := nat_of_ascii c in (48 <=? n)%nat && (n <=? 57)%nat.

(** [str.isspace] on ASCII: TAB..CR, FS..US and the blank. *)
Definition is_space (c : ascii) : bool :=
  let n := nat_of_ascii c in
  ((9 <=? n)%nat && (n <=? 13)%nat) || ((28 <=? n)%nat && (n <=? 32)%nat).

Definition lower_char (c : ascii) : ascii :=
  let n := nat_of_ascii c in
  if (65 <=? n)%nat && (n <=? 90)%nat then ascii_of_nat (n + 32) else c.

(** [s.lower()] *)
Fixpoint lower (s : string) : string :=
  match s with
  | EmptyString => EmptyString
  | String c r => String (lower_char c) (lower r)
  end.

Fixpoint lstrip (s : string) : string :=
  match s with
  | String c r => if is_space c then lstrip r else s
  | EmptyString => EmptyString
  end.

Fixpoint rstrip (s : string) : string :=
  match s with
  | EmptyString => EmptyString
  | String c r =>
      match rstrip r with
      | EmptyString => if is_space c then EmptyString else String c EmptyString
      | r' => String c r'
      end
  end.

(** [s.strip()] *)
Definition strip (s : string) : string := rstrip (lstrip s).

(** [s.isdigit()]: non-empty and digits only. *)
Fixpoint all_digits (s : string) : bool :=
  match s with
  | EmptyString => true
  | String c r => is_digit c && all_digits r
  end.

Definition isdigit (s : string) : bool :=
  negb (String.eqb s "") && all_digits s.

(** [s.startswith(p)] *)
Definition startswith (p s : string) : bool := String.prefix p s.

Definition digit_val (c : ascii) : Z := Z.of_nat (nat_of_ascii c) - 48.

(** [int(s)] for a string of decimal digits. *)
Fixpoint int_digits (acc : Z) (s : string) : Z :=
  match s with
  | EmptyString => acc
  | String c r => int_digits (10 * acc + digit_val c) r
  end.

Definition int10 (s : string) : Z := int_digits 0 s.

(** [str(n)] for a non-negative integer, and the sign in front otherwise. *)
Definition str (n : Z) : string :=
  if n <? 0 then "-" +:+ pretty.pretty (Z.to_N (- n)) else pretty.pretty (Z.to_N n).

(** [f"{n:02d}"] *)
Definition fmt02 (n : Z) : string :=
  if (0 <=? n) && (n <? 10) then "0" +:+ str n else str n.

(** [sep.join(parts)] *)
Fixpoint join (sep : string) (parts : list string) : string :=
  match parts with
  | [] => ""
  | [p] => p
  | p :: rest => p +:+ sep +:+ join sep rest
  end.

(** [s.split(c)] for a one-character separator. *)
Fixpoint split (c : ascii) (s : string) : list string :=
  match s with
  | EmptyString => [""]
  | String a r =>
      if Ascii.eqb a c then "" :: split c r
      else match split c r with
           | [] => [String a ""]
           | w :: ws => String a w :: ws
           end
  end.

End Text.

(** ** Naive datetimes ([datetime.datetime] without tzinfo) *)

Module datetime.

Record t := mk {
  year : Z; month : Z; day : Z;
  hour : Z; minute : Z; second : Z; microsecond : Z
}.

Definition fields (d : t) : list Z :=
  [year d; month d; day d; hour d; minute d; second d; microsecond d].

(** Comparison of two datetimes is the lexicographic comparison of their
    field tuples ([datetime._cmp]). *)
Fixpoint lex_compare (a b : list Z) : comparison :=
  match a, b with
  | [], [] => Eq
  | [], _ :: _ => Lt
  | _ :: _, [] => Gt
  | x :: a', y :: b' =>
      match Z.compare x y with
      | Eq => lex_compare a' b'
      | c => c
      end
  end.

Definition compare (a b : t) : comparison := lex_compare (fields a) (fields b).
Definition eqb (a b : t) : bool := match compare a b with Eq => true | _ => false end.
Definition ltb (a b : t) : bool := match compare a b with Lt => true | _ => false end.

Definition _is_leap (y : Z) : bool :=
  (y mod 4 =? 0) && (negb (y mod 100 =? 0) || (y mod 400 =? 0)).

Definition _days_before_year (y : Z) : Z :=
  let p := y - 1 in p * 365 + p / 4 - p / 100 + p / 400.

Definition _DAYS_IN_MONTH : list Z := [31; 28; 31; 30; 31; 30; 31; 31; 30; 31; 30; 31].

Definition _days_before_month (y m : Z) : Z :=
  fold_right Z.add 0 (firstn (Z.to_nat (m - 1)) _DAYS_IN_MONTH)
  + (if (2 <? m) && _is_leap y then 1 else 0).

Definition _ymd2ord (d : t) : Z :=
  _days_before_year (year d) + _days_before_month (year d) (month d) + day d.

(** [(a - b)] as a whole number of microseconds; [total_seconds()] is this
    number divided by 10^6. *)
Definition sub_microseconds (a b : t) : Z :=
  ((_ymd2ord a - _ymd2ord b) * 86400
   + ((hour a * 3600 + minute a * 60 + second a)
      - (hour b * 3600 + minute b * 60 + second b))) * 1000000
  + (microsecond a - microsecond b).

End datetime.

(** ** File records (src/models/fileinfo.py) *)

Module FileInfo.

Record t := mk {
  path : string;
  size : Z;
  format : option string;
  resolution : option (Z * Z);
  exif_datetime : option datetime.t;
  exif_gps : option (Q * Q);
  exif_camera : option string;
  exif_orientation : option string;
  sha256 : option string;
  phash : option string;
  is_raw : bool;
  timestamp_reliable : bool;
  review_reason : option string;
  selection_reason : option string
}.

Definition set_review_reason (r : option string) (f : t) : t :=
  mk (path f) (size f) (format f) (resolution f) (exif_datetime f) (exif_gps f)
     (exif_camera f) (exif_orientation f) (sha256 f) (phash f) (is_raw f)
     (timestamp_reliable f) r (selection_reason f).

Definition set_selection_reason (r : option string) (f : t) : t :=
  mk (path f) (size f) (format f) (resolution f) (exif_datetime f) (exif_gps f)
     (exif_camera f) (exif_orientation f) (sha256 f) (phash f) (is_raw f)
     (timestamp_reliable f) (review_reason f) r.

End FileInfo.

(** Truthiness of an optional string: [None] and [""] are falsy. *)
Definition truthy (s : option string) : bool :=
  match s with
  | Some v => negb (String.eqb v "")
  | None => false
  end.

(** ** Perceptual-hash distance (src/hashing.py) *)

Module hashing.

Definition hex_val (c : ascii) : option Z :=
  let n := nat_of_ascii c in
  if (48 <=? n)%nat && (n <=? 57)%nat then Some (Z.of_nat n - 48)
  else if (97 <=? n)%nat && (n <=? 102)%nat then Some (Z.of_nat n - 87)
  else if (65 <=? n)%nat && (n <=? 70)%nat then Some (Z.of_nat n - 55)
  else None.

(** Digits of [int(s, 16)]: hexadecimal digits, single underscores allowed
    between two digits. [prev] tells whether the previous character was a
    digit. *)
Fixpoint hex_digits (acc : Z) (prev : bool) (s : string) : option Z :=
  match s with
  | EmptyString => if prev then Some acc else None
  | String c r =>
      if Ascii.eqb c "_"
      then if prev then hex_digits acc false r else None
      else match hex_val c with
           | Some v => hex_digits (16 * acc + v) true r
           | None => None
           end
  end.

Definition strip_0x (s : string) : string :=
  match s with
  | String "0" (String c r) =>
      if Ascii.eqb c "x" || Ascii.eqb c "X" then
        match r with
        | String "_" r' => r'
        | _ => r
        end
      else s
  | _ => s
  end.

(** [int(s, 16)]; [None] stands for [ValueError]. *)
Definition int16 (s : string) : option Z :=
  match Text.strip s with
  | String "-" r => Z.opp <$> hex_digits 0 false (strip_0x r)
  | String "+" r => hex_digits 0 false (strip_0x r)
  | r => hex_digits 0 false (strip_0x r)
  end.

Fixpoint pos_bit_count (p : positive) : Z :=
  match p with
  | xH => 1
  | xO q => pos_bit_count q
  | xI q => 1 + pos_bit_count q
  end.

(** [int.bit_count]: number of ones of the absolute value. *)
Definition bit_count (n : Z) : Z :=
  match n with
  | Z0 => 0
  | Zpos p => pos_bit_count p
  | Zneg p => pos_bit_count p
  end.

Fixpoint char_differences (a b : string) : Z :=
  match a, b with
  | String x a', String y b' =>
      (if Ascii.eqb x y then 0 else 1) + char_differences a' b'
  | _, _ => 0
  end.

Definition len (s : string) : Z := Z.of_nat (String.length s).

Definition phash_distance (a b : string) : Z :=
  match int16 a, int16 b with
  | Some int_a, Some int_b => bit_count (Z.lxor int_a int_b)
  | _, _ =>
      if negb (len a =? len b) then Z.max (len a) (len b)
      else char_differences a b
  end.

End hashing.

(** ** POSIX paths ([os.path] on a POSIX host) *)

Module os_path.

(** Split at the last occurrence of [c]: the text before it and after it. *)
Fixpoint rsplit (c : ascii) (s : string) : option (string * string) :=
  match s with
  | EmptyString => None
  | String a r =>
      match rsplit c r with
      | Some (h, t) => Some (String a h, t)
      | None => if Ascii.eqb a c then Some ("", r) else None
      end
  end.

Fixpoint all_slashes (s : string) : bool :=
  match s with
  | EmptyString => true
  | String a r => Ascii.eqb a "/" && all_slashes r
  end.

Fixpoint rstrip_slashes (s : string) : string :=
  match s with
  | EmptyString => EmptyString
  | String a r =>
      match rstrip_slashes r with
      | EmptyString => if Ascii.eqb a "/" then EmptyString else String a EmptyString
      | r' => String a r'
      end
  end.

Definition basename (p : string) : string :=
  match rsplit "/" p with
  | Some (_, t) => t
  | None => p
  end.

Definition dirname (p : string) : string :=
  match rsplit "/" p with
  | Some (h, _) => if all_slashes h then h +:+ "/" else rstrip_slashes h
  | None => ""
  end.

Definition endswith_slash (a : string) : bool :=
  match rsplit "/" a with
  | Some (_, "") => true
  | _ => false
  end.

(** [os.path.join(a, b)] *)
Definition join (a b : string) : string :=
  if Text.startswith "/" b then b
  else if String.eqb a "" || endswith_slash a then a +:+ b
  else a +:+ "/" +:+ b.

(** The components kept by [normpath] for an absolute path: empty and [.]
    components are dropped, [..] removes the component before it and is
    itself dropped at the root. *)
Fixpoint norm_comps (acc : list string) (comps : list string) : list string :=
  match comps with
  | [] => rev acc
  | c :: rest =>
      if String.eqb c "" || String.eqb c "." then norm_comps acc rest
      else if String.eqb c ".." then norm_comps (tl acc) rest
      else norm_comps (c :: acc) rest
  end.

(** Exactly two leading slashes are kept by POSIX, any other number is one. *)
Definition initial_slashes (p : string) : string :=
  if Text.startswith "//" p && negb (Text.startswith "///" p) then "//" else "/".

(** [os.path.abspath(p)]; the working directory of the process is taken to
    be [/], so a relative path is read from the root. *)
Definition abspath (p : string) : string :=
  let q := if Text.startswith "/" p then p else "/" +:+ p in
  initial_slashes q +:+ Text.join "/" (norm_comps [] (Text.split "/" q)).

(** The non-empty components of a path. *)
Definition parts (p : string) : list string :=
  filter (λ x, x ≠ "") (Text.split "/" p).

Fixpoint common_prefix (a b : list string) : list string :=
  match a, b with
  | x :: a', y :: b' => if String.eqb x y then x :: common_prefix a' b' else []
  | _, _ => []
  end.

(** [os.path.relpath(path, start)] *)
Definition relpath (path start : string) : string :=
  let start_list := parts (abspath start) in
  let path_list := parts (abspath path) in
  let i := length (common_prefix start_list path_list) in
  let rel_list := (repeat ".." (length start_list - i)%nat ++ drop i path_list)%list in
  match rel_list with
  | [] => "."
  | _ => Text.join "/" rel_list
  end.

(** [os.path.commonpath(paths)] for absolute paths; [None] is the
    [ValueError] raised on an empty sequence. *)
Definition commonpath (paths : list string) : option string :=
  match map (λ p, filter (λ x, x ≠ "" ∧ x ≠ ".") (Text.split "/" p)) paths with
  | [] => None
  | s :: rest => Some ("/" +:+ Text.join "/" (fold_left common_prefix rest s))
  end.

Fixpoint lstrip_dots (s : string) : string :=
  match s with
  | String "." r => lstrip_dots r
  | _ => s
  end.

(** [os.path.splitext(p)]: the extension starts at the last dot of the last
    component, leading dots of that component excepted. *)
Definition splitext (p : string) : string * string :=
  let '(dir, name) :=
    match rsplit "/" p with
    | Some (h, t) => (h +:+ "/", t)
    | None => ("", p)
    end in
  match rsplit "." name with
  | Some (stem, ext) =>
      if String.eqb (lstrip_dots stem) "" then (p, "")
      else (dir +:+ stem, "." +:+ ext)
  | None => (p, "")
  end.

End os_path.

(** ** The filesystem

    A filesystem state maps normalised absolute paths to nodes. A regular
    file is represented by the SHA-256 digest of its bytes, which is what
    [compute_sha256] reads back: two files have the same bytes exactly when
    they have the same digest, up to collisions of SHA-256. A symbolic link
    records whether it leads outside the library that contains it and what
    it leads to; [os.path.exists], [isdir], [isfile] and [compute_sha256]
    follow a link in the last component, [os.path.islink] does not.

    A link is described by what it led to when the state was taken, not by
    the path it names, and a path is looked up as it is written. This is
    enough to say where the code meets a link and what it does there. It
    does not follow a file to the other paths that lead to it through a
    link: what happens to the content read at one path when a file is moved
    at another is stated for the states that are [link_free]. *)

Module FS.

Inductive link_target := ToFile (digest : string) | ToDir | Dangling.

Inductive node :=
| File (digest : string)
| Dir
| Symlink (outside : bool) (target : link_target).

#[export] Instance link_target_eq_dec : EqDecision link_target.
Proof. solve_decision. Defined.
#[export] Instance node_eq_dec : EqDecision node.
Proof. solve_decision. Defined.

Abbreviation t := (gmap string node).

Definition exists_ (fs : t) (p : string) : bool :=
  match fs !! p with
  | Some (Symlink _ Dangling) | None => false
  | Some _ => true
  end.

Definition isdir (fs : t) (p : string) : bool :=
  match fs !! p with
  | Some Dir | Some (Symlink _ ToDir) => true
  | _ => false
  end.

Definition isfile (fs : t) (p : string) : bool :=
  match fs !! p with
  | Some (File _) | Some (Symlink _ (ToFile _)) => true
  | _ => false
  end.

Definition islink (fs : t) (p : string) : bool :=
  match fs !! p with
  | Some (Symlink _ _) => true
  | _ => false
  end.

(** The digest read through [p]; [None] when [p] cannot be opened as a
    file ([HashingError]). *)
Definition read_digest (fs : t) (p : string) : option string :=
  match fs !! p with
  | Some (File h) | Some (Symlink _ (ToFile h)) => Some h
  | _ => None
  end.

(** [os.listdir(d)]: the names directly under [d], in the order of the
    underlying map. *)
Definition listdir (fs : t) (d : string) : list string :=
  omap (λ kv : string * node,
          if decide (os_path.dirname kv.1 = d ∧ os_path.basename kv.1 ≠ "")
          then Some (os_path.basename kv.1) else None)
       (map_to_list fs).

Fixpoint prefixes (l : list string) : list (list string) :=
  match l with
  | [] => []
  | x :: r => [x] :: map (cons x) (prefixes r)
  end.

(** The path and its ancestors below the root, outermost first. *)
Definition chain (p : string) : list string :=
  map (λ segs, "/" +:+ Text.join "/" segs) (prefixes (os_path.parts p)).

(** [os.makedirs(p, exist_ok=True)]: every missing directory of the chain
    is created; the flag is [false] when a component is there and is not a
    directory ([OSError]), the directories made before it staying. *)
Fixpoint makedirs_chain (fs : t) (ps : list string) : bool * t :=
  match ps with
  | [] => (true, fs)
  | p :: rest =>
      match fs !! p with
      | None => makedirs_chain (<[p := Dir]> fs) rest
      | Some Dir | Some (Symlink _ ToDir) => makedirs_chain fs rest
      | Some _ => (false, fs)
      end
  end.

Definition makedirs (fs : t) (p : string) : bool * t := makedirs_chain fs (chain p).

Definition is_symlink (n : node) : bool :=
  match n with Symlink _ _ => true | _ => false end.

(** No node of the state is a symbolic link. *)
Definition link_free (fs : t) : bool :=
  forallb (λ kv : string * node, negb (is_symlink kv.2)) (map_to_list fs).

(** [p] is the path [d] or a path below it. *)
Definition within (d p : string) : bool :=
  String.eqb p d || String.prefix (d +:+ "/") p.

(** Nothing is at [p] or below it. *)
Definition vacant (fs : t) (p : string) : bool :=
  forallb (λ kv : string * node, negb (within p kv.1)) (map_to_list fs).

(** The path that [p], which is [src] or below it, has once [src] is
    renamed to [dst]. *)
Definition rebase (src dst p : string) : string :=
  dst +:+ String.substring (String.length src) (String.length p - String.length src) p.

(** [os.rename(src, dst)] for a directory: the directory and all that is
    below it change path, the rest stays. *)
Definition rename_tree (fs : t) (src dst : string) : t :=
  map_fold (λ p n acc, if within src p then <[rebase src dst p := n]> acc else <[p := n]> acc)
           ∅ fs.

(** [shutil.move(src, dst)] as the code calls it: after it has made the
    parent of [dst] a directory and found that [dst] is no directory.
    A file or a link is renamed, replacing a file already at [dst]. A
    directory is renamed with all that is below it, which needs [dst] to be
    free and not to lie in [src] itself. [None] is the exception raised:
    the source is missing, or a directory cannot be renamed as said. Where
    the parent of [dst] is no directory, or [dst] is one, the result is
    [None] as well; the code does not call [shutil.move] there. *)
Definition move (fs : t) (src dst : string) : option t :=
  match fs !! src with
  | None => None
  | Some Dir =>
      if negb (vacant fs dst) then None
      else if negb (isdir fs (os_path.dirname dst)) then None
      else if bool_decide (os_path.parts src `prefix_of` os_path.parts dst) then None
      else Some (rename_tree fs src dst)
  | Some n =>
      if isdir fs dst then None
      else if negb (isdir fs (os_path.dirname dst)) then None
      else Some (<[dst := n]> (delete src fs))
  end.

End FS.

(** ** Reports and logs (src/reporting.py)

    The log, the reports and the manifests are written below the artefact
    directory of the working directory, and nowhere else. Their content is
    not modelled: the operations below leave the artefact directory as it
    is, and what they are shown to keep is stated for the paths outside
    it. *)

Module reporting.

Definition ARTIFACTS_DIR : string := "artifacts".

(** [artifact_path(filename)] *)
Definition artifact_path (filename : string) : string :=
  os_path.abspath (os_path.join ARTIFACTS_DIR filename).

(** [p] is not the artefact directory or a path below it. *)
Definition outside_artifacts (p : string) : bool :=
  negb (FS.within (os_path.abspath ARTIFACTS_DIR) p).

End reporting.

(** ** Errors raised by the core (src/exceptions.py) *)

Inductive violation :=
| Escapes (target : string)
| ResolvesOutside (target : string)
| SymlinkAt (where_ : string).

Inductive error :=
| ValueError
| HashingError (p : string)
| DirectoryError (p : string)
| PathViolation (v : violation)
| UnresolvableCollision (src dst : string)
| MoveFailed (src dst : string)
| HashMismatchAfterMove (dst : string)
| UnknownActionType
| StructureError (folder : string)
| DuplicateDetectionError
| MergePlanError (msg : string) (segment : string)
| MergePlanViolation (v : violation)
| StorageError (required available : Z)
| UndoInputError (msg : string)
| UndoSafetyError (msg : string).

(** Results of functions that may raise. *)
Inductive result (A : Type) : Type :=
| Ok (a : A)
| Err (e : error).
Arguments Ok {A} a.
Arguments Err {A} e.

#[export] Instance result_ret : MRet result := λ A a, Ok a.
#[export] Instance result_bind : MBind result :=
  λ A B f m, match m with Ok a => f a | Err e => Err e end.
#[export] Instance result_fmap : FMap result :=
  λ A B f m, match m with Ok a => Ok (f a) | Err e => Err e end.

Definition is_ok {A} (r : result A) : bool :=
  match r with Ok _ => true | Err _ => false end.

(** An optional value whose absence is the given error. *)
Definition or_raise {A} (e : error) (o : option A) : result A :=
  match o with Some a => Ok a | None => Err e end.

(** ** Duplicate clusters (src/models/cluster.py) *)

Module DuplicateCluster.
Record t := mk {
  cluster_id : string;
  files : list FileInfo.t;
  master : option FileInfo.t;
  redundant : list FileInfo.t
}.
End DuplicateCluster.

(** ** Duplicate grouping and master selection (src/duplicates.py) *)

Module duplicates.

Definition PHASH_STRONG : Z := 2.
Definition PHASH_WEAK : Z := 5.

Definition SENSITIVITY_THRESHOLDS : gmap string (Z * Z) :=
  list_to_map [ ("conservative", (PHASH_STRONG, PHASH_WEAK));
                ("balanced", (3, 7));
                ("aggressive", (4, 10)) ].

Definition _normalize_sensitivity (value : option string) : string :=
  match value with
  | None => "conservative"
  | Some v =>
      if String.eqb v "" then "conservative"
      else
        let normalized := Text.lower (Text.strip v) in
        if bool_decide (normalized ∈ ["conservative"; "balanced"; "aggressive"])
        then normalized
        else "conservative"
  end.

(** *** Union-find over records, keyed by path ([FileInfo.__hash__] and
    [__eq__] look at the path only) *)

Module UnionFind.

Record t := mk {
  parent : gmap string string;
  rank : gmap string nat
}.

Definition init (elements : list FileInfo.t) : t :=
  mk (list_to_map (map (λ el, (FileInfo.path el, FileInfo.path el)) elements))
     (list_to_map (map (λ el, (FileInfo.path el, 0%nat)) elements)).

(** [find] with path compression. The recursion follows parent links; its
    depth is bounded by [fuel]. [None] is a failed lookup ([KeyError]) or an
    exhausted bound. *)
Fixpoint find_rec (fuel : nat) (parent : gmap string string) (element : string)
  : option (gmap string string * string) :=
  match fuel with
  | O => None
  | S n =>
      p ← parent !! element;
      if String.eqb p element then Some (parent, element)
      else
        '(parent', root) ← find_rec n parent p;
        Some (<[element := root]> parent', root)
  end.

(** Ranks grow strictly along parent links, so no chain of links is longer
    than the largest rank plus one. *)
Definition max_rank (rank : gmap string nat) : nat :=
  map_fold (λ _ r acc, Nat.max r acc) 0%nat rank.

Definition find (uf : t) (element : string) : option (t * string) :=
  '(parent', root) ← find_rec (S (max_rank (rank uf))) (parent uf) element;
  Some (mk parent' (rank uf), root).

Definition union (uf : t) (element1 element2 : string) : option t :=
  '(uf1, root1) ← find uf element1;
  '(uf2, root2) ← find uf1 element2;
  if String.eqb root1 root2 then Some uf2
  else
    r1 ← rank uf2 !! root1;
    r2 ← rank uf2 !! root2;
    if (r1 <? r2)%nat then Some (mk (<[root1 := root2]> (parent uf2)) (rank uf2))
    else if (r2 <? r1)%nat then Some (mk (<[root2 := root1]> (parent uf2)) (rank uf2))
    else Some (mk (<[root2 := root1]> (parent uf2)) (<[root1 := S r1]> (rank uf2))).

End UnionFind.

(** *** The near-duplicate predicate *)

(** The payload handed to the diagnostics callback: the decision, its
    reason code, the normalised sensitivity and the distance when it was
    computed. (The rounded ratio and delta, floating-point renderings added
    to some payloads, are left out.) *)
Record diagnostics := mk_diagnostics {
  decision : bool;
  reason : string;
  diag_sensitivity : string;
  distance : option Z
}.

Definition area (r : Z * Z) : Z := r.1 * r.2.

(** [max(area_a, area_b) / min(area_a, area_b)], as an exact fraction.
    Python compares the binary64 quotient with the binary64 literal [1.3];
    the outcome is that of the exact comparison with 13/10 for all areas
    below 2^49. *)
Definition area_ratio (area_a area_b : Z) : Q :=
  inject_Z (Z.max area_a area_b) / inject_Z (Z.min area_a area_b).

Definition near_duplicate_diagnostics (a b : FileInfo.t) (sensitivity : option string)
  : diagnostics :=
  let sensitivity := _normalize_sensitivity sensitivity in
  let '(strong_threshold, weak_threshold) := SENSITIVITY_THRESHOLDS !!! sensitivity in
  let emit decision reason distance := mk_diagnostics decision reason sensitivity distance in
  if negb (truthy (FileInfo.phash a)) || negb (truthy (FileInfo.phash b))
  then emit false "phash_missing" None
  else
    let distance_value :=
      hashing.phash_distance (default "" (FileInfo.phash a)) (default "" (FileInfo.phash b)) in
    let emit decision reason := emit decision reason (Some distance_value) in
    if distance_value <=? strong_threshold then emit true "distance_strong_band"
    else if (strong_threshold <? distance_value) && (distance_value <=? weak_threshold) then
      match FileInfo.resolution a, FileInfo.resolution b with
      | Some res_a, Some res_b =>
          let area_a := area res_a in
          let area_b := area res_b in
          if (area_a =? 0) || (area_b =? 0) then emit false "resolution_zero"
          else if negb (Qle_bool (area_ratio area_a area_b) (13 # 10))
          then emit false "resolution_ratio_exceeded"
          else
            match FileInfo.exif_datetime a, FileInfo.exif_datetime b with
            | Some dt_a, Some dt_b =>
                if 60000000 <? Z.abs (datetime.sub_microseconds dt_a dt_b)
                then emit false "timestamp_delta_exceeded"
                else if truthy (FileInfo.exif_camera a) && truthy (FileInfo.exif_camera b)
                        && negb (bool_decide (FileInfo.exif_camera a = FileInfo.exif_camera b))
                then emit false "camera_mismatch"
                else emit true "distance_weak_band"
            | _, _ => emit false "timestamp_missing"
            end
      | _, _ => emit false "resolution_missing"
      end
    else emit false "distance_over_threshold".

Definition are_near_duplicates (a b : FileInfo.t) (sensitivity : option string) : bool :=
  decision (near_duplicate_diagnostics a b sensitivity).

(** *** Master selection *)

Definition metadata_advantage
  (left_exif_count right_exif_count : Z) (left_has_gps right_has_gps : bool) : bool :=
  if right_exif_count <? left_exif_count then true
  else if (left_exif_count =? right_exif_count) && left_has_gps && negb right_has_gps then true
  else false.

Definition present {A} (o : option A) : Z :=
  match o with Some _ => 1 | None => 0 end.

Definition exif_count (f : FileInfo.t) : Z :=
  present (FileInfo.exif_datetime f) + present (FileInfo.exif_gps f)
  + present (FileInfo.exif_camera f) + present (FileInfo.exif_orientation f).

Definition has_gps (f : FileInfo.t) : bool := bool_decide (is_Some (FileInfo.exif_gps f)).

Definition res_or_zero (f : FileInfo.t) : Z * Z := default (0, 0) (FileInfo.resolution f).

Definition fmt_lower (f : FileInfo.t) : string := Text.lower (default "" (FileInfo.format f)).

Definition is_jpeg (fmt : string) : bool := String.eqb fmt "jpg" || String.eqb fmt "jpeg".

Definition is_better (candidate current : FileInfo.t) : bool * option string :=
  let candidate_res := res_or_zero candidate in
  let current_res := res_or_zero current in
  let candidate_fmt := fmt_lower candidate in
  let current_fmt := fmt_lower current in
  let candidate_pixels := candidate_res.1 * candidate_res.2 in
  let current_pixels := current_res.1 * current_res.2 in
  let candidate_exif_count := exif_count candidate in
  let current_exif_count := exif_count current in
  let candidate_has_gps := has_gps candidate in
  let current_has_gps := has_gps current in
  if negb (Bool.eqb (FileInfo.is_raw candidate) (FileInfo.is_raw current))
  then (FileInfo.is_raw candidate, Some "RAW_BEATS_JPEG")
  else if negb (candidate_pixels =? current_pixels)
  then (current_pixels <? candidate_pixels, Some "HIGHER_RESOLUTION_WINS")
  else
    let heic_vs_jpeg := String.eqb candidate_fmt "heic" && is_jpeg current_fmt in
    let jpeg_vs_heic := is_jpeg candidate_fmt && String.eqb current_fmt "heic" in
    if bool_decide (candidate_res = current_res) && heic_vs_jpeg
       && metadata_advantage candidate_exif_count current_exif_count
            candidate_has_gps current_has_gps
    then (true, Some "MORE_EXIF_WINS")
    else if bool_decide (candidate_res = current_res) && jpeg_vs_heic
       && metadata_advantage current_exif_count candidate_exif_count
            current_has_gps candidate_has_gps
    then (false, Some "MORE_EXIF_WINS")
    else if negb (FileInfo.size candidate =? FileInfo.size current)
    then (FileInfo.size current <? FileInfo.size candidate, Some "LARGER_FILESIZE_WINS")
    else if negb (candidate_exif_count =? current_exif_count)
    then (current_exif_count <? candidate_exif_count, Some "MORE_EXIF_WINS")
    else if negb (Bool.eqb candidate_has_gps current_has_gps)
    then (candidate_has_gps, Some "GPS_PRESENT_BEATS_GPS_ABSENT")
    else
      match FileInfo.exif_datetime candidate, FileInfo.exif_datetime current with
      | None, None => (false, None)
      | None, Some _ => (false, Some "OLDEST_CAPTURE_WINS")
      | Some _, None => (true, Some "OLDEST_CAPTURE_WINS")
      | Some candidate_ts, Some current_ts =>
          if negb (datetime.eqb candidate_ts current_ts)
          then (datetime.ltb candidate_ts current_ts, Some "OLDEST_CAPTURE_WINS")
          else (false, None)
      end.

(** The loop of [select_master] once the first file is the incumbent. *)
Fixpoint select_loop (master : FileInfo.t) (master_reason : option string)
    (files : list FileInfo.t) : FileInfo.t * option string :=
  match files with
  | [] => (master, master_reason)
  | file :: rest =>
      let '(better, reason) := is_better file master in
      let master_reason :=
        match reason with Some _ => reason | None => master_reason end in
      if better then select_loop file master_reason rest
      else select_loop master master_reason rest
  end.

(** The master chosen among the files of a cluster, before it is
    annotated. *)
Definition chosen_master (files : list FileInfo.t) : option (FileInfo.t * option string) :=
  match files with
  | [] => None
  | first :: rest => Some (select_loop first None rest)
  end.

(** [select_master(cluster)]: the chosen record, with its
    [selection_reason] set. *)
Definition select_master (cluster : DuplicateCluster.t) : result FileInfo.t :=
  match chosen_master (DuplicateCluster.files cluster) with
  | None => Err DuplicateDetectionError
  | Some (master, master_reason) => Ok (FileInfo.set_selection_reason master_reason master)
  end.

(** *** Clustering *)

(** [d.setdefault(k, []).append(v)] on a dictionary kept in insertion
    order. *)
Fixpoint setdefault_append {A} (k : string) (v : A) (d : list (string * list A))
  : list (string * list A) :=
  match d with
  | [] => [(k, [v])]
  | (k', vs) :: r =>
      if String.eqb k k' then (k', (vs ++ [v])%list) :: r
      else (k', vs) :: setdefault_append k v r
  end.

Definition exact_groups (files : list FileInfo.t) : list (string * list FileInfo.t) :=
  fold_left (λ groups file,
               if truthy (FileInfo.sha256 file)
               then setdefault_append (default "" (FileInfo.sha256 file)) file groups
               else groups)
            files [].

(** Union of the first file of a group with each of the others. *)
Fixpoint union_with (uf : UnionFind.t) (first_file : FileInfo.t) (others : list FileInfo.t)
  : option UnionFind.t :=
  match others with
  | [] => Some uf
  | f :: rest =>
      uf' ← UnionFind.union uf (FileInfo.path first_file) (FileInfo.path f);
      union_with uf' first_file rest
  end.

Fixpoint exact_phase (uf : UnionFind.t) (groups : list (string * list FileInfo.t))
  : option UnionFind.t :=
  match groups with
  | [] => Some uf
  | (_, group) :: rest =>
      uf' ← match group with
             | first_file :: ((_ :: _) as others) => union_with uf first_file others
             | _ => Some uf
             end;
      exact_phase uf' rest
  end.

Definition sort_key (x : FileInfo.t) : string :=
  if truthy (FileInfo.phash x) then default "" (FileInfo.phash x) else "".

(** [list.sort(key=...)] is stable: records with equal keys keep the order
    they had. Python orders strings lexicographically on the character
    codes, which is [String.leb]. *)
Fixpoint insert_by_key (x : FileInfo.t) (l : list FileInfo.t) : list FileInfo.t :=
  match l with
  | [] => [x]
  | y :: r =>
      if String.leb (sort_key x) (sort_key y) then x :: y :: r
      else y :: insert_by_key x r
  end.

Definition sort_by_phash (l : list FileInfo.t) : list FileInfo.t :=
  fold_right insert_by_key [] l.

Definition PHASH_SEARCH_WINDOW : nat := 20.

(** The inner loop: [base] against the candidates of its window. *)
Fixpoint window_loop (sensitivity : string) (uf : UnionFind.t) (base : FileInfo.t)
    (window : list FileInfo.t) : option UnionFind.t :=
  match window with
  | [] => Some uf
  | candidate :: rest =>
      uf' ← (if are_near_duplicates base candidate (Some sensitivity)
              then UnionFind.union uf (FileInfo.path base) (FileInfo.path candidate)
              else Some uf);
      window_loop sensitivity uf' base rest
  end.

(** The outer loop over the sorted candidates. *)
Fixpoint near_phase (sensitivity : string) (uf : UnionFind.t)
    (phash_candidates : list FileInfo.t) : option UnionFind.t :=
  match phash_candidates with
  | [] => Some uf
  | base :: rest =>
      uf' ← window_loop sensitivity uf base (take PHASH_SEARCH_WINDOW rest);
      near_phase sensitivity uf' rest
  end.

(** Extraction: every file is filed under its root, in encounter order. *)
Fixpoint raw_clusters (uf : UnionFind.t) (files : list FileInfo.t)
    (acc : list (string * list FileInfo.t)) : option (list (string * list FileInfo.t)) :=
  match files with
  | [] => Some acc
  | file :: rest =>
      '(uf', root_file) ← UnionFind.find uf (FileInfo.path file);
      raw_clusters uf' rest (setdefault_append root_file file acc)
  end.

(** [f"{n:04d}"] *)
Definition fmt04 (n : Z) : string :=
  let s := Text.str n in
  String.append (string_of_list_ascii (repeat "0"%char (4 - String.length s)%nat)) s.

Fixpoint final_clusters (cluster_index : Z) (raw : list (string * list FileInfo.t))
  : result (list DuplicateCluster.t) :=
  match raw with
  | [] => Ok []
  | (_, cluster_files) :: rest =>
      let cluster_id := "cluster_" +:+ fmt04 cluster_index in
      master ← select_master (DuplicateCluster.mk cluster_id cluster_files None []);
      let redundant :=
        filter (λ f, FileInfo.path f ≠ FileInfo.path master) cluster_files in
      tail ← final_clusters (cluster_index + 1) rest;
      Ok (DuplicateCluster.mk cluster_id cluster_files (Some master) redundant :: tail)
  end.

(** [group_duplicates(files, sensitivity=...)]. Records are identified by
    their path, as [FileInfo.__eq__] does. Any exception inside is turned
    into [DuplicateDetectionError]. *)
Definition group_duplicates (files : list FileInfo.t) (sensitivity : option string)
  : result (list DuplicateCluster.t) :=
  match files with
  | [] => Ok []
  | _ =>
      let uf := UnionFind.init files in
      let grouped :=
        uf ← exact_phase uf (exact_groups files);
        let phash_candidates :=
          sort_by_phash (filter (λ f, truthy (FileInfo.phash f) = true) files) in
        let sensitivity := _normalize_sensitivity sensitivity in
        uf ← near_phase sensitivity uf phash_candidates;
        raw_clusters uf files [] in
      raw ← or_raise DuplicateDetectionError grouped;
      final_clusters 1 raw
  end.

End duplicates.

(** ** Reasons for routing a file to REVIEW (src/review.py) *)

Module review.
Definition REVIEW_REASON_MISSING_EXIF : string := "missing_exif_timestamp".
Definition REVIEW_REASON_UNRELIABLE_TIMESTAMP : string := "timestamp_unreliable".
Definition REVIEW_REASON_INVALID_CHRONOLOGY : string := "invalid_chronology".
End review.

(** ** Stateful operations on the filesystem

    An operation takes the filesystem and returns its result, or the error
    it raises, together with the filesystem it leaves behind: nothing is
    rolled back when an exception is raised. The artefact directory (log,
    reports, manifests) is not part of the modelled filesystem, so logging
    and report writing leave the state unchanged. *)

Definition M (A : Type) : Type := FS.t → result A * FS.t.

#[export] Instance M_ret : MRet M := λ A a fs, (Ok a, fs).
#[export] Instance M_bind : MBind M :=
  λ A B f m fs, match m fs with
                | (Ok a, fs') => f a fs'
                | (Err e, fs') => (Err e, fs')
                end.

Definition pure {A} (a : A) : M A := λ fs, (Ok a, fs).
Definition raise {A} (e : error) : M A := λ fs, (Err e, fs).
Definition get_fs : M FS.t := λ fs, (Ok fs, fs).
Definition put_fs (fs' : FS.t) : M unit := λ _, (Ok tt, fs').

(** ** Path safety, directories and safe moves (src/utils.py) *)

Module utils.

Definition startswith_pardir (s : string) : bool := Text.startswith ".." s.

(** The paths visited by the walk from [root] down the components of a
    relative path. *)
Fixpoint walk (current : string) (parts : list string) : list string :=
  match parts with
  | [] => []
  | part :: rest =>
      let next := os_path.join current part in
      next :: walk next rest
  end.

(** The loop at the end of [path_violation_message]. *)
Fixpoint walk_check (fs : FS.t) (normalized_target current : string) (parts : list string)
  : option violation :=
  match parts with
  | [] => None
  | part :: rest =>
      if String.eqb part ".." then Some (Escapes normalized_target)
      else
        let current := os_path.join current part in
        if FS.islink fs current then Some (SymlinkAt current)
        else walk_check fs normalized_target current rest
  end.

(** [os.path.realpath(target)] leaves [realpath(root)] exactly when the
    first symbolic link met on the way down from the root leads outside. *)
Definition resolves_outside (fs : FS.t) (normalized_root : string) (parts : list string)
  : bool :=
  match List.find (FS.islink fs) (walk normalized_root parts) with
  | Some link =>
      match fs !! link with
      | Some (FS.Symlink outside _) => outside
      | _ => false
      end
  | None => false
  end.

(** [path_violation_message(target, root, label=...)]: [None] when the
    target is safe, otherwise what is wrong with it. *)
Definition path_violation_message (fs : FS.t) (target root : string) : option violation :=
  let normalized_root := os_path.abspath root in
  let normalized_target := os_path.abspath target in
  let relative := os_path.relpath normalized_target normalized_root in
  if startswith_pardir relative then Some (Escapes normalized_target)
  else
    let parts :=
      filter (λ part, part ≠ "" ∧ part ≠ ".") (Text.split "/" relative) in
    if resolves_outside fs normalized_root parts
    then Some (ResolvesOutside normalized_target)
    else walk_check fs normalized_target normalized_root parts.

(** [ensure_directory(path)] *)
Definition ensure_directory (path : string) : M unit :=
  λ fs,
    let normalized := os_path.abspath path in
    match FS.makedirs fs normalized with
    | (true, fs') => (Ok tt, fs')
    | (false, fs') => (Err (DirectoryError normalized), fs')
    end.

(** [hashing.compute_sha256(path)] *)
Definition compute_sha256 (path : string) : M string :=
  λ fs, (or_raise (HashingError path) (FS.read_digest fs (os_path.abspath path)), fs).

Definition _ensure_safe (normalized_root target : string) : M unit :=
  λ fs,
    match path_violation_message fs target normalized_root with
    | Some v => (Err (PathViolation v), fs)
    | None => (Ok tt, fs)
    end.

(** The [try] block at the end of [safe_move]: the move and its
    verification; any exception becomes the move failure. *)
Definition move_and_verify (normalized_src target_dst : string) : M string :=
  λ fs,
    match FS.move fs normalized_src target_dst with
    | Some fs' =>
        if FS.exists_ fs' target_dst then (Ok target_dst, fs')
        else (Err (MoveFailed normalized_src target_dst), fs')
    | None => (Err (MoveFailed normalized_src target_dst), fs)
    end.

(** [safe_move(src, dst, allowed_root=...)] *)
Definition safe_move (src dst allowed_root : string) : M string :=
  if String.eqb allowed_root "" then raise ValueError
  else
    let normalized_src := os_path.abspath src in
    let normalized_dst_dir := os_path.dirname (os_path.abspath dst) in
    let normalized_dst_base := os_path.basename (os_path.abspath dst) in
    let normalized_root := os_path.abspath allowed_root in
    _ ← _ensure_safe normalized_root normalized_dst_dir;
    _ ← ensure_directory normalized_dst_dir;
    let target_dst := os_path.join normalized_dst_dir normalized_dst_base in
    _ ← _ensure_safe normalized_root target_dst;
    fs ← get_fs;
    target_dst ←
      (if FS.exists_ fs target_dst then
         src_hash ← compute_sha256 normalized_src;
         dst_hash ← compute_sha256 target_dst;
         if negb (String.eqb src_hash dst_hash) then
           let '(base, ext) := os_path.splitext normalized_dst_base in
           let suffixed_dst :=
             os_path.join normalized_dst_dir (base +:+ "-" +:+ src_hash +:+ ext) in
           if FS.exists_ fs suffixed_dst then raise (UnresolvableCollision src dst)
           else
             _ ← _ensure_safe normalized_root suffixed_dst;
             pure suffixed_dst
         else pure target_dst
       else
         _ ← _ensure_safe normalized_root target_dst;
         pure target_dst);
    move_and_verify normalized_src target_dst.

End utils.

(** ** Target paths of the organised library (src/organizer.py) *)

Module organizer.

(** [re.fullmatch(r"(19|20)\d{2}", part)] *)
Definition year_match (part : string) : bool :=
  match part with
  | String a (String b (String c (String d EmptyString))) =>
      (Text.startswith "19" part || Text.startswith "20" part)
      && Text.is_digit c && Text.is_digit d
  | _ => false
  end.

(** A match of [([01]\d)]: the month number it captures. *)
Definition month_group (s : string) : option Z :=
  match s with
  | String a (String b EmptyString) =>
      if (Ascii.eqb a "0" || Ascii.eqb a "1") && Text.is_digit b
      then Some (Text.int10 s) else None
  | _ => None
  end.

Fixpoint strip_prefix (p s : string) : option string :=
  match p, s with
  | EmptyString, _ => Some s
  | String a p', String b s' => if Ascii.eqb a b then strip_prefix p' s' else None
  | String _ _, EmptyString => None
  end.

Inductive detection :=
| detected (year month : Z)
| invalid
| no_pattern.

Definition in_range (year month_val : Z) : detection :=
  if (1 <=? month_val) && (month_val <=? 12) then detected year month_val else invalid.

(** [_parse_month_segment(year_text, candidate)] *)
Definition _parse_month_segment (year_text candidate : string) : detection :=
  let normalized_year := Text.int10 year_text in
  let year_month_match :=
    match strip_prefix year_text candidate with
    | Some rest =>
        match rest with
        | String c r =>
            if Ascii.eqb c "-" || Ascii.eqb c "_" then month_group r
            else month_group rest
        | EmptyString => None
        end
    | None => None
    end in
  match year_month_match with
  | Some month_val => in_range normalized_year month_val
  | None =>
      match month_group candidate with
      | Some month_val => in_range normalized_year month_val
      | None => no_pattern
      end
  end.

Record ChronologyResult := mk_chronology {
  coordinates : option (Z * Z);
  chronology_invalid : bool
}.

(** The loop of [_existing_chronology] over the components: a year
    component counts when the component after it is not the file name. *)
Fixpoint scan_parts (parts : list string) : ChronologyResult :=
  match parts with
  | part :: ((next_part :: _ :: _) as rest) =>
      if year_match part then
        match _parse_month_segment part next_part with
        | invalid => mk_chronology None true
        | detected y m => mk_chronology (Some (y, m)) false
        | no_pattern => scan_parts rest
        end
      else scan_parts rest
  | _ => mk_chronology None false
  end.

Definition _existing_chronology (path : string) : ChronologyResult :=
  scan_parts (os_path.parts (os_path.abspath path)).

Definition _review_reason (file : FileInfo.t) (chronology_invalid : bool) : option string :=
  if chronology_invalid then Some review.REVIEW_REASON_INVALID_CHRONOLOGY
  else
    match FileInfo.exif_datetime file with
    | None => Some review.REVIEW_REASON_MISSING_EXIF
    | Some _ =>
        if negb (FileInfo.timestamp_reliable file)
        then Some review.REVIEW_REASON_UNRELIABLE_TIMESTAMP
        else None
    end.

(** [<normalized_out>/<year>/<year>-<month:02d>/<filename>] *)
Definition chronological_path (normalized_out : string) (year month : Z) (filename : string)
  : string :=
  let folder :=
    os_path.join (Text.str year) (Text.str year +:+ "-" +:+ Text.fmt02 month) in
  os_path.abspath (os_path.join (os_path.join normalized_out folder) filename).

(** [determine_target_path(file, base_out, merge_mode, source_root)]: the
    target path, and the [review_reason] the call leaves on the record. *)
Definition determine_target_path (file : FileInfo.t) (base_out merge_mode : string)
    (source_root : option string) : string * option string :=
  let filename := os_path.basename (FileInfo.path file) in
  let normalized_out := os_path.abspath base_out in
  if String.eqb (Text.lower merge_mode) "on" then
    let chronology := _existing_chronology (FileInfo.path file) in
    let review_path :=
      os_path.abspath (os_path.join (os_path.join normalized_out "REVIEW") filename) in
    match _review_reason file (chronology_invalid chronology) with
    | Some review_reason => (review_path, Some review_reason)
    | None =>
        match coordinates chronology with
        | Some (year, month) =>
            (chronological_path normalized_out year month filename, None)
        | None =>
            match FileInfo.exif_datetime file with
            | None => (review_path, Some review.REVIEW_REASON_MISSING_EXIF)
            | Some dt =>
                (chronological_path normalized_out (datetime.year dt) (datetime.month dt)
                   filename, None)
            end
        end
    end
  else
    let rel_path :=
      if truthy source_root then
        let rel_path := os_path.relpath (FileInfo.path file) (default "" source_root) in
        if String.eqb rel_path "." || String.eqb rel_path "" then filename else rel_path
      else os_path.relpath (FileInfo.path file) (os_path.dirname (FileInfo.path file)) in
    (os_path.abspath (os_path.join normalized_out rel_path), None).

Fixpoint for_each {A} (f : A → M unit) (l : list A) : M unit :=
  match l with
  | [] => pure tt
  | x :: rest => _ ← f x; for_each f rest
  end.

(** [re.fullmatch(rf"{year_segment}-([01]\d)", month_segment)] *)
Definition year_month_match (year_segment month_segment : string) : bool :=
  match strip_prefix (year_segment +:+ "-") month_segment with
  | Some rest => bool_decide (is_Some (month_group rest))
  | None => false
  end.

(** [ensure_structure(base_out, merge_mode, folders=...)] *)
Definition ensure_structure (base_out merge_mode : string) (folders : list string) : M unit :=
  let normalized_base := os_path.abspath base_out in
  fs ← get_fs;
  if FS.islink fs normalized_base then raise (StructureError normalized_base)
  else
    _ ← utils.ensure_directory normalized_base;
    if negb (String.eqb (Text.lower merge_mode) "on")
    then for_each utils.ensure_directory folders
    else
      for_each
        (λ folder,
           let normalized_folder := os_path.abspath folder in
           fs ← get_fs;
           match utils.path_violation_message fs normalized_folder normalized_base with
           | Some v => raise (PathViolation v)
           | None =>
               if negb (bool_decide (os_path.commonpath [normalized_base; normalized_folder]
                                     = Some normalized_base))
               then raise (StructureError normalized_folder)
               else
                 let rel := os_path.relpath normalized_folder normalized_base in
                 let parts :=
                   filter (λ part, part ≠ "" ∧ part ≠ ".") (Text.split "/" rel) in
                 match parts with
                 | [] => pure tt
                 | year_segment :: more =>
                     if String.eqb year_segment "REVIEW"
                        || String.eqb year_segment "QUARANTINE_EXACT"
                     then
                       _ ← utils.ensure_directory (os_path.join normalized_base year_segment);
                       utils.ensure_directory normalized_folder
                     else if negb (year_match year_segment)
                     then raise (StructureError year_segment)
                     else
                       _ ← utils.ensure_directory (os_path.join normalized_base year_segment);
                       _ ← match more with
                            | month_segment :: _ =>
                                if negb (year_month_match year_segment month_segment)
                                then raise (StructureError month_segment)
                                else utils.ensure_directory
                                       (os_path.join
                                          (os_path.join normalized_base year_segment)
                                          month_segment)
                            | [] => pure tt
                            end;
                       utils.ensure_directory normalized_folder
                 end
           end)
        folders.

End organizer.

(** ** Merge actions and plans (src/models/actions.py, mergeplan.py) *)

Inductive MergeAction :=
| CreateFolderAction (path : string)
| MoveMasterAction (src dst : string) (sha256 : option string) (size : Z)
    (review_reason : option string)
| MoveToQuarantineExactAction (src dst : string) (sha256 : option string) (size : Z)
| MarkNearDuplicateAction (src master : string) (sha256 : option string) (size : Z).

Module MergePlan.
Record t := mk {
  required_space : Z;
  destination_free : Z;
  duplicate_count : Z;
  total_files : Z;
  actions : list MergeAction;
  destination_path : string;
  skipped_files : Z
}.
End MergePlan.

(** ** Planning, execution and undo (src/merge_engine.py) *)

Module UndoEntry.
Record t := mk {
  original_path : option string;
  new_path : option string;
  hash : option string;
  status : string;
  reason : string;
  target_path : option string
}.
End UndoEntry.

Module ManifestEntry.
Record t := mk {
  original_path : option string;
  new_path : option string;
  hash : option string
}.
End ManifestEntry.

Module SourceManifest.
Record t := mk {
  batch_id : option string;
  entries : list ManifestEntry.t
}.
End SourceManifest.

Module UndoPlan.
Record t := mk {
  operation_id : string;
  library_root : string;
  conflict_root : string;
  entries : list UndoEntry.t
}.
End UndoPlan.

Module merge_engine.

(** *** Destination validation *)

Definition is_year (name : string) : bool :=
  (String.length name =? 4)%nat && Text.isdigit name
  && (Text.startswith "19" name || Text.startswith "20" name).

(** [name.split(c, 1)] for a name that contains [c]. *)
Fixpoint split_once (c : ascii) (s : string) : string * string :=
  match s with
  | EmptyString => ("", "")
  | String a r =>
      if Ascii.eqb a c then ("", r)
      else let '(y, m) := split_once c r in (String a y, m)
  end.

Definition is_year_month (name year : string) : bool :=
  if negb (String.length name =? 7)%nat
     || negb (bool_decide (String.get 4 name = Some "-"%char))
  then false
  else
    let '(y, m) := split_once "-" name in
    if negb (String.eqb y year) then false
    else Text.isdigit m && (1 <=? Text.int10 m) && (Text.int10 m <=? 12).

Definition visible (fs : FS.t) (directory : string) : list string :=
  filter (λ entry, Text.startswith "." entry = false) (FS.listdir fs directory).

Fixpoint check_months (fs : FS.t) (normalized entry year_path : string)
    (month_entries : list string) : result unit :=
  match month_entries with
  | [] => Ok tt
  | month_entry :: rest =>
      let month_path := os_path.join year_path month_entry in
      match utils.path_violation_message fs month_path normalized with
      | Some v => Err (MergePlanViolation v)
      | None =>
          if negb (FS.isdir fs month_path)
          then Err (MergePlanError "must be a directory" month_entry)
          else if negb (is_year_month month_entry entry)
          then Err (MergePlanError "not a valid YEAR-MONTH" month_entry)
          else check_months fs normalized entry year_path rest
      end
  end.

Fixpoint check_years (fs : FS.t) (normalized destination : string) (entries : list string)
  : result unit :=
  match entries with
  | [] => Ok tt
  | entry :: rest =>
      let year_path := os_path.join destination entry in
      match utils.path_violation_message fs year_path normalized with
      | Some v => Err (MergePlanViolation v)
      | None =>
          if negb (FS.isdir fs year_path)
          then Err (MergePlanError "not a directory" entry)
          else if negb (is_year entry)
          then Err (MergePlanError "not a valid YEAR folder" entry)
          else
            _ ← check_months fs normalized entry year_path (visible fs year_path);
            check_years fs normalized destination rest
      end
  end.

(** [_validate_destination(destination)]; the destination is the absolute
    path computed by the caller. *)
Definition _validate_destination (fs : FS.t) (destination : string) : result unit :=
  let normalized := os_path.abspath destination in
  if FS.islink fs normalized then Err (MergePlanError "is a symlink" normalized)
  else if FS.isfile fs normalized then Err (MergePlanError "must be a directory" normalized)
  else if negb (FS.exists_ fs normalized) then Ok tt
  else check_years fs normalized normalized (visible fs normalized).

Definition validate_destination := _validate_destination.

(** *** Planning *)

Definition _common_source_root (files : list FileInfo.t) : option string :=
  os_path.commonpath (map (λ f, os_path.abspath (FileInfo.path f)) files).

Definition cluster_actions (destination effective_mode : string) (source_root : option string)
    (master : FileInfo.t) (files : list FileInfo.t) : list MergeAction * gset string :=
  let redundant := filter (λ f, FileInfo.path f ≠ FileInfo.path master) files in
  let '(target_master, review_reason) :=
    organizer.determine_target_path master destination effective_mode source_root in
  let quarantine_exact_dir := os_path.join destination "QUARANTINE_EXACT" in
  let redundant_exact_duplicates :=
    filter (λ f, FileInfo.sha256 f = FileInfo.sha256 master) redundant in
  let redundant_near_duplicates :=
    filter (λ f, FileInfo.sha256 f ≠ FileInfo.sha256 master) redundant in
  let exact_targets :=
    map (λ file, os_path.join quarantine_exact_dir (os_path.basename (FileInfo.path file)))
        redundant_exact_duplicates in
  ( [MoveMasterAction (os_path.abspath (FileInfo.path master))
       (os_path.abspath target_master) (FileInfo.sha256 master) (FileInfo.size master)
       review_reason]
    ++ map (λ file,
              MoveToQuarantineExactAction (os_path.abspath (FileInfo.path file))
                (os_path.abspath
                   (os_path.join quarantine_exact_dir (os_path.basename (FileInfo.path file))))
                (FileInfo.sha256 file) (FileInfo.size file))
           redundant_exact_duplicates
    ++ map (λ file,
              MarkNearDuplicateAction (os_path.abspath (FileInfo.path file))
                (os_path.abspath (FileInfo.path master))
                (FileInfo.sha256 file) (FileInfo.size file))
           redundant_near_duplicates,
    {[ os_path.dirname target_master ]}
    ∪ list_to_set (map os_path.dirname exact_targets) )%list.

Fixpoint clusters_actions (destination effective_mode : string) (source_root : option string)
    (clusters : list DuplicateCluster.t)
  : result (list MergeAction * gset string * gset string) :=
  match clusters with
  | [] => Ok ([], ∅, ∅)
  | cluster :: rest =>
      master ← match DuplicateCluster.master cluster with
                | Some master => Ok master
                | None => duplicates.select_master cluster
                end;
      let '(actions, folders) :=
        cluster_actions destination effective_mode source_root master
          (DuplicateCluster.files cluster) in
      '(more, more_folders, in_clusters) ←
        clusters_actions destination effective_mode source_root rest;
      Ok ((actions ++ more)%list, folders ∪ more_folders,
          list_to_set (map FileInfo.path (DuplicateCluster.files cluster)) ∪ in_clusters)
  end.

Fixpoint singles_actions (destination effective_mode : string) (source_root : option string)
    (files_in_clusters : gset string) (files : list FileInfo.t)
  : list MergeAction * gset string :=
  match files with
  | [] => ([], ∅)
  | file :: rest =>
      let '(more, more_folders) :=
        singles_actions destination effective_mode source_root files_in_clusters rest in
      if bool_decide (FileInfo.path file ∈ files_in_clusters) then (more, more_folders)
      else
        let '(target, review_reason) :=
          organizer.determine_target_path file destination effective_mode source_root in
        (MoveMasterAction (os_path.abspath (FileInfo.path file)) (os_path.abspath target)
           (FileInfo.sha256 file) (FileInfo.size file) review_reason :: more,
         {[ os_path.dirname target ]} ∪ more_folders)
  end.

(** [_create_file_actions]: the file actions in plan order and the set of
    folders they need. *)
Definition _create_file_actions (files : list FileInfo.t) (clusters : list DuplicateCluster.t)
    (destination effective_mode : string) (source_root : option string)
  : result (list MergeAction * gset string) :=
  '(actions, folders, files_in_clusters) ←
    clusters_actions destination effective_mode source_root clusters;
  let '(singles, single_folders) :=
    singles_actions destination effective_mode source_root files_in_clusters files in
  Ok ((actions ++ singles)%list, folders ∪ single_folders).

Definition _create_folder_actions (folders : gset string) : list MergeAction :=
  map (λ folder, CreateFolderAction (os_path.abspath folder)) (elements folders).

(** [_available_space(path)]: the free space reported for the nearest
    existing ancestor; [disk_free] is [shutil.disk_usage(...).free], [None]
    when it raises [FileNotFoundError]. *)
Definition _available_space (fs : FS.t) (disk_free : string → option Z) (path : string) : Z :=
  let probe := os_path.abspath path in
  match List.find (FS.exists_ fs) (rev (FS.chain probe) ++ ["/"])%list with
  | Some found => default 0 (disk_free found)
  | None => 0
  end.

Definition moves_file (action : MergeAction) : bool :=
  match action with
  | MoveMasterAction _ _ _ _ _ | MoveToQuarantineExactAction _ _ _ _ => true
  | _ => false
  end.

(** The [size] attribute of an action that has one. *)
Definition action_size (action : MergeAction) : Z :=
  match action with
  | CreateFolderAction _ => 0
  | MoveMasterAction _ _ _ size _ => size
  | MoveToQuarantineExactAction _ _ _ size => size
  | MarkNearDuplicateAction _ _ _ size => size
  end.

(** [_calculate_storage(actions, destination)]; [sum] adds from the left,
    starting at 0. *)
Definition _calculate_storage (fs : FS.t) (disk_free : string → option Z)
    (actions : list MergeAction) (destination : string) : Z * Z :=
  let required_space :=
    fold_left Z.add (map action_size (filter (λ a, moves_file a = true) actions)) 0 in
  let destination_free := _available_space fs disk_free destination in
  (required_space, destination_free).

(** [build_merge_plan(files, clusters, out_path, mode, skipped_files)].
    An error other than [StorageError] is re-raised by the code as a
    generic [MergePlanError]; the embedding keeps its cause. *)
Definition build_merge_plan (fs : FS.t) (disk_free : string → option Z)
    (files : list FileInfo.t) (clusters : list DuplicateCluster.t)
    (out_path : string) (skipped_files : Z) : result MergePlan.t :=
  let destination := os_path.abspath out_path in
  _ ← _validate_destination fs destination;
  let effective_mode := "on" in
  let source_root := _common_source_root files in
  '(file_actions, folders) ←
    _create_file_actions files clusters destination effective_mode source_root;
  let folder_actions := _create_folder_actions folders in
  let actions := (folder_actions ++ file_actions)%list in
  let '(required_space, destination_free) :=
    _calculate_storage fs disk_free actions destination in
  if destination_free <? required_space
  then Err (StorageError required_space destination_free)
  else Ok (MergePlan.mk required_space destination_free
             (Z.of_nat (length clusters)) (Z.of_nat (length files))
             actions destination skipped_files).

(** [dry_run(plan)]: the number of actions of each type, in order of first
    appearance. *)
Definition action_type (action : MergeAction) : string :=
  match action with
  | CreateFolderAction _ => "CREATE_FOLDER"
  | MoveMasterAction _ _ _ _ _ => "MOVE_MASTER"
  | MoveToQuarantineExactAction _ _ _ _ => "MOVE_TO_QUARANTINE_EXACT"
  | MarkNearDuplicateAction _ _ _ _ => "MARK_NEAR_DUPLICATE"
  end.

(** *** Execution *)

Definition action_dst (action : MergeAction) : option string :=
  match action with
  | MoveMasterAction _ dst _ _ _ | MoveToQuarantineExactAction _ dst _ _ => Some dst
  | _ => None
  end.

Definition action_src (action : MergeAction) : option string :=
  match action with
  | MoveMasterAction src _ _ _ _ | MoveToQuarantineExactAction src _ _ _ => Some src
  | _ => None
  end.

(** The [sha256] attribute of an action that has one. *)
Definition action_sha256 (action : MergeAction) : option string :=
  match action with
  | MoveMasterAction _ _ sha _ _ | MoveToQuarantineExactAction _ _ sha _
  | MarkNearDuplicateAction _ _ sha _ => sha
  | CreateFolderAction _ => None
  end.

Definition action_folder (action : MergeAction) : option string :=
  match action with
  | CreateFolderAction path => Some path
  | _ => None
  end.

Definition set_dst (new_dst : string) (action : MergeAction) : MergeAction :=
  match action with
  | MoveMasterAction src _ sha size reason => MoveMasterAction src new_dst sha size reason
  | MoveToQuarantineExactAction src _ sha size => MoveToQuarantineExactAction src new_dst sha size
  | other => other
  end.

(** [_infer_destination_root(plan)] on the actions of the plan. *)
Definition _infer_destination_root (actions : list MergeAction) : option string :=
  match omap action_dst actions with
  | _ :: _ as move_targets => os_path.commonpath (map os_path.abspath move_targets)
  | [] =>
      match omap action_folder actions with
      | _ :: _ as folder_targets => os_path.commonpath (map os_path.abspath folder_targets)
      | [] => None
      end
  end.

Definition _get_parent (path : string) : option string :=
  if String.eqb path "" then None else Some (os_path.abspath (os_path.dirname path)).

Definition _execute_move (src dst allowed_root : string) : M string :=
  utils.safe_move src dst allowed_root.

(** The first truthy value of [a or b or c]. *)
Definition first_truthy (a b : option string) (c : string) : string :=
  if truthy a then default "" a else if truthy b then default "" b else c.

(** The loop of [execute_merge] over the actions. [applied] holds the actions
    already applied, with the destinations they ended at, as the plan object
    has them at that point; the result is the renamed pairs and the actions
    as the loop leaves them. *)
Fixpoint apply_actions (destination_root : option string)
    (applied todo : list MergeAction) (renamed_paths : list (string * string))
  : M (list (string * string) * list MergeAction) :=
  match todo with
  | [] => pure (renamed_paths, applied)
  | action :: rest =>
      match action with
      | CreateFolderAction path =>
          _ ← utils.ensure_directory path;
          apply_actions destination_root (applied ++ [action])%list rest renamed_paths
      | MoveMasterAction src dst sha256 _ _
      | MoveToQuarantineExactAction src dst sha256 _ =>
          let original_dst := dst in
          let allowed_root :=
            first_truthy destination_root
              (_infer_destination_root (applied ++ todo)%list)
              (os_path.abspath (os_path.dirname dst)) in
          new_dst ← _execute_move src dst allowed_root;
          let renamed_paths :=
            if negb (String.eqb (os_path.abspath new_dst) (os_path.abspath original_dst))
            then (renamed_paths ++ [(original_dst, new_dst)])%list
            else renamed_paths in
          let action := set_dst new_dst action in
          let original_hash := sha256 in
          _ ← (if truthy original_hash then
                 new_hash ← utils.compute_sha256 new_dst;
                 if negb (String.eqb new_hash (default "" original_hash))
                 then raise (HashMismatchAfterMove new_dst)
                 else pure tt
               else pure tt);
          apply_actions destination_root (applied ++ [action])%list rest renamed_paths
      | MarkNearDuplicateAction _ _ _ _ =>
          apply_actions destination_root (applied ++ [action])%list rest renamed_paths
      end
  end.

(** [execute_merge(plan)]: the renamed pairs, and the plan's actions as the
    execution leaves them (the source manifest is written from them). Every
    exception is re-raised as a [MergeExecutionError] carrying its message;
    the embedding keeps the cause. The plan report written before the
    actions, the merge report and the source manifest written after them
    and the removal of a stale [dedupe_report.html] touch the artefact
    directory only (see [reporting]). *)
Definition execute_merge (plan : MergePlan.t)
  : M (list (string * string) * list MergeAction) :=
  let actions := MergePlan.actions plan in
  let folder_targets := map os_path.abspath (omap action_folder actions) in
  let destination_root :=
    if String.eqb (MergePlan.destination_path plan) "" then _infer_destination_root actions
    else Some (MergePlan.destination_path plan) in
  _ ← (if truthy destination_root
       then organizer.ensure_structure (default "" destination_root) "on" folder_targets
       else pure tt);
  let base_dirs :=
    remove_dups
      (map (λ path, os_path.abspath (default "" (_get_parent path)))
         (omap action_folder actions)) in
  _ ← organizer.for_each
        (λ base, if String.eqb base "" then pure tt else utils.ensure_directory base)
        base_dirs;
  apply_actions destination_root [] actions [].

(** The entries of the source manifest written after a successful
    execution ([reporting._source_manifest_entries], before sorting). *)
Definition manifest_entries (original executed : list MergeAction) : list ManifestEntry.t :=
  omap (λ action,
          match action with
          | MoveMasterAction src dst sha _ _ | MoveToQuarantineExactAction src dst sha _ =>
              Some (ManifestEntry.mk (Some (os_path.abspath src)) (Some (os_path.abspath dst)) sha)
          | _ => None
          end)
       executed.

(** *** Undo *)

(** [load_source_manifest(manifest_path)] on the stored payload, [None]
    when there is no manifest file. *)
Definition load_source_manifest (stored : option SourceManifest.t)
  : result (string * list ManifestEntry.t) :=
  match stored with
  | None => Err (UndoInputError "source_manifest.json not found")
  | Some payload =>
      if negb (truthy (SourceManifest.batch_id payload))
      then Err (UndoInputError "source_manifest.json is missing batch_id")
      else Ok (default "" (SourceManifest.batch_id payload), SourceManifest.entries payload)
  end.

(** The loop of [_infer_library_root] on the components of the root, last
    component first. *)
Fixpoint peel_structural (rev_parts : list string) : list string :=
  match rev_parts with
  | [] => []
  | base :: above =>
      if String.eqb base "QUARANTINE_EXACT" || String.eqb base "REVIEW" then peel_structural above
      else if is_year base then peel_structural above
      else if is_year_month base (hd "" above) then peel_structural above
      else rev_parts
  end.

Definition _infer_library_root (entries : list ManifestEntry.t) : option string :=
  let paths :=
    omap (λ entry,
            if truthy (ManifestEntry.new_path entry)
            then Some (os_path.dirname (default "" (ManifestEntry.new_path entry)))
            else None)
         entries in
  match os_path.commonpath paths with
  | None => None
  | Some common =>
      let root := os_path.abspath common in
      Some ("/" +:+ Text.join "/" (rev (peel_structural (rev (os_path.parts root)))))
  end.

Definition _hash_matches (fs : FS.t) (path : string) (expected : option string) : result bool :=
  if negb (truthy expected) then Ok false
  else
    digest ← or_raise (HashingError path) (FS.read_digest fs (os_path.abspath path));
    Ok (String.eqb digest (default "" expected)).

Definition _existing_parent (fs : FS.t) (path : string) : option string :=
  List.find (FS.exists_ fs) (rev (FS.chain (os_path.abspath path)) ++ ["/"])%list.

(** [_assert_same_filesystem(src, target_path)]; [st_dev] gives the device
    of the filesystem that holds a path. *)
Definition _assert_same_filesystem (st_dev : string → Z) (fs : FS.t) (src target_path : string)
  : result unit :=
  if negb (FS.exists_ fs (os_path.abspath src))
  then Err (UndoSafetyError "Unable to stat source for undo")
  else
    match _existing_parent fs (os_path.dirname target_path) with
    | None => Err (UndoSafetyError "Unable to locate existing parent for undo target")
    | Some target_parent =>
        if negb (st_dev (os_path.abspath src) =? st_dev target_parent)
        then Err (UndoSafetyError "Undo blocked: source and target are on different filesystems.")
        else Ok tt
    end.

Definition first12 (s : string) : string := String.substring 0 12 s.

(** [_unique_destination(path, src_hash)] *)
Definition _unique_destination (fs : FS.t) (path : string) (src_hash : option string)
  : result string :=
  if negb (FS.exists_ fs (os_path.abspath path)) then Ok path
  else
    let '(base, ext) := os_path.splitext path in
    let suffix := first12 (if truthy src_hash then default "" src_hash else "conflict") in
    let candidate := base +:+ "-" +:+ suffix +:+ ext in
    if negb (FS.exists_ fs (os_path.abspath candidate)) then Ok candidate
    else
      match List.find (λ numbered, negb (FS.exists_ fs (os_path.abspath numbered)))
              (map (λ idx, base +:+ "-" +:+ suffix +:+ "-" +:+ Text.str (Z.of_nat idx) +:+ ext)
                   (seq 1 999)) with
      | Some numbered => Ok numbered
      | None => Err (UndoSafetyError "Unable to resolve undo conflict destination")
      end.

(** The classification of one manifest entry in [prepare_undo_plan]. *)
Definition classify (fs : FS.t) (conflict_root : string) (entry : ManifestEntry.t)
  : result UndoEntry.t :=
  let original_path := ManifestEntry.original_path entry in
  let new_path := ManifestEntry.new_path entry in
  let sha256 := ManifestEntry.hash entry in
  let planned status reason target_path :=
    UndoEntry.mk original_path new_path sha256 status reason target_path in
  if negb (truthy original_path) || negb (truthy new_path)
  then Ok (planned "skipped_invalid" "Manifest entry missing required paths." None)
  else
    let original := default "" original_path in
    let new := default "" new_path in
    let original_exists := FS.exists_ fs (os_path.abspath original) in
    let new_exists := FS.exists_ fs (os_path.abspath new) in
    if new_exists then
      if original_exists
      then Ok (planned "conflict" "Original path occupied; routed to REVIEW."
                 (Some (os_path.join conflict_root (os_path.basename new))))
      else Ok (planned "restore" "Ready to restore." original_path)
    else
      matches ← (if original_exists then _hash_matches fs original sha256 else Ok false);
      if original_exists && matches
      then Ok (planned "skipped_restored" "Already restored." None)
      else if original_exists
      then Ok (planned "conflict_missing_source" "Original path occupied; source missing." None)
      else Ok (planned "skipped_missing" "Source missing; nothing to restore." None).

Fixpoint classify_all (fs : FS.t) (conflict_root : string) (entries : list ManifestEntry.t)
  : result (list UndoEntry.t) :=
  match entries with
  | [] => Ok []
  | entry :: rest =>
      planned ← classify fs conflict_root entry;
      more ← classify_all fs conflict_root rest;
      Ok (planned :: more)
  end.

(** [prepare_undo_plan(manifest_path, operation_id)] *)
Definition prepare_undo_plan (fs : FS.t) (stored : option SourceManifest.t)
    (operation_id : string) : result UndoPlan.t :=
  '(batch_id, entries) ← load_source_manifest stored;
  if negb (String.eqb operation_id batch_id)
  then Err (UndoInputError "Unknown operation id; no matching manifest found.")
  else
    match _infer_library_root entries with
    | None => Err (UndoInputError "Unable to infer library root from source manifest.")
    | Some library_root =>
        if String.eqb library_root ""
        then Err (UndoInputError "Unable to infer library root from source manifest.")
        else
          let conflict_root :=
            os_path.join (os_path.join (os_path.join library_root "REVIEW") "UNDO_CONFLICTS")
              operation_id in
          planned_entries ← classify_all fs conflict_root entries;
          Ok (UndoPlan.mk operation_id library_root conflict_root planned_entries)
    end.

Definition with_status (status reason : string) (target_path : option string)
    (entry : UndoEntry.t) : UndoEntry.t :=
  UndoEntry.mk (UndoEntry.original_path entry) (UndoEntry.new_path entry)
    (UndoEntry.hash entry) status reason target_path.

Definition lift {A} (r : result A) : M A := λ fs, (r, fs).

(** The body of the loop of [execute_undo] for one entry. *)
Definition undo_entry (st_dev : string → Z) (conflict_root : string) (entry : UndoEntry.t)
  : M UndoEntry.t :=
  let status := UndoEntry.status entry in
  let src := UndoEntry.new_path entry in
  let original := UndoEntry.original_path entry in
  let sha256 := UndoEntry.hash entry in
  if negb (String.eqb status "restore" || String.eqb status "conflict") then pure entry
  else
    fs ← get_fs;
    if negb (truthy src) || negb (FS.exists_ fs (os_path.abspath (default "" src))) then
      matches ←
        (if truthy original && FS.exists_ fs (os_path.abspath (default "" original))
         then lift (_hash_matches fs (default "" original) sha256)
         else pure false);
      if (matches : bool) then pure (with_status "skipped_restored" "Already restored." None entry)
      else pure (with_status "skipped_missing" "Source missing at execution." None entry)
    else
      let src := default "" src in
      let target_path :=
        if String.eqb status "restore" then original
        else Some (os_path.join conflict_root (os_path.basename src)) in
      if negb (truthy target_path)
      then pure (with_status "skipped_invalid" "Missing target path for undo."
                   (UndoEntry.target_path entry) entry)
      else
        let target_path := default "" target_path in
        _ ← lift (_assert_same_filesystem st_dev fs src target_path);
        current_hash ← utils.compute_sha256 src;
        if truthy sha256 && negb (String.eqb current_hash (default "" sha256))
        then raise (UndoSafetyError "Integrity mismatch before undo move.")
        else
          target_path ←
            (if FS.exists_ fs (os_path.abspath target_path) then
               let target_path :=
                 if String.eqb status "restore"
                 then os_path.join conflict_root (os_path.basename src)
                 else target_path in
               lift (_unique_destination fs target_path sha256)
             else pure target_path);
          _ ← utils.ensure_directory (os_path.dirname target_path);
          fs ← get_fs;
          _ ← match FS.move fs (os_path.abspath src) (os_path.abspath target_path) with
               | Some fs' => put_fs fs'
               | None => raise (MoveFailed src target_path)
               end;
          fs ← get_fs;
          if negb (FS.exists_ fs (os_path.abspath target_path))
          then raise (UndoSafetyError "Undo move failed.")
          else
            moved_hash ← utils.compute_sha256 target_path;
            if truthy sha256 && negb (String.eqb moved_hash (default "" sha256))
            then raise (UndoSafetyError "Integrity mismatch after undo move.")
            else if String.eqb status "restore"
                    && String.eqb (os_path.abspath target_path)
                         (os_path.abspath (default "" original))
            then pure (with_status "restored" "Restored to original path."
                         (Some target_path) entry)
            else pure (with_status "conflict_routed"
                         "Original path occupied; routed to REVIEW." (Some target_path) entry).

Fixpoint undo_entries (st_dev : string → Z) (conflict_root : string)
    (entries : list UndoEntry.t) : M (list UndoEntry.t) :=
  match entries with
  | [] => pure []
  | entry :: rest =>
      result ← undo_entry st_dev conflict_root entry;
      results ← undo_entries st_dev conflict_root rest;
      pure (result :: results)
  end.

(** [execute_undo(plan)]: the entries of the summary. *)
Definition execute_undo (st_dev : string → Z) (plan : UndoPlan.t) : M (list UndoEntry.t) :=
  let conflict_root := UndoPlan.conflict_root plan in
  _ ← utils.ensure_directory conflict_root;
  undo_entries st_dev conflict_root (UndoPlan.entries plan).

(** [preview_undo(plan)]: the relabelled entries. *)
Definition preview_undo (plan : UndoPlan.t) : list UndoEntry.t :=
  map (λ entry,
         if String.eqb (UndoEntry.status entry) "restore"
         then with_status "would_restore" (UndoEntry.reason entry)
                (UndoEntry.target_path entry) entry
         else if String.eqb (UndoEntry.status entry) "conflict"
         then with_status "would_conflict" (UndoEntry.reason entry)
                (UndoEntry.target_path entry) entry
         else entry)
      (UndoPlan.entries plan).

End merge_engine.

(** ** Normal forms of paths *)

Module NormalPath.

Fixpoint has_slash (s : string) : bool :=
  match s with
  | EmptyString => false
  | String a r => Ascii.eqb a "/" || has_slash r
  end.

(** A path component as [listdir] gives them and [abspath] keeps them. *)
Definition simple (s : string) : Prop :=
  has_slash s = false ∧ s ≠ "" ∧ s ≠ "." ∧ s ≠ "..".

(** A normalised absolute path: one or two slashes, then components
    separated by single slashes. *)
Definition rooted (init : string) (cs : list string) : string :=
  init +:+ Text.join "/" cs.

Definition is_root (init : string) : Prop := init = "/" ∨ init = "//".

(** What stands before the last slash of a normalised path. *)
Definition stem (init : string) (cs : list string) : string :=
  match cs with
  | [] => if String.eqb init "/" then "" else "/"
  | _ => rooted init cs
  end.

End NormalPath.

(** ** Vocabulary of the specification *)

Module Spec.





Definition known_tiers : list string := ["conservative"; "balanced"; "aggressive"].

(** The rule chain of master selection as a ranking key, compared
    lexicographically: RAW, then pixel count, then size, then number of
    EXIF fields, then GPS, then having a capture time and, among capture
    times, the older one (whence the negated fields). *)
Definition rank_key (f : FileInfo.t) : list Z :=
  [ Z.b2z (FileInfo.is_raw f);
    (duplicates.res_or_zero f).1 * (duplicates.res_or_zero f).2;
    FileInfo.size f;
    duplicates.exif_count f;
    Z.b2z (duplicates.has_gps f) ]
  ++ match FileInfo.exif_datetime f with
     | Some ts => 1 :: map Z.opp (datetime.fields ts)
     | None => [0; 0; 0; 0; 0; 0; 0; 0]
     end.

(** [candidate] outranks [current] in the rule chain. *)
Definition chain_better (candidate current : FileInfo.t) : bool :=
  match datetime.lex_compare (rank_key candidate) (rank_key current) with
  | Gt => true
  | _ => false
  end.

(** The HEIC-versus-JPEG rule decides against the rule chain: at equal
    RAW flag and resolution, [heic] has the metadata advantage over the
    JPEG [jpeg] although it is the smaller file. *)
Definition heic_overrides (heic jpeg : FileInfo.t) : bool :=
  Bool.eqb (FileInfo.is_raw heic) (FileInfo.is_raw jpeg)
  && bool_decide (duplicates.res_or_zero heic = duplicates.res_or_zero jpeg)
  && String.eqb (duplicates.fmt_lower heic) "heic"
  && duplicates.is_jpeg (duplicates.fmt_lower jpeg)
  && duplicates.metadata_advantage
       (duplicates.exif_count heic) (duplicates.exif_count jpeg)
       (duplicates.has_gps heic) (duplicates.has_gps jpeg)
  && (FileInfo.size heic <? FileInfo.size jpeg).

(** The bytes a plan moves: the sizes of its MoveMaster and
    MoveToQuarantineExact actions; the other actions count for nothing. *)
Fixpoint moved_bytes (actions : list MergeAction) : Z :=
  match actions with
  | [] => 0
  | MoveMasterAction _ _ _ size _ :: rest => size + moved_bytes rest
  | MoveToQuarantineExactAction _ _ _ size :: rest => size + moved_bytes rest
  | MarkNearDuplicateAction _ _ _ _ :: rest => moved_bytes rest
  | CreateFolderAction _ :: rest => moved_bytes rest
  end.

(** The operation never raises the post-move hash mismatch. *)
Definition no_mismatch {A} (m : M A) : Prop :=
  ∀ fs p, (m fs).1 ≠ Err (HashMismatchAfterMove p).

(** The file named by an entry sits at its original path with the recorded
    hash and nothing is left at the new path. *)
Definition already_restored (fs : FS.t) (original_path new_path hash : option string) : Prop :=
  truthy original_path = true ∧ truthy new_path = true ∧ truthy hash = true
  ∧ FS.read_digest fs (os_path.abspath (default "" original_path)) = hash
  ∧ FS.exists_ fs (os_path.abspath (default "" new_path)) = false.

Definition skipped_restored (entry : UndoEntry.t) : Prop :=
  UndoEntry.status entry = "skipped_restored" ∧ UndoEntry.target_path entry = None.

(** A valid YEAR segment: the numeral of a year from 1900 to 2099. *)
Definition year_segment (segment : string) : Prop :=
  ∃ y, 1900 ≤ y ≤ 2099 ∧ segment = Text.str y.

(** The segment after the segment [year] names the month [m] with two
    digits of which the first is 0 or 1: it is YEAR-MM or the bare MM, or
    one of the spellings YEAR_MM and YEARMM that are read likewise. *)
Definition month_segment (year segment : string) (m : Z) : Prop :=
  0 ≤ m ≤ 19
  ∧ (segment = year +:+ "-" +:+ Text.fmt02 m ∨ segment = Text.fmt02 m
     ∨ segment = year +:+ "_" +:+ Text.fmt02 m ∨ segment = year +:+ Text.fmt02 m).


End Spec.

(** ** Sample data *)

Module Samples.

Definition photo (path : string) (size : Z) (fmt : string)
    (resolution : option (Z * Z)) (dt : option datetime.t)
    (camera sha256 phash : option string) : FileInfo.t :=
  FileInfo.mk path size (Some fmt) resolution dt None camera None sha256 phash
    false true None None.

Definition noon : datetime.t := datetime.mk 2022 1 1 12 0 0 0.

(** Two shots at Hamming distance 4, close in size and taken together. *)
Definition shot_a : FileInfo.t :=
  photo "/in/a.jpg" 10 "jpg" (Some (2000, 1000)) (Some noon) None None
    (Some "ffff000000000000").
Definition shot_b : FileInfo.t :=
  photo "/in/b.jpg" 10 "jpg" (Some (2100, 1050)) (Some noon) None None
    (Some "fff0000000000000").

(** Three renditions of one picture at the same resolution: a small HEIC
    with the richest metadata, a large JPEG, and a PNG in between. *)
Definition heic : FileInfo.t :=
  photo "/in/p.heic" 1 "heic" (Some (10, 10)) (Some noon) (Some "cam") None None.
Definition jpeg : FileInfo.t :=
  photo "/in/p.jpg" 3 "jpg" (Some (10, 10)) (Some noon) None None None.
Definition png : FileInfo.t :=
  photo "/in/p.png" 2 "png" (Some (10, 10)) None None None None.

Definition archived_undated : FileInfo.t :=
  photo "/photos/2023/2023-05/pic.jpg" 1 "jpg" None None None None None.

(** One 10-byte master, one 5-byte quarantined duplicate, one 3-byte
    near-duplicate mark. *)
Definition three_actions : list MergeAction :=
  [ CreateFolderAction "/library/2022/2022-01";
    MoveMasterAction "/in/m.jpg" "/library/2022/2022-01/m.jpg" (Some "h1") 10 None;
    MoveToQuarantineExactAction "/in/d.jpg" "/library/QUARANTINE_EXACT/d.jpg" (Some "h1") 5;
    MarkNearDuplicateAction "/in/n.jpg" "/in/m.jpg" (Some "h2") 3 ].

Definition empty_library : FS.t :=
  list_to_map [("/", FS.Dir); ("/library", FS.Dir); ("/in", FS.Dir)].

(** A library and an incoming file whose bytes have digest [d-new]; the
    plan moves it, once without a recorded hash and once with a recorded
    hash that does not match the bytes any more. *)
Definition incoming : FS.t :=
  list_to_map [("/", FS.Dir); ("/library", FS.Dir); ("/in", FS.Dir);
               ("/in/m.jpg", FS.File "d-new")].

Definition plan_of (actions : list MergeAction) : MergePlan.t :=
  MergePlan.mk 10 1000 0 1 actions "/library" 0.

Definition unhashed_plan : MergePlan.t :=
  plan_of [ CreateFolderAction "/library/2022/2022-01";
            MoveMasterAction "/in/m.jpg" "/library/2022/2022-01/m.jpg" None 10 None ].

Definition stale_plan : MergePlan.t :=
  plan_of [ CreateFolderAction "/library/2022/2022-01";
            MoveMasterAction "/in/m.jpg" "/library/2022/2022-01/m.jpg" (Some "d-old") 10 None ].

(** A library after the merge of one photo, the manifest of that merge,
    and the filesystem once the merge has been undone. *)
Definition merged : FS.t :=
  list_to_map [("/", FS.Dir); ("/src", FS.Dir); ("/library", FS.Dir);
               ("/library/2024", FS.Dir); ("/library/2024/2024-01", FS.Dir);
               ("/library/2024/2024-01/photo.jpg", FS.File "h1")].

Definition manifest : SourceManifest.t :=
  SourceManifest.mk (Some "batch123")
    [ManifestEntry.mk (Some "/src/photo.jpg") (Some "/library/2024/2024-01/photo.jpg")
       (Some "h1")].

Definition undone : FS.t :=
  list_to_map [("/", FS.Dir); ("/src", FS.Dir); ("/src/photo.jpg", FS.File "h1");
               ("/library", FS.Dir); ("/library/2024", FS.Dir);
               ("/library/2024/2024-01", FS.Dir); ("/library/REVIEW", FS.Dir);
               ("/library/REVIEW/UNDO_CONFLICTS", FS.Dir);
               ("/library/REVIEW/UNDO_CONFLICTS/batch123", FS.Dir)].

End Samples.

(** ** Summaries of plans and undo runs (src/merge_engine.py) *)

Module summaries.
Import merge_engine.

(** [action_summary[action.type] = action_summary.get(action.type, 0) + 1]
    on a dictionary kept in insertion order. *)
Fixpoint bump (k : string) (d : list (string * Z)) : list (string * Z) :=
  match d with
  | [] => [(k, 0 + 1)]
  | (k', n) :: r => if String.eqb k k' then (k', n + 1) :: r else (k', n) :: bump k r
  end.

(** [dry_run(plan)]: the number of actions of each type, in order of first
    appearance. *)
Definition dry_run (plan : MergePlan.t) : list (string * Z) :=
  fold_left (λ action_summary action, bump (action_type action) action_summary)
    (MergePlan.actions plan) [].

(** [d.get(k, 0)] *)
Fixpoint get0 (d : list (string * Z)) (k : string) : Z :=
  match d with
  | [] => 0
  | (k', n) :: r => if String.eqb k k' then n else get0 r k
  end.

Record undo_counts := mk_counts {
  total : Z; restore : Z; conflict : Z; skipped : Z; already_restored : Z; missing : Z
}.

Definition status_in (status : string) (l : list string) : bool :=
  bool_decide (status ∈ l).

(** The body of the loop of [_undo_counts]. *)
Definition count_status (counts : undo_counts) (status : string) : undo_counts :=
  if status_in status ["restore"; "would_restore"; "restored"] then
    mk_counts (total counts) (restore counts + 1) (conflict counts) (skipped counts)
      (already_restored counts) (missing counts)
  else if status_in status
            ["conflict"; "would_conflict"; "conflict_routed"; "conflict_missing_source"] then
    mk_counts (total counts) (restore counts) (conflict counts + 1) (skipped counts)
      (already_restored counts) (missing counts)
  else if status_in status ["skipped_restored"; "skipped_missing"; "skipped_invalid"] then
    let counts :=
      mk_counts (total counts) (restore counts) (conflict counts) (skipped counts + 1)
        (already_restored counts) (missing counts) in
    let counts :=
      if String.eqb status "skipped_restored" then
        mk_counts (total counts) (restore counts) (conflict counts) (skipped counts)
          (already_restored counts + 1) (missing counts)
      else counts in
    if status_in status ["skipped_missing"; "skipped_invalid"] then
      mk_counts (total counts) (restore counts) (conflict counts) (skipped counts)
        (already_restored counts) (missing counts + 1)
    else counts
  else counts.

(** [_undo_counts(entries)] *)
Definition _undo_counts (entries : list UndoEntry.t) : undo_counts :=
  fold_left (λ counts entry, count_status counts (UndoEntry.status entry)) entries
    (mk_counts (Z.of_nat (length entries)) 0 0 0 0 0).

(** The statuses an entry can have in a plan, a preview or a summary. *)
Definition undo_statuses : list string :=
  ["restore"; "would_restore"; "restored";
   "conflict"; "would_conflict"; "conflict_routed"; "conflict_missing_source";
   "skipped_restored"; "skipped_missing"; "skipped_invalid"].

(** The number of actions of a type and the actions that create a folder,
    for the statements about plans; an entry whose status is one of the
    ten. *)
Definition of_type (t : string) (actions : list MergeAction) : Z :=
  Z.of_nat (length (filter (λ a, action_type a = t) actions)).

Definition creates_folder (action : MergeAction) : bool :=
  match action with CreateFolderAction _ => true | _ => false end.

Definition known (entry : UndoEntry.t) : Prop := UndoEntry.status entry ∈ undo_statuses.

End summaries.

(** ** Notions used by the statements about the code *)

Module Forest.
Import duplicates.

(** [repr parent x r]: following the parent links from [x] ends at the
    root [r]. *)
Inductive repr (parent : gmap string string) : string → string → Prop :=
| repr_root x : parent !! x = Some x → repr parent x x
| repr_step x p r : parent !! x = Some p → p ≠ x → repr parent p r → repr parent x r.

Definition rk (rank : gmap string nat) (x : string) : nat := default 0%nat (rank !! x).

(** The invariant of the structure: parents are elements, ranks grow
    strictly along parent links, every element has a rank. *)
Record wf (uf : UnionFind.t) : Prop := mk_wf {
  wf_closed : ∀ x p, UnionFind.parent uf !! x = Some p → is_Some (UnionFind.parent uf !! p);
  wf_rank : ∀ x p, UnionFind.parent uf !! x = Some p → p ≠ x →
            (rk (UnionFind.rank uf) x < rk (UnionFind.rank uf) p)%nat;
  wf_ranked : ∀ x, is_Some (UnionFind.parent uf !! x) → is_Some (UnionFind.rank uf !! x)
}.

(** Two elements are in the same class. *)
Definition same (uf : UnionFind.t) (x y : string) : Prop :=
  ∃ r, repr (UnionFind.parent uf) x r ∧ repr (UnionFind.parent uf) y r.

(** [uf'] has the elements of [uf] and its classes contain those of [uf]. *)
Definition extends (uf uf' : UnionFind.t) : Prop :=
  (∀ y, is_Some (UnionFind.parent uf' !! y) ↔ is_Some (UnionFind.parent uf !! y))
  ∧ (∀ a b, same uf a b → same uf' a b).

(** The record is an element of the structure. *)
Definition is_key (uf : UnionFind.t) (f : FileInfo.t) : Prop :=
  is_Some (UnionFind.parent uf !! FileInfo.path f).

(** [x] is a root that no other element points to. *)
Definition isolated (uf : UnionFind.t) (x : string) : Prop :=
  UnionFind.parent uf !! x = Some x
  ∧ ∀ y, UnionFind.parent uf !! y = Some x → y = x.

End Forest.

Module Filing.
Import duplicates.

(** [filed d k v]: the dictionary [d] lists [v] under the key [k]. *)
Definition filed {A} (d : list (string * list A)) (k : string) (v : A) : Prop :=
  ∃ vs, (k, vs) ∈ d ∧ v ∈ vs.

(** The body of the loop that builds the groups of equal content hash. *)
Definition exact_step (groups : list (string * list FileInfo.t)) (file : FileInfo.t) :=
  if truthy (FileInfo.sha256 file)
  then setdefault_append (default "" (FileInfo.sha256 file)) file groups
  else groups.

End Filing.

Module Keeping.

(** The operation leaves the digest read at [p] as it is. *)
Definition keeps {A} (p h : string) (m : M A) : Prop :=
  ∀ fs r fs', m fs = (r, fs') → FS.read_digest fs p = Some h → FS.read_digest fs' p = Some h.

(** Nothing is at [q], or a directory is. *)
Definition may_be_directory (fs : FS.t) (q : string) : Prop :=
  fs !! q = None ∨ FS.isdir fs q = true.

End Keeping.

Module Calendar.

Definition digits : list ascii :=
  ["0"; "1"; "2"; "3"; "4"; "5"; "6"; "7"; "8"; "9"]%char.

Definition years : list Z := map Z.of_nat (seq 1900 200).
Definition months : list Z := map Z.of_nat (seq 1 12).

End Calendar.

(** ** More sample data *)

Module Scenes.
Import Samples.

(** A folder where the destination of a move holds other bytes, with the
    hash-suffixed name free and with that name taken as well. *)
Definition crowded : FS.t :=
  list_to_map [("/", FS.Dir); ("/t", FS.Dir); ("/t/source.txt", FS.File "aaa");
               ("/t/destination.txt", FS.File "bbb")].

Definition collided : FS.t :=
  list_to_map [("/", FS.Dir); ("/t", FS.Dir); ("/t/source.txt", FS.File "aaa");
               ("/t/destination.txt", FS.File "bbb");
               ("/t/destination-aaa.txt", FS.File "ccc")].

(** Two copies of one file and a file without any hash. *)
Definition twin_a : FileInfo.t :=
  photo "/in/a.jpg" 10 "jpg" None None None (Some "s1") None.
Definition twin_b : FileInfo.t :=
  photo "/in/b.jpg" 10 "jpg" None None None (Some "s1") None.
Definition loner : FileInfo.t :=
  photo "/in/c.jpg" 10 "jpg" None None None None None.
Definition trio : list FileInfo.t := [twin_a; loner; twin_b].

(** A library where the target of the planned move is taken by other
    bytes. *)
Definition taken : FS.t :=
  list_to_map [("/", FS.Dir); ("/library", FS.Dir); ("/in", FS.Dir);
               ("/in/m.jpg", FS.File "d-new");
               ("/library/2022", FS.Dir); ("/library/2022/2022-01", FS.Dir);
               ("/library/2022/2022-01/m.jpg", FS.File "d-old")].

(** The merged library with the original path of the photo taken again,
    and the plan that routes the photo to the conflict folder. *)
Definition occupied : FS.t :=
  list_to_map [("/", FS.Dir); ("/src", FS.Dir); ("/src/photo.jpg", FS.File "other");
               ("/library", FS.Dir);
               ("/library/2024", FS.Dir); ("/library/2024/2024-01", FS.Dir);
               ("/library/2024/2024-01/photo.jpg", FS.File "h1")].

(** A photo filed under 2023/2023-05 and, below it, under 2024/2024-06. *)
Definition refiled : FileInfo.t :=
  photo "/photos/2023/2023-05/2024/2024-06/pic.jpg" 1 "jpg" None (Some noon) None None None.

Definition conflict_plan : UndoPlan.t :=
  UndoPlan.mk "batch123" "/library" "/library/REVIEW/UNDO_CONFLICTS/batch123"
    [UndoEntry.mk (Some "/src/photo.jpg") (Some "/library/2024/2024-01/photo.jpg")
       (Some "h1") "conflict" "Original path occupied; routed to REVIEW."
       (Some "/library/REVIEW/UNDO_CONFLICTS/batch123/photo.jpg")].

End Scenes.

(* ===================================================================== *)
(** * Part II. Properties                                                 *)
(* ===================================================================== *)

(** ** Paths in normal form *)

Section Paths.
Import os_path NormalPath.

Lemma app_nil_r_str s : s +:+ "" = s.
Proof. induction s as [|a s IH]; [done|]. unfold String.app in *. cbn. by rewrite IH. Qed.

Lemma app_cons_str a s t : String a s +:+ t = String a (s +:+ t).
Proof. done. Qed.

Lemma app_assoc_str s t u : (s +:+ t) +:+ u = s +:+ (t +:+ u).
Proof. induction s as [|a s IH]; [done|]. rewrite !app_cons_str. by rewrite IH. Qed.

Lemma split_nonempty c s : Text.split c s ≠ [].
Proof. destruct s as [|a s]; [done|]. cbn. destruct (Ascii.eqb a c); [done|]. by destruct (Text.split c s). Qed.

Lemma split_sep s : Text.split "/" (String "/" s) = "" :: Text.split "/" s.
Proof. done. Qed.

Lemma split_app_noslash x s :
  has_slash x = false →
  Text.split "/" (x +:+ s)
  = match Text.split "/" s with w :: ws => (x +:+ w) :: ws | [] => [x] end.
Proof.
  induction x as [|a x IH]; intros Hx.
  - change ("" +:+ s) with s. destruct (Text.split "/" s) eqn:E; [|done].
    by apply split_nonempty in E.
  - cbn in Hx. apply orb_false_iff in Hx as [Ha Hx].
    rewrite app_cons_str. cbn [Text.split]. rewrite Ha, (IH Hx).
    by destruct (Text.split "/" s).
Qed.

Lemma split_noslash x : has_slash x = false → Text.split "/" x = [x].
Proof.
  intros Hx. rewrite <- (app_nil_r_str x) at 1. rewrite split_app_noslash by done.
  cbn. by rewrite app_nil_r_str.
Qed.

Lemma join_cons2 sep x y l :
  Text.join sep (x :: y :: l) = x +:+ sep +:+ Text.join sep (y :: l).
Proof. done. Qed.

Lemma split_join cs :
  cs ≠ [] → Forall (λ c, has_slash c = false) cs →
  Text.split "/" (Text.join "/" cs) = cs.
Proof.
  induction cs as [|x cs IH]; [done|]. intros _ Hcs.
  apply Forall_cons in Hcs as [Hx Hcs]. destruct cs as [|y cs].
  - by apply split_noslash.
  - rewrite join_cons2, split_app_noslash by done.
    change ("/" +:+ ?t) with (String "/" t). rewrite split_sep, IH by done.
    by rewrite app_nil_r_str.
Qed.

Lemma split_all_noslash s : Forall (λ c, has_slash c = false) (Text.split "/" s).
Proof.
  induction s as [|a s IH]; [by repeat constructor|]. cbn.
  destruct (Ascii.eqb a "/") eqn:E; [by constructor|].
  destruct (Text.split "/" s) as [|w ws]; [by repeat constructor; cbn; rewrite E|].
  apply Forall_cons in IH as [Hw Hws]. constructor; [|done]. cbn. by rewrite E.
Qed.

Lemma simple_eqb c : simple c →
  String.eqb c "" = false ∧ String.eqb c "." = false ∧ String.eqb c ".." = false.
Proof. intros (_ & ? & ? & ?). by rewrite !String.eqb_neq. Qed.

Lemma norm_comps_simple l : ∀ acc,
  Forall simple l → norm_comps acc l = (rev acc ++ l)%list.
Proof.
  induction l as [|c l IH]; intros acc Hl; cbn.
  - by rewrite app_nil_r.
  - apply Forall_cons in Hl as [Hc Hl]. destruct (simple_eqb c Hc) as (-> & -> & ->).
    cbn. rewrite IH by done. cbn. by rewrite <- app_assoc.
Qed.

Lemma norm_comps_out comps : ∀ acc,
  Forall (λ c, has_slash c = false) comps → Forall simple acc →
  Forall simple (norm_comps acc comps).
Proof.
  induction comps as [|c comps IH]; intros acc Hc Hacc; cbn.
  - by apply Forall_rev.
  - apply Forall_cons in Hc as [Hc Hcs].
    destruct (String.eqb_spec c ""); cbn; [by apply IH|].
    destruct (String.eqb_spec c "."); cbn; [by apply IH|].
    destruct (String.eqb_spec c ".."); cbn.
    + apply IH; [done|]. destruct acc; [done|]. by apply Forall_cons in Hacc as [_ ?].
    + apply IH; [done|]. by constructor.
Qed.

Lemma simple_first c : simple c → ∃ a r, c = String a r ∧ Ascii.eqb a "/" = false.
Proof.
  intros (Hs & Hn & _). destruct c as [|a r]; [done|]. exists a, r. split; [done|].
  cbn in Hs. by apply orb_false_iff in Hs as [? _].
Qed.

Lemma join_first cs :
  Forall simple cs → cs ≠ [] → ∃ a r, Text.join "/" cs = String a r ∧ Ascii.eqb a "/" = false.
Proof.
  intros Hcs Hne. destruct cs as [|c cs]; [done|]. apply Forall_cons in Hcs as [Hc _].
  destruct (simple_first c Hc) as (a & r & -> & Ha).
  destruct cs; [by eauto|]. rewrite join_cons2, app_cons_str. eauto.
Qed.

Lemma prefix_nil s : String.prefix "" s = true.
Proof. by destruct s. Qed.

Lemma prefix_same a s t : String.prefix (String a s) (String a t) = String.prefix s t.
Proof. cbn [String.prefix]. by destruct (ascii_dec a a). Qed.

Lemma prefix_slash_false a r : Ascii.eqb a "/" = false → String.prefix "/" (String a r) = false.
Proof.
  intros Ha. cbn [String.prefix]. destruct (ascii_dec "/" a) as [<-|]; [|done].
  by rewrite Ascii.eqb_refl in Ha.
Qed.


Lemma rooted_starts init cs :
  is_root init → Text.startswith "/" (rooted init cs) = true.
Proof.
  unfold Text.startswith, rooted. intros [-> | ->].
  - change ("/" +:+ ?t) with (String "/" t). by rewrite prefix_same, prefix_nil.
  - change ("//" +:+ ?t) with (String "/" (String "/" t)). by rewrite prefix_same, prefix_nil.
Qed.

Lemma rooted_initial_slashes init cs :
  is_root init → Forall simple cs → initial_slashes (rooted init cs) = init.
Proof.
  intros Hi Hcs. unfold initial_slashes, Text.startswith, rooted.
  destruct cs as [|c cs'] eqn:Ecs.
  - destruct Hi as [-> | ->]; reflexivity.
  - destruct (join_first (c :: cs') Hcs) as (a & r & -> & Ha); [done|].
    destruct Hi as [-> | ->].
    + change ("/" +:+ ?t) with (String "/" t).
      by rewrite prefix_same, prefix_slash_false.
    + change ("//" +:+ ?t) with (String "/" (String "/" t)).
      by rewrite !prefix_same, prefix_nil, prefix_slash_false.
Qed.

Lemma filter_simple cs :
  Forall simple cs → filter (λ x : string, x ≠ "") cs = cs.
Proof.
  induction 1 as [|c cs Hc _ IH]; [done|].
  rewrite filter_cons_True by apply Hc. by rewrite IH.
Qed.

Lemma rooted_split init cs :
  is_root init → Forall simple cs →
  norm_comps [] (Text.split "/" (rooted init cs)) = cs
  ∧ filter (λ x, x ≠ "") (Text.split "/" (rooted init cs)) = cs.
Proof.
  intros Hi Hcs. unfold rooted.
  assert (Text.split "/" (Text.join "/" cs) = if decide (cs = []) then [""] else cs) as Hs.
  { case_decide as E; [by subst|]. apply split_join; [done|].
    eapply Forall_impl; [done|]. by intros c []. }
  assert (norm_comps [] (Text.split "/" (Text.join "/" cs)) = cs
          ∧ filter (λ x, x ≠ "") (Text.split "/" (Text.join "/" cs)) = cs) as [Hn Hf].
  { rewrite Hs. case_decide as E; [by subst|]. split.
    - by rewrite norm_comps_simple.
    - by apply filter_simple. }
  destruct Hi as [-> | ->].
  - change ("/" +:+ ?t) with (String "/" t). rewrite split_sep. split.
    + done.
    + by rewrite filter_cons_False by (by intros ?).
  - change ("//" +:+ ?t) with (String "/" (String "/" t)). rewrite !split_sep. split.
    + done.
    + by rewrite !filter_cons_False by (by intros ?).
Qed.

Lemma abspath_rooted init cs :
  is_root init → Forall simple cs → abspath (rooted init cs) = rooted init cs.
Proof.
  intros Hi Hcs. unfold abspath. rewrite rooted_starts by done.
  rewrite rooted_initial_slashes by done.
  by rewrite (proj1 (rooted_split init cs Hi Hcs)).
Qed.

Lemma parts_rooted init cs :
  is_root init → Forall simple cs → parts (rooted init cs) = cs.
Proof. intros Hi Hcs. unfold parts. by apply rooted_split. Qed.

Lemma initial_slashes_root q : is_root (initial_slashes q).
Proof. unfold initial_slashes, is_root. destruct (_ && _); auto. Qed.

(** Every absolute path produced by [abspath] is normalised. *)
Lemma abspath_is_rooted p :
  ∃ init cs, is_root init ∧ Forall simple cs ∧ abspath p = rooted init cs.
Proof.
  unfold abspath. set (q := if Text.startswith "/" p then p else "/" +:+ p).
  exists (initial_slashes q), (norm_comps [] (Text.split "/" q)).
  split; [apply initial_slashes_root|]. split; [|done].
  apply norm_comps_out; [apply split_all_noslash|done].
Qed.

Lemma abspath_idempotent p : abspath (abspath p) = abspath p.
Proof.
  destruct (abspath_is_rooted p) as (init & cs & Hi & Hcs & ->).
  by apply abspath_rooted.
Qed.

Lemma rsplit_noslash b : has_slash b = false → rsplit "/" b = None.
Proof.
  induction b as [|a b IH]; [done|]. cbn. intros [Ha Hb]%orb_false_iff.
  by rewrite (IH Hb), Ha.
Qed.

Lemma rsplit_app s b :
  has_slash b = false → rsplit "/" (s +:+ String "/" b) = Some (s, b).
Proof.
  intros Hb. induction s as [|a s IH].
  - change ("" +:+ ?t) with t. cbn. by rewrite rsplit_noslash.
  - rewrite app_cons_str. cbn [rsplit]. by rewrite IH.
Qed.

Lemma rsplit_tail_noslash s h t : rsplit "/" s = Some (h, t) → has_slash t = false.
Proof.
  revert h t. induction s as [|a s IH]; [done|]. intros h t. cbn.
  destruct (rsplit "/" s) as [[h' t']|] eqn:E.
  - intros [= <- <-]. by eapply IH.
  - destruct (Ascii.eqb a "/"); [|done]. intros [= <- <-]. clear IH.
    induction s as [|b s IH]; [done|]. cbn in *.
    destruct (rsplit "/" s) as [[]|]; [done|].
    destruct (Ascii.eqb b "/"); [done|]. by rewrite IH.
Qed.

Lemma rsplit_none_noslash s : rsplit "/" s = None → has_slash s = false.
Proof.
  induction s as [|a s IH]; [done|]. cbn.
  destruct (rsplit "/" s) as [[]|]; [done|].
  destruct (Ascii.eqb a "/"); [done|]. intros _. by rewrite IH.
Qed.

Lemma basename_noslash p : has_slash (basename p) = false.
Proof.
  unfold basename. destruct (rsplit "/" p) as [[h t]|] eqn:E.
  - by eapply rsplit_tail_noslash.
  - by apply rsplit_none_noslash.
Qed.

Lemma join_snoc cs b :
  cs ≠ [] → Text.join "/" (cs ++ [b]) = Text.join "/" cs +:+ String "/" b.
Proof.
  induction cs as [|c cs IH]; [done|]. intros _. destruct cs as [|c' cs].
  - done.
  - change ((c :: c' :: cs) ++ [b])%list with (c :: (c' :: cs) ++ [b])%list.
    change ((c' :: cs) ++ [b])%list with (c' :: (cs ++ [b]))%list at 1.
    rewrite join_cons2.
    change (c' :: (cs ++ [b]))%list with ((c' :: cs) ++ [b])%list.
    rewrite IH by done. rewrite join_cons2. by rewrite !app_assoc_str.
Qed.

Lemma rooted_snoc init cs b :
  is_root init → rooted init (cs ++ [b]) = stem init cs +:+ String "/" b.
Proof.
  intros Hi. unfold stem. destruct cs as [|c cs].
  - destruct Hi as [-> | ->]; reflexivity.
  - unfold rooted. rewrite join_snoc by done. by rewrite app_assoc_str.
Qed.

Lemma all_slashes_app x b :
  b ≠ "" → has_slash b = false → all_slashes (x +:+ b) = false.
Proof.
  intros Hb Hs. induction x as [|a x IH].
  - change ("" +:+ b) with b. destruct b as [|c b]; [done|]. cbn in *.
    apply orb_false_iff in Hs as [-> _]. done.
  - rewrite app_cons_str. cbn. rewrite IH. apply andb_false_r.
Qed.

Lemma rstrip_slashes_app x b :
  b ≠ "" → has_slash b = false → rstrip_slashes (x +:+ b) = x +:+ b.
Proof.
  intros Hb Hs.
  assert (rstrip_slashes b = b) as Hbb.
  { clear Hb. induction b as [|c b IH]; [done|]. cbn in *.
    apply orb_false_iff in Hs as [Hc Hs]. rewrite (IH Hs), Hc. by destruct b. }
  induction x as [|a x IH].
  - done.
  - rewrite app_cons_str. cbn. rewrite IH.
    destruct (x +:+ b) eqn:E; [|done].
    destruct x; [|done]. by change ("" +:+ b) with b in E.
Qed.

Lemma stem_snoc init cs c : stem init (cs ++ [c]) = rooted init (cs ++ [c]).
Proof. unfold stem. by destruct cs. Qed.

Lemma basename_rooted init cs b :
  is_root init → has_slash b = false → basename (rooted init (cs ++ [b])) = b.
Proof. intros Hi Hb. unfold basename. by rewrite rooted_snoc, rsplit_app. Qed.

Lemma dirname_rooted init cs b :
  is_root init → Forall simple cs → has_slash b = false →
  dirname (rooted init (cs ++ [b])) = rooted init cs.
Proof.
  intros Hi Hcs Hb. unfold dirname. rewrite rooted_snoc, rsplit_app by done.
  destruct cs as [|c cs _] using rev_ind.
  - destruct Hi as [-> | ->]; reflexivity.
  - apply Forall_app in Hcs as [_ [Hc _]%Forall_cons].
    rewrite stem_snoc, rooted_snoc by done.
    rewrite <- (app_assoc_str _ "/" c) at 1 2.
    change (String "/" c) with ("/" +:+ c).
    rewrite <- !app_assoc_str.
    rewrite all_slashes_app, rstrip_slashes_app by apply Hc. done.
Qed.

Lemma simple_not_absolute e : simple e → Text.startswith "/" e = false.
Proof.
  intros He. destruct (simple_first e He) as (a & r & -> & Ha).
  by apply prefix_slash_false.
Qed.

Lemma rooted_nonempty init cs : is_root init → String.eqb (rooted init cs) "" = false.
Proof. unfold rooted. by intros [-> | ->]. Qed.

Lemma join_rooted init cs e :
  is_root init → Forall simple cs → simple e →
  join (rooted init cs) e = rooted init (cs ++ [e]).
Proof.
  intros Hi Hcs He. unfold join.
  rewrite simple_not_absolute, rooted_nonempty by done. cbn [orb].
  destruct cs as [|c cs _] using rev_ind.
  - unfold rooted. cbn [app Text.join]. rewrite app_nil_r_str.
    destruct Hi as [-> | ->]; reflexivity.
  - apply Forall_app in Hcs as [_ [Hc _]%Forall_cons].
    unfold endswith_slash. rewrite (rooted_snoc init cs c), rsplit_app by apply Hi || apply Hc.
    destruct (simple_first c Hc) as (a & r & -> & _).
    rewrite <- rooted_snoc by done.
    unfold rooted. rewrite (join_snoc (cs ++ [String a r]) e) by (destruct cs; discriminate). by rewrite !app_assoc_str.
Qed.

(** A normalised path is the join of its directory and its base name. *)
Lemma join_dirname_basename p :
  join (dirname (abspath p)) (basename (abspath p)) = abspath p.
Proof.
  destruct (abspath_is_rooted p) as (init & cs & Hi & Hcs & ->).
  destruct cs as [|c cs _] using rev_ind.
  - destruct Hi as [-> | ->]; reflexivity.
  - apply Forall_app in Hcs as [Hcs [Hc _]%Forall_cons].
    rewrite basename_rooted, dirname_rooted by apply Hi || apply Hc || done.
    by apply join_rooted.
Qed.

Lemma common_prefix_app l r : common_prefix l (l ++ r) = l.
Proof. induction l as [|x l IH]; [done|]. cbn. by rewrite String.eqb_refl, IH. Qed.

Lemma relpath_rooted init cs es :
  is_root init → Forall simple cs → Forall simple es → es ≠ [] →
  relpath (rooted init (cs ++ es)) (rooted init cs) = Text.join "/" es.
Proof.
  intros Hi Hcs Hes Hne. unfold relpath.
  rewrite !abspath_rooted, !parts_rooted by (done || by apply Forall_app).
  rewrite common_prefix_app, Nat.sub_diag, drop_app_length. cbn [repeat app].
  by destruct es.
Qed.
End Paths.

Example phash_distance_ffff_fff0 : hashing.phash_distance "ffff" "fff0" = 4.
Proof. reflexivity. Qed.

(** ** Near-duplicate predicate *)

Section NearDuplicates.

Import duplicates.


Lemma normalize_conservative : _normalize_sensitivity (Some "conservative") = "conservative".
Proof. reflexivity. Qed.




Lemma normalize_unknown (s : option string) :
  (∀ v, s = Some v → Text.lower (Text.strip v) ∉ Spec.known_tiers) →
  _normalize_sensitivity s = "conservative".
Proof.
  intros H. unfold _normalize_sensitivity. destruct s as [v|]; [|done].
  destruct (String.eqb v ""); [done|].
  rewrite bool_decide_eq_false_2; [done|]. by apply H.
Qed.

(** C10. A sensitivity that is [None], empty, or not one of the three tiers
    once trimmed and lower-cased raises nothing: it is normalised to
    "conservative", and both the near-duplicate predicate and the
    clustering behave exactly as with sensitivity "conservative". *)
Theorem unknown_sensitivity_is_conservative (s : option string) :
  (∀ v, s = Some v → Text.lower (Text.strip v) ∉ Spec.known_tiers) →
  _normalize_sensitivity s = "conservative"
  ∧ (∀ a b, near_duplicate_diagnostics a b s
            = near_duplicate_diagnostics a b (Some "conservative"))
  ∧ (∀ a b, are_near_duplicates a b s = are_near_duplicates a b (Some "conservative"))
  ∧ (∀ files, group_duplicates files s = group_duplicates files (Some "conservative")).
Proof.
  intros H. apply normalize_unknown in H.
  repeat split.
  - exact H.
  - intros a b. unfold near_duplicate_diagnostics.
    by rewrite H, normalize_conservative.
  - intros a b. unfold are_near_duplicates, near_duplicate_diagnostics.
    by rewrite H, normalize_conservative.
  - intros files. unfold group_duplicates.
    by rewrite H, normalize_conservative.
Qed.

Lemma unknown_sensitivity_is_conservative_witness :
  _normalize_sensitivity (Some "  Extreme ") = "conservative"
  ∧ _normalize_sensitivity None = "conservative"
  ∧ _normalize_sensitivity (Some "") = "conservative".
Proof.
  split; [|split].
  - apply (unknown_sensitivity_is_conservative (Some "  Extreme ")).
    intros v [= <-] H. apply list_elem_of_In in H. vm_compute in H. intuition discriminate.
  - apply (unknown_sensitivity_is_conservative None). intros v [=].
  - apply (unknown_sensitivity_is_conservative (Some "")).
    intros v [= <-] H. apply list_elem_of_In in H. vm_compute in H. intuition discriminate.
Defined.

End NearDuplicates.

(** ** Master selection *)

Section MasterSelection.

Import duplicates.

Lemma lex_compare_eq a b : datetime.lex_compare a b = Eq → a = b.
Proof.
  revert b. induction a as [|x a IH]; intros [|y b]; cbn; try done.
  destruct (Z.compare_spec x y) as [E|E|E]; try done. intros H. subst. f_equal. by apply IH.
Qed.

Lemma lex_compare_antisym a b :
  datetime.lex_compare b a = CompOpp (datetime.lex_compare a b).
Proof.
  revert b. induction a as [|x a IH]; intros [|y b]; cbn; try done.
  rewrite (Z.compare_antisym x y).
  destruct (x ?= y); cbn; try done; apply IH.
Qed.

Lemma lex_compare_gt_trans a b c :
  datetime.lex_compare a b = Gt → datetime.lex_compare b c = Gt →
  datetime.lex_compare a c = Gt.
Proof.
  revert b c. induction a as [|x a IH]; intros [|y b] [|z c]; cbn; try done.
  destruct (Z.compare_spec x y), (Z.compare_spec y z), (Z.compare_spec x z);
    try done; try lia; subst; eauto.
Qed.

Lemma lex_compare_opp a b :
  length a = length b →
  datetime.lex_compare (map Z.opp a) (map Z.opp b) = datetime.lex_compare b a.
Proof.
  revert b. induction a as [|x a IH]; intros [|y b]; cbn; try done.
  intros [= Hl]. rewrite <- (IH b Hl).
  destruct (Z.compare_spec (- x) (- y)), (Z.compare_spec y x); try done; lia.
Qed.

Ltac zcmp x y :=
  let E := fresh "E" in
  destruct (Z.compare_spec x y) as [E|E|E];
  [ try rewrite E in *; try rewrite !Z.eqb_refl; try rewrite !Z.ltb_irrefl;
    try rewrite !Z.compare_refl
  | try rewrite (proj2 (Z.eqb_neq x y)) by lia;
    try rewrite (proj2 (Z.eqb_neq y x)) by lia;
    try rewrite (proj2 (Z.ltb_lt x y)) by lia;
    try rewrite (proj2 (Z.ltb_ge y x)) by lia;
    try rewrite (proj2 (Z.compare_gt_iff y x)) by lia
  | try rewrite (proj2 (Z.eqb_neq x y)) by lia;
    try rewrite (proj2 (Z.eqb_neq y x)) by lia;
    try rewrite (proj2 (Z.ltb_lt y x)) by lia;
    try rewrite (proj2 (Z.ltb_ge x y)) by lia;
    try rewrite (proj2 (Z.compare_lt_iff y x)) by lia ].

Lemma fields_length t : length (datetime.fields t) = 7%nat.
Proof. done. Qed.


Lemma ts_tail (tc tcur : datetime.t) :
  (if negb (datetime.eqb tc tcur)
   then (datetime.ltb tc tcur, Some "OLDEST_CAPTURE_WINS")
   else (false, None)).1
  = match datetime.lex_compare (1 :: map Z.opp (datetime.fields tc))
            (1 :: map Z.opp (datetime.fields tcur)) with
    | Gt => true
    | _ => false
    end.
Proof.
  cbn [datetime.lex_compare]. rewrite Z.compare_refl.
  rewrite lex_compare_opp by done.
  rewrite (lex_compare_antisym (datetime.fields tc)).
  unfold datetime.eqb, datetime.ltb, datetime.compare.
  by destruct (datetime.lex_compare _ _).
Qed.

Lemma is_better_chain (c cur : FileInfo.t) :
  Spec.heic_overrides c cur = false →
  Spec.heic_overrides cur c = false →
  (is_better c cur).1 = Spec.chain_better c cur.
Proof.
  unfold Spec.heic_overrides, is_better, Spec.chain_better, Spec.rank_key.
  cbn [app datetime.lex_compare].
  destruct (FileInfo.is_raw c), (FileInfo.is_raw cur); cbn; try done.
  all: set (pc := (res_or_zero c).1 * (res_or_zero c).2).
  all: set (pcur := (res_or_zero cur).1 * (res_or_zero cur).2).
  all: assert (res_or_zero c = res_or_zero cur → pc = pcur) as Hres
         by (unfold pc, pcur; by intros ->).
  all: rewrite (bool_decide_ext (res_or_zero cur = res_or_zero c)
                  (res_or_zero c = res_or_zero cur)) by (split; congruence).
  all: destruct (bool_decide (res_or_zero c = res_or_zero cur)) eqn:Re;
         [apply bool_decide_eq_true in Re; specialize (Hres Re)|clear Hres].
  all: zcmp pc pcur; cbn; try done; try lia.
  all: unfold metadata_advantage.
  all: zcmp (FileInfo.size c) (FileInfo.size cur);
       zcmp (exif_count c) (exif_count cur);
       destruct (has_gps c), (has_gps cur);
       destruct (fmt_lower c =? "heic")%string, (is_jpeg (fmt_lower cur)),
                (fmt_lower cur =? "heic")%string, (is_jpeg (fmt_lower c));
       cbn; try done.
  all: destruct (FileInfo.exif_datetime c) as [tc|], (FileInfo.exif_datetime cur) as [tcur|];
       try done.
  all: intros _ _; apply ts_tail.
Qed.

Lemma lex_compare_refl a : datetime.lex_compare a a = Eq.
Proof. induction a as [|x a IH]; cbn; [done|]. by rewrite Z.compare_refl. Qed.

Lemma lex_compare_gt_ge_trans a b c :
  datetime.lex_compare a b = Gt → datetime.lex_compare c b ≠ Gt →
  datetime.lex_compare a c = Gt.
Proof.
  intros Hab Hcb. rewrite (lex_compare_antisym b c) in Hcb.
  destruct (datetime.lex_compare b c) eqn:Hbc; cbn in Hcb; try done.
  - apply lex_compare_eq in Hbc. by subst.
  - by apply (lex_compare_gt_trans a b c).
Qed.

Lemma chain_better_irrefl a : Spec.chain_better a a = false.
Proof. unfold Spec.chain_better. by rewrite lex_compare_refl. Qed.

Lemma chain_better_trans a b c :
  Spec.chain_better a b = true → Spec.chain_better b c = true →
  Spec.chain_better a c = true.
Proof.
  unfold Spec.chain_better. intros H1 H2.
  destruct (datetime.lex_compare (Spec.rank_key a) (Spec.rank_key b)) eqn:E1; try done.
  destruct (datetime.lex_compare (Spec.rank_key b) (Spec.rank_key c)) eqn:E2; try done.
  by rewrite (lex_compare_gt_trans _ _ _ E1 E2).
Qed.

Lemma chain_better_ge_trans a b c :
  Spec.chain_better a b = true → Spec.chain_better c b = false →
  Spec.chain_better a c = true.
Proof.
  unfold Spec.chain_better. intros H1 H2.
  destruct (datetime.lex_compare (Spec.rank_key a) (Spec.rank_key b)) eqn:E1; try done.
  rewrite (lex_compare_gt_ge_trans _ _ _ E1); [done|].
  by destruct (datetime.lex_compare (Spec.rank_key c) (Spec.rank_key b)).
Qed.

Lemma chain_better_total a b :
  Spec.chain_better a b = false → Spec.chain_better b a = false →
  Spec.rank_key a = Spec.rank_key b.
Proof.
  unfold Spec.chain_better. rewrite (lex_compare_antisym (Spec.rank_key a)).
  destruct (datetime.lex_compare (Spec.rank_key a) (Spec.rank_key b)) eqn:E; try done.
  intros _ _. by apply lex_compare_eq.
Qed.

Lemma select_loop_max (l : list FileInfo.t) : ∀ m r,
  (∀ a b, a ∈ m :: l → b ∈ m :: l → Spec.heic_overrides a b = false) →
  (select_loop m r l).1 ∈ m :: l
  ∧ ∀ x, x ∈ m :: l → Spec.chain_better x (select_loop m r l).1 = false.
Proof.
  induction l as [|f l IH]; intros m r Hov.
  - cbn. split; [set_solver|]. intros x Hx. apply list_elem_of_singleton in Hx as ->.
    apply chain_better_irrefl.
  - cbn [select_loop].
    pose proof (is_better_chain f m) as Hb.
    destruct (is_better f m) as [better reason]. cbn in Hb.
    rewrite Hov in Hb by set_solver. rewrite Hov in Hb by set_solver.
    specialize (Hb eq_refl eq_refl).
    destruct better.
    + destruct (IH f (match reason with Some _ => reason | None => r end)) as [Hin Hmax].
      { intros a b Ha Hb'. apply Hov; set_solver. }
      split; [set_solver|].
      intros x Hx. apply elem_of_cons in Hx as [->|Hx]; [|by apply Hmax].
      set (m' := (select_loop f _ l).1) in *.
      destruct (Spec.chain_better m m') eqn:E; [|done].
      rewrite <- (Hmax f) by set_solver. symmetry.
      by apply (chain_better_trans f m).
    + destruct (IH m (match reason with Some _ => reason | None => r end)) as [Hin Hmax].
      { intros a b Ha Hb'. apply Hov; set_solver. }
      split; [set_solver|].
      intros x Hx. apply elem_of_cons in Hx as [->|Hx]; [apply Hmax; set_solver|].
      apply elem_of_cons in Hx as [->|Hx]; [|apply Hmax; set_solver].
      set (m' := (select_loop m _ l).1) in *.
      destruct (Spec.chain_better f m') eqn:E; [|done].
      rewrite Hb. symmetry. apply (chain_better_ge_trans f _ m E).
      apply Hmax. set_solver.
Qed.

Lemma rank_key_inj_in (l : list FileInfo.t) a b :
  NoDup (map Spec.rank_key l) → a ∈ l → b ∈ l →
  Spec.rank_key a = Spec.rank_key b → a = b.
Proof.
  induction l as [|x l IH]; intros Hnd Ha Hb Hk; [by apply elem_of_nil in Ha|].
  cbn in Hnd. apply NoDup_cons in Hnd as [Hx Hnd].
  apply elem_of_cons in Ha as [->|Ha]; apply elem_of_cons in Hb as [->|Hb]; try done.
  - exfalso. apply Hx. apply list_elem_of_fmap. eauto.
  - exfalso. apply Hx. apply list_elem_of_fmap. eauto.
  - by apply IH.
Qed.

(** C8 (amended). Within a cluster whose members have pairwise distinct
    ranking keys and in which the HEIC-versus-JPEG rule never decides
    against the rule chain, folding the comparator over any permutation of
    the members selects the same master: the one member that outranks every
    other under RAW > higher resolution > larger size > more EXIF fields >
    GPS present > oldest capture. *)
Theorem master_selection_order_independent (l1 l2 : list FileInfo.t) :
  Permutation l1 l2 →
  NoDup (map Spec.rank_key l1) →
  (∀ a b, a ∈ l1 → b ∈ l1 → Spec.heic_overrides a b = false) →
  fst <$> chosen_master l1 = fst <$> chosen_master l2
  ∧ (l1 ≠ [] → ∃ m, fst <$> chosen_master l1 = Some m ∧ m ∈ l1
       ∧ ∀ x, x ∈ l1 → x ≠ m → Spec.chain_better m x = true).
Proof.
  intros Hp Hnd Hov.
  assert (∀ l, l ≡ₚ l1 → l ≠ [] →
     ∃ m, fst <$> chosen_master l = Some m ∧ m ∈ l1
       ∧ ∀ x, x ∈ l1 → Spec.chain_better x m = false) as Hmax.
  { intros [|f l] Hl Hne; [done|]. cbn.
    destruct (select_loop_max l f None) as [Hin Hm].
    { intros a b Ha Hb. apply Hov; by rewrite <- Hl. }
    eexists; split; [done|]. split; [by rewrite <- Hl|].
    intros x Hx. apply Hm. by rewrite Hl. }
  assert (∀ m m', m ∈ l1 → m' ∈ l1 →
     (∀ x, x ∈ l1 → Spec.chain_better x m = false) →
     (∀ x, x ∈ l1 → Spec.chain_better x m' = false) → m = m') as Huniq.
  { intros m m' Hm Hm' H1 H2. apply (rank_key_inj_in l1); try done.
    apply chain_better_total; auto. }
  destruct l1 as [|f1 l1'].
  { apply Permutation_nil in Hp. subst. split; [done|]. by intros []. }
  assert (l2 ≠ []) as Hne2.
  { intros ->. by apply Permutation_nil_r in Hp. }
  destruct (Hmax (f1 :: l1')) as (m1 & E1 & Hin1 & Hm1); [done|done|].
  destruct (Hmax l2) as (m2 & E2 & Hin2 & Hm2); [done|done|].
  rewrite E1, E2. split.
  - f_equal. by apply Huniq.
  - intros _. exists m1. split; [done|]. split; [done|].
    intros x Hx Hxm. destruct (Spec.chain_better m1 x) eqn:E; [done|].
    exfalso. apply Hxm. apply (rank_key_inj_in (f1 :: l1')); try done.
    apply chain_better_total; auto.
Qed.

Lemma master_selection_order_independent_witness :
  fst <$> chosen_master [Samples.jpeg; Samples.png]
  = fst <$> chosen_master [Samples.png; Samples.jpeg].
Proof.
  apply (master_selection_order_independent [Samples.jpeg; Samples.png]
           [Samples.png; Samples.jpeg]).
  - apply perm_swap.
  - vm_compute. repeat constructor; rewrite ?elem_of_cons, ?elem_of_nil; intuition discriminate.
  - intros a b Ha Hb.
    repeat (apply elem_of_cons in Ha as [->|Ha]); [| |by apply elem_of_nil in Ha];
    repeat (apply elem_of_cons in Hb as [->|Hb]); try (by apply elem_of_nil in Hb);
    reflexivity.
Defined.

(** C8 as stated fails: a small HEIC with the metadata advantage beats a
    larger JPEG, the JPEG beats a PNG by size, and the PNG beats the HEIC by
    size, so the selected master depends on the order of the members. *)
Lemma master_selection_heic_cycle :
  ¬ (∀ l1 l2 : list FileInfo.t,
       Permutation l1 l2 → NoDup (map Spec.rank_key l1) →
       fst <$> chosen_master l1 = fst <$> chosen_master l2).
Proof.
  intros H.
  specialize (H [Samples.heic; Samples.jpeg; Samples.png]
                [Samples.jpeg; Samples.png; Samples.heic]).
  assert (fst <$> chosen_master [Samples.heic; Samples.jpeg; Samples.png] = Some Samples.png)
    as E1 by reflexivity.
  assert (fst <$> chosen_master [Samples.jpeg; Samples.png; Samples.heic] = Some Samples.heic)
    as E2 by reflexivity.
  rewrite E1, E2 in H.
  enough (Some Samples.png = Some Samples.heic) by discriminate.
  apply H.
  - apply Permutation_cons_append.
  - vm_compute. repeat constructor; rewrite ?elem_of_cons, ?elem_of_nil; intuition discriminate.
Qed.

End MasterSelection.

(** ** Storage accounting *)

Section Storage.

Import merge_engine.

Lemma fold_left_add_shift (l : list Z) (acc : Z) :
  fold_left Z.add l acc = acc + fold_left Z.add l 0.
Proof.
  revert acc. induction l as [|x l IH]; intros acc; cbn; [lia|].
  rewrite (IH (acc + x)), (IH (0 + x)). lia.
Qed.

Lemma required_space_moved_bytes fs disk_free actions destination :
  (_calculate_storage fs disk_free actions destination).1 = Spec.moved_bytes actions.
Proof.
  unfold _calculate_storage. cbn [fst].
  induction actions as [|a actions IH]; [done|].
  destruct a; cbn [Spec.moved_bytes]; rewrite <- IH.
  - by rewrite filter_cons_False.
  - rewrite filter_cons_True by done. cbn. by rewrite fold_left_add_shift.
  - rewrite filter_cons_True by done. cbn. by rewrite fold_left_add_shift.
  - by rewrite filter_cons_False.
Qed.

(** C4. The required space of a merge plan is the sum of the sizes of its
    MoveMaster and MoveToQuarantineExact actions; MarkNearDuplicate and
    CreateFolder actions contribute nothing. One 10-byte master, one 5-byte
    quarantined duplicate and one 3-byte near-duplicate mark need 15
    bytes. *)
Theorem required_space_counts_moves :
  (∀ fs disk_free actions destination,
     (_calculate_storage fs disk_free actions destination).1 = Spec.moved_bytes actions)
  ∧ (∀ fs disk_free files clusters out_path skipped plan,
       build_merge_plan fs disk_free files clusters out_path skipped = Ok plan →
       MergePlan.required_space plan = Spec.moved_bytes (MergePlan.actions plan))
  ∧ (∀ fs disk_free destination,
       (_calculate_storage fs disk_free Samples.three_actions destination).1 = 15).
Proof.
  split; [|split].
  - apply required_space_moved_bytes.
  - intros fs disk_free files clusters out_path skipped plan.
    unfold build_merge_plan.
    destruct (_validate_destination _ _); [|done]. cbn.
    destruct (_create_file_actions _ _ _ _ _) as [[file_actions folders]|]; [|done]. cbn.
    case_match; [done|]. intros [= <-].
    exact (required_space_moved_bytes fs disk_free _ (os_path.abspath out_path)).
  - intros. by rewrite required_space_moved_bytes.
Qed.

Lemma required_space_counts_moves_witness :
  ∃ plan, build_merge_plan Samples.empty_library (λ _, Some 1000)
            [Samples.heic; Samples.png] [] "/library" 0 = Ok plan
          ∧ MergePlan.required_space plan = Spec.moved_bytes (MergePlan.actions plan)
          ∧ MergePlan.required_space plan = 3.
Proof.
  destruct (build_merge_plan Samples.empty_library (λ _, Some 1000)
              [Samples.heic; Samples.png] [] "/library" 0) as [plan|] eqn:E;
    [|by vm_compute in E].
  exists plan. split; [done|]. split.
  - by apply (proj1 (proj2 required_space_counts_moves) _ _ _ _ _ _ _ E).
  - vm_compute in E. by injection E as <-.
Defined.

End Storage.


(** ** Merge execution *)

Section Execution.
Import merge_engine.

Lemma no_mismatch_bind {A B} (m : M A) (f : A → M B) :
  Spec.no_mismatch m → (∀ a, Spec.no_mismatch (f a)) → Spec.no_mismatch (m ≫= f).
Proof.
  intros Hm Hf fs p. unfold mbind, M_bind.
  specialize (Hm fs p). destruct (m fs) as [[a|e] fs1]; cbn in *.
  - apply Hf.
  - intros [= ->]. by apply Hm.
Qed.

Lemma no_mismatch_pure {A} (a : A) : Spec.no_mismatch (pure a).
Proof. by intros fs p. Qed.

Lemma no_mismatch_get : Spec.no_mismatch get_fs.
Proof. by intros fs p. Qed.

Lemma no_mismatch_ensure_directory path : Spec.no_mismatch (utils.ensure_directory path).
Proof. intros fs p. unfold utils.ensure_directory. by destruct (FS.makedirs _ _) as [[] ?]. Qed.

Lemma no_mismatch_compute_sha256 path : Spec.no_mismatch (utils.compute_sha256 path).
Proof. intros fs p. unfold utils.compute_sha256. by destruct (FS.read_digest _ _). Qed.

Lemma no_mismatch_ensure_safe root target : Spec.no_mismatch (utils._ensure_safe root target).
Proof. intros fs p. unfold utils._ensure_safe. by destruct (utils.path_violation_message _ _ _). Qed.

Lemma no_mismatch_move_and_verify src dst : Spec.no_mismatch (utils.move_and_verify src dst).
Proof.
  intros fs p. unfold utils.move_and_verify.
  destruct (FS.move _ _ _); [|done]. by destruct (FS.exists_ _ _).
Qed.

Ltac no_mismatch_step :=
  first
    [ apply no_mismatch_pure
    | apply no_mismatch_get
    | apply no_mismatch_ensure_directory
    | apply no_mismatch_compute_sha256
    | apply no_mismatch_ensure_safe
    | apply no_mismatch_move_and_verify
    | (apply no_mismatch_bind; [|intros ?])
    | (intros ? ?; done) ].

Lemma no_mismatch_safe_move src dst allowed_root :
  Spec.no_mismatch (utils.safe_move src dst allowed_root).
Proof.
  unfold utils.safe_move. destruct (String.eqb allowed_root ""); [by intros ??|].
  repeat no_mismatch_step.
  destruct (FS.exists_ _ _); repeat no_mismatch_step.
  destruct (negb _); repeat no_mismatch_step.
  destruct (os_path.splitext _) as [base ext].
  destruct (FS.exists_ _ _); repeat no_mismatch_step.
Qed.

Lemma no_mismatch_for_each {A} (f : A → M unit) (l : list A) :
  (∀ x, Spec.no_mismatch (f x)) → Spec.no_mismatch (organizer.for_each f l).
Proof.
  intros Hf. induction l as [|x l IH]; cbn; [apply no_mismatch_pure|].
  apply no_mismatch_bind; [apply Hf|by intros _].
Qed.

Lemma no_mismatch_ensure_structure base_out merge_mode folders :
  Spec.no_mismatch (organizer.ensure_structure base_out merge_mode folders).
Proof.
  unfold organizer.ensure_structure.
  apply no_mismatch_bind; [apply no_mismatch_get|]. intros fs.
  destruct (FS.islink _ _); [by intros ??|].
  apply no_mismatch_bind; [apply no_mismatch_ensure_directory|]. intros _.
  destruct (negb _); apply no_mismatch_for_each; intros folder;
    [apply no_mismatch_ensure_directory|].
  apply no_mismatch_bind; [apply no_mismatch_get|]. intros fs1.
  destruct (utils.path_violation_message _ _ _); [by intros ??|].
  destruct (negb _); [by intros ??|].
  destruct (filter _ _) as [|year_segment more]; [apply no_mismatch_pure|].
  destruct (_ || _); [repeat no_mismatch_step|].
  destruct (negb _); [by intros ??|].
  repeat no_mismatch_step.
  destruct more as [|month_segment more]; [apply no_mismatch_pure|].
  destruct (negb _); [by intros ??|]. apply no_mismatch_ensure_directory.
Qed.

Lemma apply_actions_mismatch destination_root todo : ∀ applied renamed fs p fs',
  apply_actions destination_root applied todo renamed fs = (Err (HashMismatchAfterMove p), fs') →
  ∃ action, action ∈ todo ∧ moves_file action = true
    ∧ truthy (action_sha256 action) = true.
Proof.
  induction todo as [|action rest IH]; intros applied renamed fs p fs'; [done|].
  assert (∀ src dst sha,
    action_dst action = Some dst → action_sha256 action = sha → moves_file action = true →
    (new_dst ← _execute_move src dst
                 (first_truthy destination_root
                    (_infer_destination_root (applied ++ action :: rest)%list)
                    (os_path.abspath (os_path.dirname dst)));
     _ ← (if truthy sha then
            new_hash ← utils.compute_sha256 new_dst;
            if negb (String.eqb new_hash (default "" sha))
            then raise (HashMismatchAfterMove new_dst) else pure tt
          else pure tt);
     apply_actions destination_root (applied ++ [set_dst new_dst action])%list rest
       (if negb (String.eqb (os_path.abspath new_dst) (os_path.abspath dst))
        then (renamed ++ [(dst, new_dst)])%list else renamed)) fs
    = (Err (HashMismatchAfterMove p), fs') →
    ∃ a, a ∈ action :: rest ∧ moves_file a = true ∧ truthy (action_sha256 a) = true)
    as Hmove.
  { intros src dst sha Hdst Hsha Hmv. unfold mbind at 1, M_bind at 1.
    pose proof (no_mismatch_safe_move src dst
      (first_truthy destination_root
         (_infer_destination_root (applied ++ action :: rest)%list)
         (os_path.abspath (os_path.dirname dst))) fs p) as Hsafe.
    unfold _execute_move.
    destruct (utils.safe_move _ _ _ fs) as [[new_dst|e] fs1]; cbn in Hsafe;
      [|intros [= -> _]; done].
    destruct (truthy sha) eqn:Et.
    - intros _. exists action. rewrite Hsha. split; [set_solver|done].
    - unfold mbind, M_bind, pure. intros H. apply IH in H as (a & ? & ?).
      exists a. split; [set_solver|done]. }
  destruct action as [path|src dst sha size reason|src dst sha size|src master sha size];
    cbn [apply_actions].
  - unfold mbind, M_bind.
    pose proof (no_mismatch_ensure_directory path fs p) as Hd.
    destruct (utils.ensure_directory path fs) as [[[]|e] fs1]; cbn in Hd.
    + intros H. apply IH in H as (a & ? & ?). exists a. split; [set_solver|done].
    + intros [= -> _]. done.
  - apply (Hmove src dst sha); done.
  - apply (Hmove src dst sha); done.
  - intros H. apply IH in H as (a & ? & ?). exists a. split; [set_solver|done].
Qed.
Lemma execute_merge_mismatch plan fs p fs' :
  execute_merge plan fs = (Err (HashMismatchAfterMove p), fs') →
  ∃ action, action ∈ MergePlan.actions plan ∧ moves_file action = true
    ∧ truthy (action_sha256 action) = true.
Proof.
  unfold execute_merge. unfold mbind at 1, M_bind at 1.
  set (structure := if truthy _ then _ else _).
  assert (Spec.no_mismatch structure) as Hs.
  { unfold structure. destruct (truthy _);
      [apply no_mismatch_ensure_structure|apply no_mismatch_pure]. }
  specialize (Hs fs p). destruct (structure fs) as [[[]|e] fs1]; cbn in Hs;
    [|intros [= -> _]; done].
  unfold mbind at 1, M_bind at 1.
  set (bases := organizer.for_each _ _).
  assert (Spec.no_mismatch bases) as Hb.
  { apply no_mismatch_for_each. intros base.
    destruct (String.eqb base ""); [apply no_mismatch_pure|apply no_mismatch_ensure_directory]. }
  specialize (Hb fs1 p). destruct (bases fs1) as [[[]|e] fs2]; cbn in Hb;
    [|intros [= -> _]; done].
  apply apply_actions_mismatch.
Qed.

(** C9. In execute_merge the hash-mismatch abort fires only for a move
    action that carries a recorded hash: an action whose sha256 is None or
    empty is moved and the loop goes on without reading the file back, so a
    plan without recorded hashes never fails on integrity. *)
Theorem unhashed_moves_are_not_verified :
  (∀ plan fs p fs',
     execute_merge plan fs = (Err (HashMismatchAfterMove p), fs') →
     ∃ action, action ∈ MergePlan.actions plan ∧ moves_file action = true
       ∧ truthy (action_sha256 action) = true)
  ∧ (∀ plan,
       (∀ action, action ∈ MergePlan.actions plan → truthy (action_sha256 action) = false) →
       ∀ fs p, (execute_merge plan fs).1 ≠ Err (HashMismatchAfterMove p))
  ∧ (∀ destination_root applied action rest renamed src dst fs,
       action_src action = Some src → action_dst action = Some dst →
       truthy (action_sha256 action) = false →
       apply_actions destination_root applied (action :: rest) renamed fs
       = match _execute_move src dst
                 (first_truthy destination_root
                    (_infer_destination_root (applied ++ action :: rest)%list)
                    (os_path.abspath (os_path.dirname dst))) fs with
         | (Ok new_dst, fs1) =>
             apply_actions destination_root (applied ++ [set_dst new_dst action])%list rest
               (if negb (String.eqb (os_path.abspath new_dst) (os_path.abspath dst))
                then (renamed ++ [(dst, new_dst)])%list else renamed) fs1
         | (Err e, fs1) => (Err e, fs1)
         end).
Proof.
  split; [|split].
  - apply execute_merge_mismatch.
  - intros plan Hplan fs p Hm.
    destruct (execute_merge plan fs) as [r fs'] eqn:E. cbn in Hm. subst r.
    apply execute_merge_mismatch in E as (action & Hin & _ & Ht).
    rewrite (Hplan action Hin) in Ht. done.
  - intros destination_root applied action rest renamed src dst fs Hsrc Hdst Hsha.
    destruct action; try done; cbn in Hsrc, Hdst, Hsha; simplify_eq;
      cbn [apply_actions]; rewrite Hsha; unfold mbind, M_bind;
      by destruct (_execute_move _ _ _ fs) as [[new_dst|e] fs1].
Qed.

Lemma unhashed_moves_are_not_verified_witness :
  (∀ fs p, (execute_merge Samples.unhashed_plan fs).1 ≠ Err (HashMismatchAfterMove p))
  ∧ (execute_merge Samples.unhashed_plan Samples.incoming).1
    = Ok ([], [ CreateFolderAction "/library/2022/2022-01";
                MoveMasterAction "/in/m.jpg" "/library/2022/2022-01/m.jpg" None 10 None ]).
Proof.
  split; [|reflexivity].
  apply (proj1 (proj2 unhashed_moves_are_not_verified) Samples.unhashed_plan).
  intros action Hin. apply list_elem_of_In in Hin.
  cbn in Hin. intuition subst; reflexivity.
Defined.

(** The same move with a recorded hash that the bytes do not match is
    stopped by the verification. *)
Example stale_hash_aborts :
  (execute_merge Samples.stale_plan Samples.incoming).1
  = Err (HashMismatchAfterMove "/library/2022/2022-01/m.jpg").
Proof. reflexivity. Qed.

End Execution.


(** ** Undo *)

Section Undo.
Import merge_engine.

Lemma read_digest_exists fs p h : FS.read_digest fs p = Some h → FS.exists_ fs p = true.
Proof.
  unfold FS.read_digest, FS.exists_.
  destruct (fs !! p) as [[d| |o [d| |]]|]; done.
Qed.

Lemma hash_matches_restored fs original_path new_path hash :
  Spec.already_restored fs original_path new_path hash →
  _hash_matches fs (default "" original_path) hash = Ok true.
Proof.
  intros (_ & _ & Hh & Hd & _). unfold _hash_matches. rewrite Hh, Hd. cbn.
  destruct hash as [h|]; [|done]. cbn. by rewrite String.eqb_refl.
Qed.

Lemma classify_restored fs conflict_root entry :
  Spec.already_restored fs (ManifestEntry.original_path entry)
    (ManifestEntry.new_path entry) (ManifestEntry.hash entry) →
  classify fs conflict_root entry
  = Ok (UndoEntry.mk (ManifestEntry.original_path entry) (ManifestEntry.new_path entry)
          (ManifestEntry.hash entry) "skipped_restored" "Already restored." None).
Proof.
  intros H. pose proof (hash_matches_restored _ _ _ _ H) as Hm.
  destruct H as (Ho & Hn & Hh & Hd & He). unfold classify.
  rewrite Ho, Hn, He. cbn [negb orb].
  assert (FS.exists_ fs (os_path.abspath (default "" (ManifestEntry.original_path entry))) = true)
    as -> .
  { destruct (ManifestEntry.hash entry) as [h|]; [|done]. by apply (read_digest_exists _ _ h). }
  by rewrite Hm.
Qed.

Lemma undo_entry_restored st_dev conflict_root entry fs :
  Spec.already_restored fs (UndoEntry.original_path entry)
    (UndoEntry.new_path entry) (UndoEntry.hash entry) →
  undo_entry st_dev conflict_root entry fs
  = (Ok (if String.eqb (UndoEntry.status entry) "restore"
            || String.eqb (UndoEntry.status entry) "conflict"
         then with_status "skipped_restored" "Already restored." None entry
         else entry), fs).
Proof.
  intros H. pose proof (hash_matches_restored _ _ _ _ H) as Hm.
  destruct H as (Ho & Hn & Hh & Hd & He). unfold undo_entry.
  destruct (_ || _); [|done]. cbn [negb].
  unfold mbind, M_bind, get_fs. rewrite Hn, He. cbn [negb orb].
  assert (FS.exists_ fs (os_path.abspath (default "" (UndoEntry.original_path entry))) = true)
    as -> .
  { destruct (UndoEntry.hash entry) as [h|]; [|done]. by apply (read_digest_exists _ _ h). }
  rewrite Ho. cbn [andb]. unfold lift. by rewrite Hm.
Qed.

Lemma classify_all_restored fs conflict_root entries :
  Forall (λ entry, Spec.already_restored fs (ManifestEntry.original_path entry)
                     (ManifestEntry.new_path entry) (ManifestEntry.hash entry)) entries →
  ∃ planned, classify_all fs conflict_root entries = Ok planned
    ∧ Forall Spec.skipped_restored planned
    ∧ Forall (λ entry, Spec.already_restored fs (UndoEntry.original_path entry)
                         (UndoEntry.new_path entry) (UndoEntry.hash entry)) planned.
Proof.
  induction 1 as [|entry entries H _ IH]; [by exists []|].
  destruct IH as (planned & E & Hs & Hr). cbn [classify_all].
  rewrite (classify_restored _ _ _ H). cbn. rewrite E. cbn.
  eexists. split; [done|]. split; constructor; done.
Qed.

Lemma undo_entries_restored st_dev conflict_root fs entries :
  Forall Spec.skipped_restored entries →
  undo_entries st_dev conflict_root entries fs = (Ok entries, fs).
Proof.
  induction 1 as [|entry entries [Hs _] _ IH]; [done|].
  cbn [undo_entries]. unfold mbind, M_bind.
  unfold undo_entry at 1. rewrite Hs. cbn. by rewrite IH.
Qed.

(** C3. Re-running undo after a successful undo is idempotent: an entry
    whose file sits at its original path with the recorded hash, and whose
    new path is gone, is classified skipped_restored by prepare_undo_plan,
    or reclassified skipped_restored by execute_undo when the plan still
    says restore or conflict, and in both cases the filesystem is left as it
    was; a whole run over such entries, the conflict folder being there
    from the first run, changes nothing and reports skipped_restored for
    every entry. *)
Theorem undo_is_idempotent (st_dev : string → Z) (fs : FS.t) :
  (∀ conflict_root entry,
     Spec.already_restored fs (ManifestEntry.original_path entry)
       (ManifestEntry.new_path entry) (ManifestEntry.hash entry) →
     ∃ planned, classify fs conflict_root entry = Ok planned
       ∧ UndoEntry.status planned = "skipped_restored")
  ∧ (∀ conflict_root entry,
       Spec.already_restored fs (UndoEntry.original_path entry)
         (UndoEntry.new_path entry) (UndoEntry.hash entry) →
       UndoEntry.status entry ∈ ["restore"; "conflict"; "skipped_restored"] →
       ∃ result, undo_entry st_dev conflict_root entry fs = (Ok result, fs)
         ∧ UndoEntry.status result = "skipped_restored")
  ∧ (∀ batch_id entries plan,
       Forall (λ entry, Spec.already_restored fs (ManifestEntry.original_path entry)
                          (ManifestEntry.new_path entry) (ManifestEntry.hash entry)) entries →
       prepare_undo_plan fs (Some (SourceManifest.mk (Some batch_id) entries)) batch_id
       = Ok plan →
       FS.makedirs fs (os_path.abspath (UndoPlan.conflict_root plan)) = (true, fs) →
       execute_undo st_dev plan fs = (Ok (UndoPlan.entries plan), fs)
       ∧ Forall (λ entry, UndoEntry.status entry = "skipped_restored") (UndoPlan.entries plan)).
Proof.
  split; [|split].
  - intros conflict_root entry H. rewrite (classify_restored _ _ _ H). by eexists.
  - intros conflict_root entry H Hs. rewrite (undo_entry_restored _ _ _ _ H).
    eexists. split; [done|].
    rewrite !elem_of_cons, elem_of_nil in Hs.
    destruct Hs as [Hs|[Hs|[Hs|[]]]]; by rewrite Hs.
  - intros batch_id entries plan Hall. unfold prepare_undo_plan, load_source_manifest.
    cbn [SourceManifest.batch_id SourceManifest.entries].
    destruct (truthy (Some batch_id)); cbn; [|done].
    rewrite String.eqb_refl. cbn.
    destruct (_infer_library_root entries) as [library_root|]; [|done].
    destruct (String.eqb library_root ""); [done|].
    set (conflict_root := os_path.join _ batch_id).
    destruct (classify_all_restored fs conflict_root entries Hall) as (planned & -> & Hs & _).
    cbn. intros [= <-]. cbn [UndoPlan.conflict_root UndoPlan.entries]. intros Hmk.
    split.
    + unfold execute_undo. cbn [UndoPlan.conflict_root UndoPlan.entries].
      unfold mbind, M_bind, utils.ensure_directory. rewrite Hmk.
      by apply undo_entries_restored.
    + eapply Forall_impl; [exact Hs|]. by intros e [? _].
Qed.
Example first_undo_restores :
  ∃ plan, prepare_undo_plan Samples.merged (Some Samples.manifest) "batch123" = Ok plan
    ∧ (execute_undo (λ _, 0) plan Samples.merged).2 = Samples.undone
    ∧ map UndoEntry.status <$> (execute_undo (λ _, 0) plan Samples.merged).1
      = Ok ["restored"].
Proof. eexists. split; [reflexivity|]. split; [by vm_compute|reflexivity]. Qed.

Lemma undo_is_idempotent_witness :
  ∃ plan, prepare_undo_plan Samples.undone (Some Samples.manifest) "batch123" = Ok plan
    ∧ execute_undo (λ _, 0) plan Samples.undone = (Ok (UndoPlan.entries plan), Samples.undone)
    ∧ Forall (λ entry, UndoEntry.status entry = "skipped_restored") (UndoPlan.entries plan).
Proof.
  destruct (prepare_undo_plan Samples.undone (Some Samples.manifest) "batch123")
    as [plan|] eqn:E; [|by vm_compute in E].
  exists plan. split; [done|].
  apply (proj2 (proj2 (undo_is_idempotent (λ _, 0) Samples.undone))
           "batch123" (SourceManifest.entries Samples.manifest) plan).
  - repeat constructor.
  - exact E.
  - vm_compute in E. injection E as <-. by vm_compute.
Defined.

End Undo.

(** ** Path safety *)

(** Equations between closed terms are settled by evaluation. *)
Ltac vm_refl :=
  lazymatch goal with |- ?a = ?b => vm_cast_no_check (@eq_refl _ b) end.

Section PathSafety.
Import os_path NormalPath utils.

Lemma walk_rooted init cs es :
  is_root init → Forall simple cs → Forall simple es →
  walk (rooted init cs) es
  = map (λ pre, rooted init (cs ++ pre)) (FS.prefixes es).
Proof.
  intros Hi Hcs Hes. revert cs Hcs. induction Hes as [|e es He Hes IH]; intros cs Hcs.
  - done.
  - cbn [walk FS.prefixes map]. rewrite join_rooted by done. f_equal.
    rewrite IH by (apply Forall_app; split; [exact Hcs|by apply Forall_singleton]).
    rewrite map_map. apply map_ext. intros pre. by rewrite <- app_assoc.
Qed.

Lemma walk_check_none fs t cur ps :
  walk_check fs t cur ps = None ↔
  Forall (λ p, p ≠ "..") ps ∧ Forall (λ p, FS.islink fs p = false) (walk cur ps).
Proof.
  revert cur. induction ps as [|p ps IH]; intros cur.
  - cbn. split; [by split; constructor|done].
  - cbn [walk_check walk]. destruct (String.eqb_spec p "..") as [->|Hp].
    + split; [done|]. intros [H _]. by inversion H.
    + destruct (FS.islink fs (join cur p)) eqn:E.
      * split; [done|]. intros [_ H]. inversion H; congruence.
      * rewrite IH. split.
        -- intros [H1 H2]. split; by constructor.
        -- intros [H1 H2]. inversion H1; inversion H2; by subst.
Qed.

Lemma resolves_outside_no_link fs root ps :
  Forall (λ p, FS.islink fs p = false) (walk root ps) →
  resolves_outside fs root ps = false.
Proof.
  intros H. unfold resolves_outside.
  destruct (find (FS.islink fs) (walk root ps)) as [l|] eqn:E; [|done].
  apply find_some in E as [Hin Hl]. rewrite Forall_forall in H.
  apply list_elem_of_In in Hin. rewrite (H l Hin) in Hl. done.
Qed.

Lemma simple_not_pardir es : Forall simple es → Forall (λ p, p ≠ "..") es.
Proof. intros H. eapply Forall_impl; [done|]. intros e He. apply He. Qed.

Lemma parts_of_relative es :
  Forall simple es → es ≠ [] →
  filter (λ part, part ≠ "" ∧ part ≠ ".") (Text.split "/" (Text.join "/" es)) = es.
Proof.
  intros Hes Hne. rewrite split_join; [|done|by eapply Forall_impl; [done|intros ? []]].
  induction Hes as [|e es He Hes IH]; [done|].
  rewrite filter_cons_True by (split; apply He). f_equal.
  destruct es; [done|]. by apply IH.
Qed.

(** For a target below the root, both in normal form, the check passes
    exactly when the relative path does not begin with two dots and no
    path on the way down from the root is a symbolic link. *)
Lemma path_violation_message_rooted fs init cs es :
  is_root init → Forall simple cs → Forall simple es →
  path_violation_message fs (rooted init (cs ++ es)) (rooted init cs) = None
  ↔ startswith_pardir (Text.join "/" es) = false
    ∧ Forall (λ p, FS.islink fs p = false) (walk (rooted init cs) es).
Proof.
  intros Hi Hcs Hes. unfold path_violation_message.
  rewrite !abspath_rooted by (done || by apply Forall_app).
  destruct es as [|e es].
  - rewrite app_nil_r. unfold relpath.
    rewrite !abspath_rooted, !parts_rooted by done.
    assert (common_prefix cs cs = cs) as ->
      by (generalize (common_prefix_app cs []); by rewrite app_nil_r).
    rewrite Nat.sub_diag, drop_all.
    cbn. split; [by split|done].
  - rewrite relpath_rooted by done.
    destruct (startswith_pardir _) eqn:Ep; [by split; [|intros []]|].
    rewrite parts_of_relative by done.
    destruct (resolves_outside _ _ _) eqn:Er.
    + split; [done|]. intros [_ H]. by rewrite resolves_outside_no_link in Er.
    + rewrite walk_check_none. split; [intros []; by split|].
      intros [_ H]. split; [by apply simple_not_pardir|done].
Qed.

Lemma fold_join_rooted init cs es :
  is_root init → Forall simple cs → Forall simple es →
  fold_left join es (rooted init cs) = rooted init (cs ++ es).
Proof.
  intros Hi Hcs Hes. revert cs Hcs. induction Hes as [|e es He Hes IH]; intros cs Hcs.
  - by rewrite app_nil_r.
  - cbn [fold_left]. rewrite join_rooted by done.
    rewrite IH by (apply Forall_app; split; [exact Hcs|by apply Forall_singleton]).
    by rewrite <- app_assoc.
Qed.

Lemma path_violation_message_abspath_root fs target root :
  path_violation_message fs target (abspath root) = path_violation_message fs target root.
Proof. unfold path_violation_message. by rewrite abspath_idempotent. Qed.

(** X1. For a target reached from the root by joining names (names
    without a slash, none of them empty, [.] or [..]), the safety check
    passes exactly when the relative path does not begin with two dots and
    no path on the way down from the root is a symbolic link. *)
Theorem path_violation_message_inside fs root es :
  Forall simple es →
  path_violation_message fs (fold_left join es (abspath root)) root = None
  ↔ startswith_pardir (Text.join "/" es) = false
    ∧ Forall (λ p, FS.islink fs p = false) (walk (abspath root) es).
Proof.
  intros Hes. rewrite <- path_violation_message_abspath_root.
  destruct (abspath_is_rooted root) as (init & cs & Hi & Hcs & ->).
  rewrite fold_join_rooted by done. by apply path_violation_message_rooted.
Qed.

Lemma path_violation_message_inside_witness :
  path_violation_message Samples.merged
    (fold_left join ["2024"; "2024-01"] (abspath "/library")) "/library" = None
  ↔ startswith_pardir (Text.join "/" ["2024"; "2024-01"]) = false
    ∧ Forall (λ p, FS.islink Samples.merged p = false)
        (walk (abspath "/library") ["2024"; "2024-01"]).
Proof.
  apply (path_violation_message_inside Samples.merged "/library" ["2024"; "2024-01"]).
  repeat constructor; discriminate.
Defined.

End PathSafety.

(** ** Destination validation *)

Section Validation.
Import os_path NormalPath utils merge_engine.

Local Ltac simple_list :=
  repeat (apply Forall_cons_2; [assumption|]); apply Forall_nil_2.

Lemma listdir_entry fs d e :
  e ∈ FS.listdir fs d → has_slash e = false ∧ e ≠ "".
Proof.
  unfold FS.listdir. intros ([k n] & Hin & Hf)%list_elem_of_omap. cbn in Hf.
  destruct (decide _) as [[_ Hb]|]; [|done]. injection Hf as <-.
  split; [apply basename_noslash|done].
Qed.

Lemma not_hidden_first e :
  e ≠ "" → Text.startswith "." e = false →
  ∃ a r, e = String a r ∧ Ascii.eqb a "." = false.
Proof.
  intros Hne Hs. destruct e as [|a r]; [done|]. exists a, r. split; [done|].
  unfold Text.startswith in Hs. cbn [String.prefix] in Hs.
  destruct (Ascii.eqb_spec a "."); [|done]. subst. 
  destruct (ascii_dec "." "."); [|done]. by rewrite prefix_nil in Hs.
Qed.

Lemma visible_simple fs d e : e ∈ visible fs d → simple e.
Proof.
  unfold visible. intros [Hs [Hsl Hne]%listdir_entry]%list_elem_of_filter.
  destruct (not_hidden_first e Hne Hs) as (a & r & -> & Ha).
  repeat split; try done.
  - intros [= -> _]. done.
  - intros [= -> _]. done.
Qed.

Lemma visible_not_pardir e rest :
  e ≠ "" → Text.startswith "." e = false → startswith_pardir (e +:+ rest) = false.
Proof.
  intros Hne Hs. destruct (not_hidden_first e Hne Hs) as (a & r & -> & Ha).
  rewrite app_cons_str. unfold startswith_pardir, Text.startswith. cbn [String.prefix].
  destruct (ascii_dec "." a) as [<-|]; done.
Qed.

Lemma elem_of_visible fs d e :
  e ∈ visible fs d ↔ e ∈ FS.listdir fs d ∧ Text.startswith "." e = false.
Proof. unfold visible. rewrite list_elem_of_filter. tauto. Qed.

(** What the loop over month folders accepts. *)
Lemma check_months_ok fs init cs entry entries :
  is_root init → Forall simple cs → simple entry →
  Text.startswith "." entry = false →
  FS.islink fs (rooted init (cs ++ [entry])) = false →
  Forall simple entries →
  check_months fs (rooted init cs) entry (rooted init (cs ++ [entry])) entries = Ok tt
  ↔ ∀ m, m ∈ entries →
      FS.islink fs (join (rooted init (cs ++ [entry])) m) = false
      ∧ FS.isdir fs (join (rooted init (cs ++ [entry])) m) = true
      ∧ is_year_month m entry = true.
Proof.
  intros Hi Hcs He Hvis Hl Hes. induction Hes as [|m ms Hm Hms IH].
  - cbn. split; [intros _ m Hin; by apply elem_of_nil in Hin|done].
  - cbn [check_months].
    assert (Forall simple (cs ++ [entry])) as Hce
      by (apply Forall_app; split; [done|by apply Forall_singleton]).
    assert (path_violation_message fs (join (rooted init (cs ++ [entry])) m) (rooted init cs)
            = None ↔ FS.islink fs (join (rooted init (cs ++ [entry])) m) = false) as Hpv.
    { rewrite (join_rooted init (cs ++ [entry]) m) by done.
      rewrite <- app_assoc. cbn [app].
      rewrite path_violation_message_rooted by (done || simple_list).
      cbn [walk]. rewrite !join_rooted by done. rewrite <- app_assoc. cbn [app].
      rewrite join_cons2, visible_not_pardir by (done || apply He).
      rewrite !Forall_cons, Forall_nil. tauto. }
    destruct (path_violation_message _ _ _) eqn:Epv.
    { split; [done|]. intros H. destruct (H m) as (H1 & _); [left|].
      apply Hpv in H1. done. }
    destruct Hpv as [Hpv _]. specialize (Hpv eq_refl).
    destruct (FS.isdir fs _) eqn:Ed; cbn [negb].
    2:{ split; [done|]. intros H. destruct (H m) as (_ & H2 & _); [left|]. congruence. }
    destruct (is_year_month m entry) eqn:Ey; cbn [negb].
    2:{ split; [done|]. intros H. destruct (H m) as (_ & _ & H3); [left|]. congruence. }
    rewrite IH. split.
    + intros H m' [->|Hin]%elem_of_cons; [done|by apply H].
    + intros H m' Hin. apply H. by right.
Qed.

(** What the loop over year folders accepts. *)
Lemma check_years_ok fs init cs entries :
  is_root init → Forall simple cs →
  Forall (λ e, simple e ∧ Text.startswith "." e = false) entries →
  check_years fs (rooted init cs) (rooted init cs) entries = Ok tt
  ↔ ∀ e, e ∈ entries →
      FS.islink fs (join (rooted init cs) e) = false
      ∧ FS.isdir fs (join (rooted init cs) e) = true
      ∧ is_year e = true
      ∧ ∀ m, m ∈ visible fs (join (rooted init cs) e) →
          FS.islink fs (join (join (rooted init cs) e) m) = false
          ∧ FS.isdir fs (join (join (rooted init cs) e) m) = true
          ∧ is_year_month m e = true.
Proof.
  intros Hi Hcs Hes. induction Hes as [|e es [He Hvis] Hes IH].
  - cbn. split; [intros _ m Hin; by apply elem_of_nil in Hin|done].
  - cbn [check_years].
    assert (path_violation_message fs (join (rooted init cs) e) (rooted init cs) = None
            ↔ FS.islink fs (join (rooted init cs) e) = false) as Hpv.
    { rewrite (join_rooted init cs e) by done.
      rewrite path_violation_message_rooted by (done || simple_list).
      cbn [walk Text.join]. rewrite join_rooted by done.
      rewrite <- (app_nil_r_str e) at 1. rewrite visible_not_pardir by (done || apply He).
      rewrite !Forall_cons, Forall_nil. tauto. }
    destruct (path_violation_message _ _ _) eqn:Epv.
    { split; [done|]. intros H. destruct (H e) as (H1 & _); [left|].
      apply Hpv in H1. done. }
    destruct Hpv as [Hpv _]. specialize (Hpv eq_refl).
    destruct (FS.isdir fs _) eqn:Ed; cbn [negb].
    2:{ split; [done|]. intros H. destruct (H e) as (_ & H2 & _); [left|]. congruence. }
    destruct (is_year e) eqn:Ey; cbn [negb].
    2:{ split; [done|]. intros H. destruct (H e) as (_ & _ & H3 & _); [left|]. congruence. }
    pose proof (check_months_ok fs init cs e (visible fs (join (rooted init cs) e))
                  Hi Hcs He Hvis) as Hmon.
    rewrite (join_rooted init cs e) in Hpv, Hmon |- * by done.
    specialize (Hmon Hpv).
    ospecialize (Hmon _).
    { apply Forall_forall. intros m Hm. by eapply visible_simple. }
    destruct (check_months _ _ _ _ _) as [[]|err] eqn:Em.
    + cbn. rewrite IH. destruct Hmon as [Hmon _]. specialize (Hmon eq_refl). split.
      * intros H e' [->|Hin]%elem_of_cons.
        -- rewrite (join_rooted init cs e) in Ed |- * by done. done.
        -- by apply H.
      * intros H e' Hin. apply H. by right.
    + cbn. split; [done|]. intros H. destruct (H e) as (_ & _ & _ & H4); [left|].
      rewrite (join_rooted init cs e) in H4 by done.
      destruct Hmon as [_ Hmon]. by specialize (Hmon H4).
Qed.

(** X2. A destination that is a real directory is accepted exactly when every
    entry whose name does not begin with a dot is a directory named as a
    year that is not a symbolic link, and every such entry below it is a
    directory named as a month of that year that is not a symbolic link.
    Entries whose names begin with a dot are not looked at. *)
Theorem validate_destination_accepts_iff fs destination :
  fs !! abspath destination = Some FS.Dir →
  _validate_destination fs destination = Ok tt
  ↔ ∀ e, e ∈ FS.listdir fs (abspath destination) → Text.startswith "." e = false →
      FS.islink fs (join (abspath destination) e) = false
      ∧ FS.isdir fs (join (abspath destination) e) = true
      ∧ is_year e = true
      ∧ ∀ m, m ∈ FS.listdir fs (join (abspath destination) e) →
          Text.startswith "." m = false →
          FS.islink fs (join (join (abspath destination) e) m) = false
          ∧ FS.isdir fs (join (join (abspath destination) e) m) = true
          ∧ is_year_month m e = true.
Proof.
  intros Hd. unfold _validate_destination.
  unfold FS.islink, FS.isfile, FS.exists_. rewrite Hd. cbn [negb].
  destruct (abspath_is_rooted destination) as (init & cs & Hi & Hcs & ->).
  rewrite check_years_ok; [|done|done|].
  2:{ apply Forall_forall. intros e He. split; [by eapply visible_simple|].
      by apply elem_of_visible in He as [_ ?]. }
  split.
  - intros H e He Hv. destruct (H e) as (H1 & H2 & H3 & H4); [by apply elem_of_visible|].
    split_and!; try done. intros m Hm Hmv. apply H4. by apply elem_of_visible.
  - intros H e [He Hv]%elem_of_visible. destruct (H e He Hv) as (H1 & H2 & H3 & H4).
    split_and!; try done. intros m [Hm Hmv]%elem_of_visible. by apply H4.
Qed.

Lemma validate_destination_accepts_iff_witness :
  _validate_destination Samples.merged "/library" = Ok tt
  ↔ ∀ e, e ∈ FS.listdir Samples.merged (abspath "/library") →
      Text.startswith "." e = false →
      FS.islink Samples.merged (join (abspath "/library") e) = false
      ∧ FS.isdir Samples.merged (join (abspath "/library") e) = true
      ∧ is_year e = true
      ∧ ∀ m, m ∈ FS.listdir Samples.merged (join (abspath "/library") e) →
          Text.startswith "." m = false →
          FS.islink Samples.merged (join (join (abspath "/library") e) m) = false
          ∧ FS.isdir Samples.merged (join (join (abspath "/library") e) m) = true
          ∧ is_year_month m e = true.
Proof. apply (validate_destination_accepts_iff Samples.merged "/library"). vm_refl. Defined.

End Validation.

(** ** Names of year and month folders *)

Section FolderNames.
Import os_path NormalPath utils merge_engine Calendar.

Lemma is_digit_elem c : Text.is_digit c = true → c ∈ digits.
Proof.
  unfold Text.is_digit. intros [H1 H2]%andb_true_iff.
  apply Nat.leb_le in H1, H2. rewrite <- (ascii_nat_embedding c).
  assert (∃ k, (k < 10)%nat ∧ nat_of_ascii c = (48 + k)%nat) as (k & Hk & ->)
    by (exists (nat_of_ascii c - 48)%nat; lia).
  do 10 (destruct k as [|k]; [vm_compute; set_solver|]). lia.
Qed.

Lemma elem_of_years y : y ∈ years ↔ 1900 ≤ y ≤ 2099.
Proof.
  unfold years. rewrite list_elem_of_fmap. setoid_rewrite elem_of_seq. split.
  - intros (n & -> & Hn). lia.
  - intros Hy. exists (Z.to_nat y). lia.
Qed.

Lemma elem_of_months m : m ∈ months ↔ 1 ≤ m ≤ 12.
Proof.
  unfold months. rewrite list_elem_of_fmap. setoid_rewrite elem_of_seq. split.
  - intros (n & -> & Hn). lia.
  - intros Hy. exists (Z.to_nat m). lia.
Qed.

Lemma is_year_shape name :
  is_year name = true →
  ∃ a b c d, name = String a (String b (String c (String d "")))
    ∧ (a = "1" ∧ b = "9" ∨ a = "2" ∧ b = "0")%char ∧ c ∈ digits ∧ d ∈ digits.
Proof.
  unfold is_year. intros [[Hl Hd]%andb_true_iff Hp]%andb_true_iff.
  apply Nat.eqb_eq in Hl.
  destruct name as [|a [|b [|c [|d [|]]]]]; try done.
  exists a, b, c, d. split; [done|].
  unfold Text.isdigit in Hd. cbn in Hd.
  rewrite !andb_true_iff in Hd. destruct Hd as (Ha & Hb & Hc & Hdd & _).
  split_and!; [|by apply is_digit_elem..].
  unfold Text.startswith in Hp. cbn [String.prefix] in Hp.
  apply orb_true_iff in Hp as [Hp|Hp].
  - left. destruct (ascii_dec "1" a) as [<-|]; [|done].
    destruct (ascii_dec "9" b) as [<-|]; done.
  - right. destruct (ascii_dec "2" a) as [<-|]; [|done].
    destruct (ascii_dec "0" b) as [<-|]; done.
Qed.

Lemma years_accepted : forallb (λ y, is_year (Text.str y)) years = true.
Proof. by vm_compute. Qed.

Lemma year_names :
  forallb (λ a : ascii * ascii,
    forallb (λ c, forallb (λ d,
      let name := String a.1 (String a.2 (String c (String d ""))) in
      String.eqb (Text.str (Text.int10 name)) name
      && (1900 <=? Text.int10 name) && (Text.int10 name <=? 2099)) digits) digits)
    [("1", "9"); ("2", "0")]%char = true.
Proof. by vm_compute. Qed.

Lemma is_year_iff name :
  is_year name = true ↔ ∃ y, 1900 ≤ y ≤ 2099 ∧ name = Text.str y.
Proof.
  split.
  - intros (a & b & c & d & -> & Hab & Hc & Hd)%is_year_shape.
    pose proof year_names as H. rewrite forallb_forall in H.
    specialize (H (a, b)). cbn [fst snd] in H. ospecialize (H _).
    { apply list_elem_of_In. destruct Hab as [[-> ->]|[-> ->]]; set_solver. }
    rewrite forallb_forall in H. specialize (H c (proj1 (list_elem_of_In _ _) Hc)).
    rewrite forallb_forall in H. specialize (H d (proj1 (list_elem_of_In _ _) Hd)).
    cbn zeta in H. apply andb_true_iff in H as [[H1 H2]%andb_true_iff H3].
    apply String.eqb_eq in H1. eexists. split; [|by rewrite H1]. lia.
  - intros (y & Hy & ->). pose proof years_accepted as H.
    rewrite forallb_forall in H. apply H, list_elem_of_In, elem_of_years. done.
Qed.


Lemma month_names :
  forallb (λ f, forallb (λ g,
    let m := String f (String g "") in
    implb ((1 <=? Text.int10 m) && (Text.int10 m <=? 12))
          (String.eqb (Text.fmt02 (Text.int10 m)) m)) digits) digits = true.
Proof. by vm_compute. Qed.

Lemma months_accepted :
  forallb (λ a : ascii * ascii,
    forallb (λ c, forallb (λ d, forallb (λ m,
      let year := String a.1 (String a.2 (String c (String d ""))) in
      is_year_month (year +:+ "-" +:+ Text.fmt02 m) year) months) digits) digits)
    [("1", "9"); ("2", "0")]%char = true.
Proof. by vm_compute. Qed.

Local Ltac short_year :=
  match goal with
  | |- context [String.eqb ?y ?z] =>
      destruct (String.eqb_spec y z) as [E|];
      [apply (f_equal String.length) in E; discriminate E | cbn [negb]; intros [=]]
  end.

Lemma is_year_month_iff name year :
  is_year year = true →
  is_year_month name year = true
  ↔ ∃ m, 1 ≤ m ≤ 12 ∧ name = year +:+ "-" +:+ Text.fmt02 m.
Proof.
  intros (a & b & c & d & -> & Hab & Hc & Hd)%is_year_shape. split.
  - unfold is_year_month.
    destruct (String.length name =? 7)%nat eqn:El; [|done]. apply Nat.eqb_eq in El.
    destruct name as [|n0 [|n1 [|n2 [|n3 [|n4 [|n5 [|n6 [|]]]]]]]]; try done.
    cbn [negb orb String.get]. case_bool_decide as E4; [|done]. injection E4 as ->.
    cbn [negb split_once].
    destruct (Ascii.eqb n0 "-"); [cbn [negb]; short_year|].
    destruct (Ascii.eqb n1 "-"); [cbn [negb]; short_year|].
    destruct (Ascii.eqb n2 "-"); [cbn [negb]; short_year|].
    destruct (Ascii.eqb n3 "-"); [cbn [negb]; short_year|].
    rewrite Ascii.eqb_refl.
    destruct (String.eqb_spec (String n0 (String n1 (String n2 (String n3 ""))))
                (String a (String b (String c (String d ""))))) as [Ey|]; [|done].
    injection Ey as -> -> -> ->. cbn [negb].
    intros [[Hdg H1]%andb_true_iff H2]%andb_true_iff.
    unfold Text.isdigit in Hdg. cbn in Hdg. rewrite !andb_true_iff in Hdg.
    destruct Hdg as (H5 & H6 & _). apply is_digit_elem in H5, H6.
    pose proof month_names as H. rewrite forallb_forall in H.
    specialize (H n5 (proj1 (list_elem_of_In _ _) H5)).
    rewrite forallb_forall in H. specialize (H n6 (proj1 (list_elem_of_In _ _) H6)).
    cbn zeta in H. rewrite H1, H2 in H. cbn [andb implb] in H.
    apply String.eqb_eq in H. exists (Text.int10 (String n5 (String n6 ""))).
    split; [lia|]. by rewrite H.
  - intros (m & Hm & ->). pose proof months_accepted as H.
    rewrite forallb_forall in H. specialize (H (a, b)). cbn [fst snd] in H.
    ospecialize (H _).
    { apply list_elem_of_In. destruct Hab as [[-> ->]|[-> ->]]; set_solver. }
    rewrite forallb_forall in H. specialize (H c (proj1 (list_elem_of_In _ _) Hc)).
    rewrite forallb_forall in H. specialize (H d (proj1 (list_elem_of_In _ _) Hd)).
    rewrite forallb_forall in H. apply H, list_elem_of_In, elem_of_months. done.
Qed.


(** X3. Among the names written in ASCII, the ones accepted as year folders
    are the decimal numerals of the years 1900 to 2099; and the numeral of
    a number that is not negative is accepted exactly when the number is
    one of these years. *)
Theorem year_folder_names name :
  Text.isascii name = true →
  (is_year name = true ↔ ∃ y, 1900 ≤ y ≤ 2099 ∧ name = Text.str y)
  ∧ ∀ y, (0 <=? y) = true → is_year (Text.str y) = true ↔ 1900 ≤ y ≤ 2099.
Proof.
  intros _. split; [apply is_year_iff|]. intros y Hy%Z.leb_le.
  rewrite is_year_iff. split; [|by eauto].
  intros (y' & Hy' & E). unfold Text.str in E.
  destruct (Z.ltb_spec y 0), (Z.ltb_spec y' 0); try lia.
  apply pretty.pretty_N_inj in E. lia.
Qed.

Lemma year_folder_names_witness :
  (is_year "1987" = true ↔ ∃ y, 1900 ≤ y ≤ 2099 ∧ "1987" = Text.str y)
  ∧ ∀ y, (0 <=? y) = true → is_year (Text.str y) = true ↔ 1900 ≤ y ≤ 2099.
Proof. apply (year_folder_names "1987"). vm_refl. Defined.

(** X4. Under a year folder, the names written in ASCII that are accepted
    as month folders are the year, a dash and the two-digit numeral of a
    month from 01 to 12. *)
Theorem month_folder_names name year :
  Text.isascii name = true →
  is_year year = true →
  is_year_month name year = true
  ↔ ∃ m, 1 ≤ m ≤ 12 ∧ name = year +:+ "-" +:+ Text.fmt02 m.
Proof. intros _. apply is_year_month_iff. Qed.

Lemma month_folder_names_witness :
  is_year_month "2024-01" "2024" = true
  ↔ ∃ m, 1 ≤ m ≤ 12 ∧ "2024-01" = "2024" +:+ "-" +:+ Text.fmt02 m.
Proof. apply (month_folder_names "2024-01" "2024"); vm_refl. Defined.

End FolderNames.

(** ** Chronology read off a path *)

Section Chronology.
Import os_path NormalPath organizer merge_engine Calendar.

Lemma year_match_is_year part : year_match part = true → is_year part = true.
Proof.
  unfold year_match, is_year.
  destruct part as [|a [|b [|c [|d [|]]]]]; try done.
  intros [[Hp Hc]%andb_true_iff Hd]%andb_true_iff. rewrite Hp.
  unfold Text.isdigit. cbn. rewrite Hc, Hd.
  unfold Text.startswith in Hp. cbn [String.prefix] in Hp.
  apply orb_true_iff in Hp as [Hp|Hp].
  - destruct (ascii_dec "1" a) as [<-|]; [|done].
    destruct (ascii_dec "9" b) as [<-|]; done.
  - destruct (ascii_dec "2" a) as [<-|]; [|done].
    destruct (ascii_dec "0" b) as [<-|]; done.
Qed.

Lemma in_range_month year v y m :
  in_range year v = detected y m → y = year ∧ 1 ≤ m ≤ 12.
Proof.
  unfold in_range. destruct (Z.leb_spec 1 v), (Z.leb_spec v 12); cbn; try done.
  intros [= <- <-]. lia.
Qed.

Lemma parse_month_segment_detected year_text candidate y m :
  _parse_month_segment year_text candidate = detected y m →
  y = Text.int10 year_text ∧ 1 ≤ m ≤ 12.
Proof.
  unfold _parse_month_segment. repeat case_match; try done; by intros ?%in_range_month.
Qed.

Lemma scan_parts_coordinates parts y m :
  coordinates (scan_parts parts) = Some (y, m) →
  ∃ part, year_match part = true ∧ y = Text.int10 part ∧ 1 ≤ m ≤ 12.
Proof.
  induction parts as [|part rest IH]; [done|]. cbn [scan_parts].
  destruct rest as [|next_part [|third rest]]; [done..|].
  destruct (year_match part) eqn:Ey; [|apply IH].
  destruct (_parse_month_segment part next_part) eqn:Ep; [|done|apply IH].
  cbn. intros [= <- <-]. apply parse_month_segment_detected in Ep. eauto.
Qed.

Lemma scan_parts_exclusive parts :
  chronology_invalid (scan_parts parts) = true → coordinates (scan_parts parts) = None.
Proof.
  induction parts as [|part rest IH]; [done|]. cbn [scan_parts].
  destruct rest as [|next_part [|third rest]]; [done..|].
  destruct (year_match part) eqn:Ey; [|apply IH].
  destruct (_parse_month_segment part next_part) eqn:Ep; [done|done|apply IH].
Qed.

Lemma int10_str_year y : 1900 ≤ y ≤ 2099 → Text.int10 (Text.str y) = y.
Proof.
  intros Hy.
  assert (forallb (λ y, Text.int10 (Text.str y) =? y) years = true) as H by (by vm_compute).
  rewrite forallb_forall in H. apply Z.eqb_eq, H, list_elem_of_In, elem_of_years. done.
Qed.

(** X5. The year and month read off the folders of a path written in ASCII
    are a year from 1900 to 2099 and a month from 1 to 12, the chronology
    is then not flagged as invalid, and the folders they name in the
    library are the ones destination validation accepts. *)
Theorem existing_chronology_in_range path y m :
  Text.isascii path = true →
  coordinates (_existing_chronology path) = Some (y, m) →
  1900 ≤ y ≤ 2099 ∧ 1 ≤ m ≤ 12
  ∧ chronology_invalid (_existing_chronology path) = false
  ∧ is_year (Text.str y) = true
  ∧ is_year_month (Text.str y +:+ "-" +:+ Text.fmt02 m) (Text.str y) = true.
Proof.
  unfold _existing_chronology. intros _ H.
  pose proof (scan_parts_exclusive (parts (abspath path))) as Hx.
  destruct (scan_parts_coordinates _ _ _ H) as (part & Hp & -> & Hm).
  apply year_match_is_year, is_year_iff in Hp as (y & Hy & ->).
  rewrite int10_str_year in * by done.
  split_and!; try lia.
  - destruct (chronology_invalid _); [by rewrite Hx in H|done].
  - apply is_year_iff. eauto.
  - apply is_year_month_iff; [apply is_year_iff|]; eauto.
Qed.

Lemma existing_chronology_in_range_witness :
  1900 ≤ 2023 ≤ 2099 ∧ 1 ≤ 5 ≤ 12
  ∧ chronology_invalid (_existing_chronology "/photos/2023/2023-05/pic.jpg") = false
  ∧ is_year (Text.str 2023) = true
  ∧ is_year_month (Text.str 2023 +:+ "-" +:+ Text.fmt02 5) (Text.str 2023) = true.
Proof.
  apply (existing_chronology_in_range "/photos/2023/2023-05/pic.jpg" 2023 5); vm_refl.
Defined.

End Chronology.

(** ** Chronology resolution *)

Section Organizer.
Import os_path NormalPath organizer merge_engine Calendar.

















Example undated_file_goes_to_review :
  determine_target_path Samples.archived_undated "/library" "on" None
  = ("/library/REVIEW/pic.jpg", Some "missing_exif_timestamp").
Proof. reflexivity. Qed.

(** The first pair decides: below 2023/2023-05, a later 2024/2024-06 is not
    looked at. *)
Example first_pair_decides :
  determine_target_path Scenes.refiled "/library" "on" None
  = ("/library/2023/2023-05/pic.jpg", None).
Proof. reflexivity. Qed.

End Organizer.

(** ** Creating directories *)

Section Directories.
Import os_path NormalPath utils Keeping.

Lemma makedirs_chain_preserves fs ps p n :
  fs !! p = Some n → (FS.makedirs_chain fs ps).2 !! p = Some n.
Proof.
  revert fs. induction ps as [|q ps IH]; intros fs Hp; [done|]. cbn.
  destruct (fs !! q) as [[| |o []]|] eqn:Eq; try done; try by apply IH.
  apply IH. rewrite lookup_insert_ne; [done|]. intros ->. congruence.
Qed.

Lemma makedirs_chain_ok fs ps :
  (FS.makedirs_chain fs ps).1 = true ↔ Forall (may_be_directory fs) ps.
Proof.
  revert fs. induction ps as [|q ps IH]; intros fs; [by split|]. cbn.
  rewrite Forall_cons. unfold may_be_directory at 1, FS.isdir at 1.
  destruct (fs !! q) as [[| |o []]|] eqn:Eq.
  - split; [done|]. by intros [[|] _].
  - rewrite IH. naive_solver.
  - split; [done|]. by intros [[|] _].
  - rewrite IH. naive_solver.
  - split; [done|]. by intros [[|] _].
  - rewrite IH. split.
    + intros H. split; [by left|]. eapply Forall_impl; [exact H|].
      intros q' [Hq'|Hq']; unfold may_be_directory, FS.isdir in *.
      * destruct (decide (q = q')) as [->|Hne]; [by rewrite lookup_insert_eq in Hq'|].
        rewrite lookup_insert_ne in Hq' by done. by left.
      * destruct (decide (q = q')) as [->|Hne]; [by left|].
        rewrite lookup_insert_ne in Hq' by done. by right.
    + intros [_ H]. eapply Forall_impl; [exact H|].
      intros q' [Hq'|Hq']; unfold may_be_directory, FS.isdir in *.
      * destruct (decide (q = q')) as [->|Hne]; [right; by rewrite lookup_insert_eq|].
        left. by rewrite lookup_insert_ne.
      * destruct (decide (q = q')) as [->|Hne]; [right; by rewrite lookup_insert_eq|].
        right. by rewrite lookup_insert_ne.
Qed.

Lemma makedirs_chain_made fs ps :
  (FS.makedirs_chain fs ps).1 = true →
  Forall (λ q, FS.isdir (FS.makedirs_chain fs ps).2 q = true) ps.
Proof.
  revert fs. induction ps as [|q ps IH]; intros fs; [done|]. cbn.
  destruct (fs !! q) as [[| |o []]|] eqn:Eq; try done.
  - intros H. constructor; [|by apply IH].
    unfold FS.isdir. by rewrite (makedirs_chain_preserves _ _ _ _ Eq).
  - intros H. constructor; [|by apply IH].
    unfold FS.isdir. by rewrite (makedirs_chain_preserves _ _ _ _ Eq).
  - intros H. constructor; [|by apply IH].
    unfold FS.isdir.
    by rewrite (makedirs_chain_preserves _ _ q FS.Dir (lookup_insert_eq _ _ _)).
Qed.

Lemma prefixes_last (l : list string) : l ≠ [] → l ∈ FS.prefixes l.
Proof.
  induction l as [|x l IH]; [done|]. intros _. cbn. destruct l as [|y l].
  - left.
  - right. apply list_elem_of_In, in_map, list_elem_of_In, IH. done.
Qed.

Lemma chain_last p :
  Text.startswith "//" p = false → abspath p ≠ "/" → abspath p ∈ FS.chain (abspath p).
Proof.
  intros Hs Hne. unfold FS.chain.
  destruct (abspath_is_rooted p) as (init & cs & Hi & Hcs & E).
  assert (init = "/") as ->.
  { unfold abspath in E. apply (f_equal initial_slashes) in E.
    rewrite rooted_initial_slashes in E by done. rewrite <- E.
    set (q := if Text.startswith "/" p then p else "/" +:+ p).
    assert (Text.startswith "//" q = false) as Hq.
    { subst q. destruct p as [|a p]; [by vm_compute|]. unfold Text.startswith in *.
      cbn [String.prefix] in Hs |- *. destruct (ascii_dec "/" a) as [<-|].
      { rewrite prefix_nil. cbn [String.prefix]. by destruct (ascii_dec "/" "/"). }
      change ("/" +:+ String a p) with (String "/" (String a p)). cbn [String.prefix].
      destruct (ascii_dec "/" "/"); [|done]. by destruct (ascii_dec "/" a). }
    fold q.
    assert (∀ s, Text.startswith "//" s = false → initial_slashes
              (initial_slashes s +:+ Text.join "/" (norm_comps [] (Text.split "/" s)))
              = "/") as Hall.
    { intros s Hs'. unfold initial_slashes at 2. rewrite Hs'. cbn [andb].
      apply (rooted_initial_slashes "/" (norm_comps [] (Text.split "/" s))); [by left|].
      apply norm_comps_out; [apply split_all_noslash|constructor]. }
    by apply Hall. }
  rewrite E, parts_rooted by done.
  apply list_elem_of_fmap. exists cs. split; [done|].
  apply prefixes_last. intros ->. apply Hne. by rewrite E.
Qed.

(** X9. [ensure_directory] keeps every node that was there. It succeeds
    exactly when no path of the chain from the root down to the directory
    is taken by something that is not a directory, and then all of them
    are directories, the directory itself included. *)
Theorem ensure_directory_creates path fs r fs' :
  ensure_directory path fs = (r, fs') →
  (∀ p n, fs !! p = Some n → fs' !! p = Some n)
  ∧ (r = Ok tt ↔ Forall (may_be_directory fs) (FS.chain (abspath path)))
  ∧ (r = Ok tt → Forall (λ q, FS.isdir fs' q = true) (FS.chain (abspath path)))
  ∧ (r = Ok tt → Text.startswith "//" path = false → abspath path ≠ "/" →
     FS.isdir fs' (abspath path) = true).
Proof.
  unfold ensure_directory, FS.makedirs. intros H.
  pose proof (makedirs_chain_preserves fs (FS.chain (abspath path))) as Hp.
  pose proof (makedirs_chain_ok fs (FS.chain (abspath path))) as Hok.
  pose proof (makedirs_chain_made fs (FS.chain (abspath path))) as Hmade.
  destruct (FS.makedirs_chain fs (FS.chain (abspath path))) as [b fs1].
  cbn [fst snd] in *.
  assert (fs' = fs1 ∧ (r = Ok tt ↔ b = true)) as [-> Hr].
  { destruct b; injection H as <- <-; by split. }
  split_and!; try done.
  - by rewrite Hr.
  - intros Hb%Hr. by apply Hmade.
  - intros Hb%Hr Hs Hne. specialize (Hmade Hb). rewrite Forall_forall in Hmade.
    by apply Hmade, chain_last.
Qed.

Lemma ensure_directory_creates_witness :
  (∀ p n, Samples.merged !! p = Some n →
     (ensure_directory "/library/REVIEW" Samples.merged).2 !! p = Some n)
  ∧ ((ensure_directory "/library/REVIEW" Samples.merged).1 = Ok tt
     ↔ Forall (may_be_directory Samples.merged) (FS.chain (abspath "/library/REVIEW")))
  ∧ ((ensure_directory "/library/REVIEW" Samples.merged).1 = Ok tt →
     Forall (λ q, FS.isdir (ensure_directory "/library/REVIEW" Samples.merged).2 q = true)
       (FS.chain (abspath "/library/REVIEW")))
  ∧ ((ensure_directory "/library/REVIEW" Samples.merged).1 = Ok tt →
     Text.startswith "//" "/library/REVIEW" = false → abspath "/library/REVIEW" ≠ "/" →
     FS.isdir (ensure_directory "/library/REVIEW" Samples.merged).2
       (abspath "/library/REVIEW") = true).
Proof.
  apply (ensure_directory_creates "/library/REVIEW" Samples.merged).
  apply surjective_pairing.
Defined.

End Directories.

(** ** Moving a directory *)

Section Renaming.
Import os_path.

Lemma prefix_app a p : String.prefix a p = true → ∃ t, p = a +:+ t.
Proof.
  revert p. induction a as [|c a IH]; intros p; cbn [String.prefix].
  { intros _. by exists p. }
  destruct p as [|d p]; cbn [String.prefix]; [done|].
  destruct (ascii_dec c d) as [->|]; [|done].
  intros (t & ->)%IH. by exists t.
Qed.

Lemma app_prefix a t : String.prefix a (a +:+ t) = true.
Proof.
  induction a as [|c a IH]; [by destruct t|]. rewrite app_cons_str. cbn [String.prefix].
  by destruct (ascii_dec c c).
Qed.

Lemma length_app_str a t :
  String.length (a +:+ t) = (String.length a + String.length t)%nat.
Proof.
  induction a as [|c a IH]; [reflexivity|]. rewrite app_cons_str. cbn [String.length].
  by rewrite IH.
Qed.

Lemma substring_all t : String.substring 0 (String.length t) t = t.
Proof. induction t as [|c t IH]; cbn; [done|]. by rewrite IH. Qed.

Lemma substring_app a t :
  String.substring (String.length a) (String.length (a +:+ t) - String.length a) (a +:+ t) = t.
Proof.
  rewrite length_app_str.
  replace (String.length a + String.length t - String.length a)%nat
    with (String.length t) by lia.
  induction a as [|c a IH]; [apply substring_all|].
  rewrite app_cons_str. cbn [String.length String.substring]. apply IH.
Qed.

Lemma within_refl d : FS.within d d = true.
Proof. unfold FS.within. by rewrite String.eqb_refl. Qed.

Lemma within_inv d p : FS.within d p = true → p = d ∨ ∃ t, p = d +:+ "/" +:+ t.
Proof.
  unfold FS.within. intros [H|H]%orb_true_iff.
  - left. by apply String.eqb_eq.
  - right. apply prefix_app in H as [t ->]. exists t. by rewrite app_assoc_str.
Qed.

Lemma rebase_self src dst : FS.rebase src dst src = dst.
Proof.
  unfold FS.rebase. rewrite Nat.sub_diag.
  assert (∀ n s, String.substring n 0 s = "") as ->.
  { intros n s. revert n. induction s as [|c s IH]; intros [|n]; cbn; try done. }
  apply app_nil_r_str.
Qed.

Lemma rebase_below src dst t :
  FS.rebase src dst (src +:+ "/" +:+ t) = dst +:+ "/" +:+ t.
Proof. unfold FS.rebase. by rewrite substring_app. Qed.

Lemma within_rebase src dst p :
  FS.within src p = true → FS.within dst (FS.rebase src dst p) = true.
Proof.
  intros [-> | [t ->]]%within_inv.
  - rewrite rebase_self. apply within_refl.
  - rewrite rebase_below. unfold FS.within. rewrite <- app_assoc_str, app_prefix.
    apply orb_true_r.
Qed.

Lemma rebase_dst src dst p :
  FS.within src p = true → FS.rebase src dst p = dst → p = src.
Proof.
  intros [-> | [t ->]]%within_inv; [done|]. rewrite rebase_below.
  intros E. apply (f_equal String.length) in E. rewrite length_app_str in E.
  rewrite app_cons_str in E. cbn [String.length] in E. lia.
Qed.

Lemma vacant_lookup fs p q n :
  FS.vacant fs p = true → fs !! q = Some n → FS.within p q = false.
Proof.
  unfold FS.vacant. rewrite forallb_forall. intros H Hq.
  specialize (H (q, n)). cbn in H. apply negb_true_iff, H, list_elem_of_In.
  by apply elem_of_map_to_list.
Qed.

(** What a renamed directory leaves where it is: the paths that lie
    neither in the directory nor at its new place. *)
Lemma rename_tree_other fs src dst p :
  FS.within src p = false → FS.within dst p = false →
  FS.rename_tree fs src dst !! p = fs !! p.
Proof.
  intros Hs Hd. unfold FS.rename_tree.
  apply (map_fold_weak_ind (λ r m, r !! p = m !! p)); [done|].
  intros i x m r Hi IH. destruct (FS.within src i) eqn:Ei.
  - rewrite !lookup_insert_ne; [done|..].
    + intros ->. congruence.
    + intros <-. apply (within_rebase src dst) in Ei. congruence.
  - destruct (decide (i = p)) as [->|]; [by rewrite !lookup_insert_eq|].
    by rewrite !lookup_insert_ne.
Qed.

(** The directory is found at its new path. *)
Lemma rename_tree_dst fs src dst :
  FS.vacant fs dst = true →
  FS.rename_tree fs src dst !! dst = fs !! src.
Proof.
  intros Hv. unfold FS.rename_tree.
  assert (∀ q n, fs !! q = Some n → FS.within dst q = false) as Hfree
    by (intros q n; by apply vacant_lookup).
  clear Hv. revert Hfree.
  apply (map_fold_weak_ind
           (λ r m, (∀ q n, m !! q = Some n → FS.within dst q = false) → r !! dst = m !! src));
    [done|].
  intros i x m r Hi IH Hfree.
  assert (r !! dst = m !! src) as IH'.
  { apply IH. intros q n Hq. apply (Hfree q n).
    rewrite lookup_insert_ne; [done|]. intros ->. congruence. }
  destruct (FS.within src i) eqn:Ei.
  - destruct (decide (i = src)) as [->|Hne].
    + by rewrite rebase_self, !lookup_insert_eq.
    + rewrite !lookup_insert_ne; [done|congruence|].
      intros E. by apply rebase_dst in E.
  - assert (i ≠ src) by (intros ->; by rewrite within_refl in Ei).
    assert (i ≠ dst).
    { intros ->. specialize (Hfree dst x (lookup_insert_eq _ _ _)).
      by rewrite within_refl in Hfree. }
    by rewrite !lookup_insert_ne.
Qed.

(** Nothing is left at the old path. *)
Lemma rename_tree_src fs src dst :
  FS.within dst src = false →
  FS.rename_tree fs src dst !! src = None.
Proof.
  intros Hd. unfold FS.rename_tree.
  apply (map_fold_weak_ind (λ r (m : FS.t), r !! src = None)); [done|].
  intros i x m r Hi IH. destruct (FS.within src i) eqn:Ei.
  - rewrite lookup_insert_ne; [done|].
    intros E. apply (within_rebase src dst) in Ei. congruence.
  - rewrite lookup_insert_ne; [done|]. intros ->. by rewrite within_refl in Ei.
Qed.

(** A move leaves the digest read at a path that is not the source, nor
    below a source that is a directory; the destination is written with
    what the source held. *)
Lemma read_digest_move fs src dst fs' p h :
  FS.move fs src dst = Some fs' →
  FS.read_digest fs p = Some h → p ≠ src →
  (fs !! src = Some FS.Dir → FS.within src p = false) →
  (p = dst → FS.read_digest fs src = Some h) →
  FS.read_digest fs' p = Some h.
Proof.
  unfold FS.move. intros Hm Hp Hne Hin Hd.
  destruct (fs !! src) as [n|] eqn:Es; [|done].
  assert (n = FS.Dir ∨ fs' = <[dst := n]> (delete src fs)) as [-> | ->].
  { destruct n; [right|by left|right]; repeat case_match; congruence. }
  - destruct (FS.vacant fs dst) eqn:Ev; [|done]. cbn [negb] in Hm.
    repeat case_match; try done. injection Hm as <-.
    unfold FS.read_digest in *.
    destruct (fs !! p) as [np|] eqn:Ep; [|done].
    rewrite rename_tree_other, Ep; [done|by apply Hin|by eapply vacant_lookup].
  - unfold FS.read_digest in *. destruct (decide (p = dst)) as [->|Hpd].
    + rewrite lookup_insert_eq. specialize (Hd eq_refl). by rewrite Es in Hd.
    + by rewrite lookup_insert_ne, lookup_delete_ne.
Qed.

(** After a move the destination holds what the source held, and the
    source is gone unless it was moved onto itself. *)
Lemma move_lookup fs src dst fs' :
  FS.move fs src dst = Some fs' →
  fs' !! dst = fs !! src ∧ (dst ≠ src → fs' !! src = None).
Proof.
  unfold FS.move. intros Hm.
  destruct (fs !! src) as [n|] eqn:Es; [|done].
  assert (n = FS.Dir ∨ fs' = <[dst := n]> (delete src fs)) as [-> | ->].
  { destruct n; [right|by left|right]; repeat case_match; congruence. }
  - destruct (FS.vacant fs dst) eqn:Ev; [|done]. cbn [negb] in Hm.
    repeat case_match; try done. injection Hm as <-. split.
    + by rewrite rename_tree_dst.
    + intros _. apply rename_tree_src. by eapply vacant_lookup.
  - split; [by rewrite lookup_insert_eq|].
    intros Hne. by rewrite lookup_insert_ne, lookup_delete_eq.
Qed.

Example move_directory :
  FS.move Samples.incoming "/in" "/library/in"
  = Some (list_to_map [("/", FS.Dir); ("/library", FS.Dir); ("/library/in", FS.Dir);
                       ("/library/in/m.jpg", FS.File "d-new")]).
Proof. vm_refl. Qed.

(** A directory is not moved to a path inside it. *)
Lemma move_into_itself fs src dst :
  fs !! src = Some FS.Dir → parts src `prefix_of` parts dst → FS.move fs src dst = None.
Proof.
  intros Hs Hp. unfold FS.move. rewrite Hs.
  repeat case_match; try done. by case_bool_decide.
Qed.

End Renaming.

(** ** Safe moves *)

Section SafeMove.
Import os_path NormalPath utils.

Lemma dirname_root init : is_root init → dirname init = init.
Proof. by intros [-> | ->]. Qed.

Lemma abspath_dirname p : abspath (dirname (abspath p)) = dirname (abspath p).
Proof.
  destruct (abspath_is_rooted p) as (init & cs & Hi & Hcs & ->).
  destruct cs as [|c cs _] using rev_ind.
  - unfold rooted. cbn [Text.join]. rewrite app_nil_r_str, dirname_root by done.
    destruct Hi as [-> | ->]; reflexivity.
  - apply Forall_app in Hcs as [Hcs [Hc _]%Forall_cons].
    rewrite dirname_rooted by (done || apply Hc). by apply abspath_rooted.
Qed.

Lemma makedirs_chain_new fs ps p n :
  (FS.makedirs_chain fs ps).2 !! p = Some n →
  fs !! p = Some n ∨ fs !! p = None ∧ n = FS.Dir ∧ p ∈ ps.
Proof.
  revert fs. induction ps as [|q ps IH]; intros fs Hp; [by left|]. cbn in Hp.
  destruct (fs !! q) as [[| |o []]|] eqn:Eq; try (by left);
    try (apply IH in Hp as [Hp|(Hp & -> & Hin)]; [by left|right; split_and!; [done..|by right]]).
  apply IH in Hp as [Hp|(Hp & -> & Hin)].
  - destruct (decide (q = p)) as [->|Hne].
    + rewrite lookup_insert_eq in Hp. injection Hp as <-. right. split_and!; [done..|left].
    + rewrite lookup_insert_ne in Hp by done. by left.
  - destruct (decide (q = p)) as [->|Hne].
    + by rewrite lookup_insert_eq in Hp.
    + rewrite lookup_insert_ne in Hp by done. right. split_and!; [done..|by right].
Qed.

Lemma prefixes_prefix (l segs : list string) : segs ∈ FS.prefixes l → segs `prefix_of` l.
Proof.
  revert segs. induction l as [|x l IH]; intros segs; cbn; [by intros ?%elem_of_nil|].
  intros [->|Hin]%elem_of_cons.
  - apply prefix_cons. by exists l.
  - apply list_elem_of_fmap in Hin as (s' & -> & Hs'). by apply prefix_cons, IH.
Qed.

(** The directories made on the way to a path lie above it. *)
Lemma chain_prefix init cs q :
  is_root init → Forall simple cs → q ∈ FS.chain (rooted init cs) → parts q `prefix_of` cs.
Proof.
  intros Hi Hcs. unfold FS.chain. rewrite parts_rooted by done.
  intros (segs & -> & Hs%prefixes_prefix)%list_elem_of_fmap.
  fold (rooted "/" segs). rewrite parts_rooted; [done|by left|].
  destruct Hs as [k ->]. by apply Forall_app in Hcs as [? _].
Qed.

Lemma parts_dirname p : parts (dirname (abspath p)) `prefix_of` parts (abspath p).
Proof.
  destruct (abspath_is_rooted p) as (init & cs & Hi & Hcs & ->).
  destruct cs as [|c cs _] using rev_ind.
  - unfold rooted. cbn [Text.join]. rewrite app_nil_r_str.
    by rewrite dirname_root.
  - apply Forall_app in Hcs as [Hcs [Hc _]%Forall_cons].
    rewrite dirname_rooted by (done || apply Hc).
    rewrite (parts_rooted init cs), (parts_rooted init (cs ++ [c])); try done.
    + by apply prefix_app_r.
    + apply Forall_app. split; [done|]. by apply Forall_cons_2.
Qed.

(** A directory made on the way to the destination is not moved there. *)
Lemma move_made_directory fs fs1 src p :
  FS.makedirs fs (dirname (abspath p)) = (true, fs1) →
  fs !! src = None → fs1 !! src = Some FS.Dir →
  FS.move fs1 src (abspath p) = None.
Proof.
  intros Hmk Hs Hs1. apply move_into_itself; [done|].
  transitivity (parts (dirname (abspath p))); [|apply parts_dirname].
  pose proof (makedirs_chain_new fs (FS.chain (dirname (abspath p))) src FS.Dir) as Hnew.
  fold (FS.makedirs fs (dirname (abspath p))) in Hnew. rewrite Hmk in Hnew.
  destruct (Hnew Hs1) as [?|(_ & _ & Hin)]; [congruence|].
  destruct (abspath_is_rooted p) as (init & cs & Hi & Hcs & E). rewrite E in Hin |- *.
  destruct cs as [|c cs _] using rev_ind.
  - unfold rooted in Hin. cbn [Text.join] in Hin. rewrite app_nil_r_str in Hin.
    rewrite dirname_root in Hin by done.
    destruct Hi as [-> | ->]; by apply elem_of_nil in Hin.
  - apply Forall_app in Hcs as [Hcs [Hc _]%Forall_cons].
    rewrite dirname_rooted in Hin |- * by (done || apply Hc).
    rewrite parts_rooted by done. by eapply chain_prefix.
Qed.

Lemma read_digest_makedirs fs d p h :
  FS.read_digest fs p = Some h → FS.read_digest (FS.makedirs fs d).2 p = Some h.
Proof.
  unfold FS.read_digest, FS.makedirs. destruct (fs !! p) as [n|] eqn:E; [|done].
  by rewrite (makedirs_chain_preserves _ _ _ _ E).
Qed.

(** The last step of [safe_move]: the move and its verification. *)
Lemma move_and_verify_digests fs src target r fs' p h :
  move_and_verify src target fs = (r, fs') →
  FS.read_digest fs p = Some h → FS.within src p = false →
  (p = target → FS.read_digest fs src = Some h) →
  FS.read_digest fs' p = Some h.
Proof.
  unfold move_and_verify. intros H Hp Hin Ht.
  destruct (FS.move fs src target) as [fs2|] eqn:Em.
  - assert (fs' = fs2) as -> by (destruct (FS.exists_ fs2 target); congruence).
    eapply read_digest_move; [exact Em|done| |done|done].
    intros ->. by rewrite within_refl in Hin.
  - by injection H as _ <-.
Qed.

Lemma safe_move_digests src dst allowed_root fs r fs' p h :
  safe_move src dst allowed_root fs = (r, fs') →
  FS.read_digest fs p = Some h → FS.within (abspath src) p = false →
  FS.read_digest fs' p = Some h.
Proof.
  unfold safe_move. destruct (String.eqb allowed_root "") eqn:Er.
  { by intros [= _ <-]. }
  rewrite join_dirname_basename.
  unfold mbind, M_bind, _ensure_safe, ensure_directory, get_fs, compute_sha256, pure, raise.
  rewrite !abspath_idempotent, abspath_dirname.
  set (X := abspath dst). set (dir := dirname X).
  intros H Hp Hne.
  destruct (path_violation_message fs dir _); [by injection H as _ <-|].
  pose proof (read_digest_makedirs fs dir p h Hp) as Hp1.
  destruct (FS.makedirs fs dir) as [b fs1]. cbn [snd] in Hp1.
  destruct b; [|by injection H as _ <-].
  destruct (path_violation_message fs1 X _); [by injection H as _ <-|].
  destruct (FS.exists_ fs1 X) eqn:Eex.
  - destruct (FS.read_digest fs1 (abspath src)) as [hs|] eqn:Ehs; cbn [or_raise] in H;
      [|by injection H as _ <-].
    destruct (FS.read_digest fs1 X) as [hd|] eqn:Ehd; cbn [or_raise] in H;
      [|by injection H as _ <-].
    destruct (String.eqb_spec hs hd) as [->|Hdiff]; cbn [negb] in H.
    + eapply move_and_verify_digests; [exact H|done..|]. intros ->. congruence.
    + destruct (splitext (basename X)) as [base ext].
      destruct (FS.exists_ fs1 (join dir _)) eqn:Esx; [by injection H as _ <-|].
      destruct (path_violation_message fs1 (join dir _) _); [by injection H as _ <-|].
      eapply move_and_verify_digests; [exact H|done..|]. intros ->.
      apply read_digest_exists in Hp1. congruence.
  - destruct (path_violation_message fs1 X _); [by injection H as _ <-|].
    eapply move_and_verify_digests; [exact H|done..|]. intros ->.
    apply read_digest_exists in Hp1. congruence.
Qed.

(** X6. In a filesystem without symbolic links, whatever [safe_move]
    returns or raises, every file outside the artefact directory that is
    not the source, nor below a source that is a directory, still reads with
    the digest it had: a file already at the destination is replaced only
    by a source with the same digest. *)
Theorem safe_move_never_overwrites src dst allowed_root fs r fs' p h :
  FS.link_free fs = true →
  safe_move src dst allowed_root fs = (r, fs') →
  FS.read_digest fs p = Some h →
  FS.within (abspath src) p = false →
  reporting.outside_artifacts p = true →
  FS.read_digest fs' p = Some h.
Proof. intros _ H Hp Hin _. by eapply safe_move_digests. Qed.

Lemma safe_move_never_overwrites_witness :
  FS.read_digest
    (safe_move "/t/source.txt" "/t/destination.txt" "/t" Scenes.crowded).2
    "/t/destination.txt" = Some "bbb".
Proof.
  apply (safe_move_never_overwrites "/t/source.txt" "/t/destination.txt" "/t"
           Scenes.crowded
           (safe_move "/t/source.txt" "/t/destination.txt" "/t" Scenes.crowded).1).
  - vm_refl.
  - apply surjective_pairing.
  - vm_refl.
  - vm_refl.
  - vm_refl.
Defined.

(** X7. When the destination holds other bytes and the name with the hash
    suffix is taken as well, [safe_move] raises the unresolvable collision
    at once: no further name is tried and nothing is moved. *)
Theorem safe_move_second_collision src dst allowed_root fs fs1 hs hd base ext :
  allowed_root ≠ "" →
  path_violation_message fs (dirname (abspath dst)) allowed_root = None →
  FS.makedirs fs (dirname (abspath dst)) = (true, fs1) →
  path_violation_message fs1 (abspath dst) allowed_root = None →
  FS.read_digest fs1 (abspath src) = Some hs →
  FS.read_digest fs1 (abspath dst) = Some hd →
  hs ≠ hd →
  splitext (basename (abspath dst)) = (base, ext) →
  FS.exists_ fs1 (join (dirname (abspath dst)) (base +:+ "-" +:+ hs +:+ ext)) = true →
  safe_move src dst allowed_root fs = (Err (UnresolvableCollision src dst), fs1).
Proof.
  intros Hr Hv1 Hmk Hv2 Hs Hd Hne Hsp Hex. unfold safe_move.
  destruct (String.eqb_spec allowed_root ""); [done|].
  rewrite join_dirname_basename.
  unfold mbind, M_bind, _ensure_safe, ensure_directory, get_fs, compute_sha256, pure, raise.
  rewrite !abspath_idempotent, abspath_dirname, !path_violation_message_abspath_root.
  rewrite Hv1. cbv beta iota zeta. rewrite Hmk. cbv beta iota zeta.
  rewrite ?path_violation_message_abspath_root, Hv2. cbv beta iota zeta.
  rewrite (read_digest_exists _ _ _ Hd), Hs, Hd.
  cbn [or_raise]. destruct (String.eqb_spec hs hd); [done|]. cbn [negb].
  by rewrite Hsp, Hex.
Qed.

Lemma safe_move_second_collision_witness :
  safe_move "/t/source.txt" "/t/destination.txt" "/t" Scenes.collided
  = (Err (UnresolvableCollision "/t/source.txt" "/t/destination.txt"), Scenes.collided).
Proof.
  apply (safe_move_second_collision "/t/source.txt" "/t/destination.txt" "/t"
           Scenes.collided Scenes.collided "aaa" "bbb" "destination" ".txt").
  - discriminate.
  - vm_refl.
  - vm_refl.
  - vm_refl.
  - vm_refl.
  - vm_refl.
  - discriminate.
  - vm_refl.
  - vm_refl.
Defined.

(** X8. On success the returned path is the destination or the destination
    with the hash suffix, it holds what the source held, and the source is
    gone unless it was moved onto itself. *)
Theorem safe_move_success src dst allowed_root fs target fs' :
  safe_move src dst allowed_root fs = (Ok target, fs') →
  FS.exists_ fs' target = true
  ∧ fs' !! target = fs !! abspath src
  ∧ (target ≠ abspath src → fs' !! abspath src = None)
  ∧ (target = abspath dst
     ∨ ∃ hs, FS.read_digest fs (abspath src) = Some hs
         ∧ target = join (dirname (abspath dst))
                      ((splitext (basename (abspath dst))).1 +:+ "-" +:+ hs
                       +:+ (splitext (basename (abspath dst))).2)).
Proof.
  unfold safe_move. destruct (String.eqb allowed_root "") eqn:Er; [done|].
  rewrite join_dirname_basename.
  unfold mbind, M_bind, _ensure_safe, ensure_directory, get_fs, compute_sha256, pure, raise.
  rewrite !abspath_idempotent, abspath_dirname.
  set (X := abspath dst). set (dir := dirname X).
  intros H.
  destruct (path_violation_message fs dir _); [done|].
  pose proof (makedirs_chain_new fs (FS.chain dir) (abspath src)) as Hnew.
  fold (FS.makedirs fs dir) in Hnew.
  destruct (FS.makedirs fs dir) as [b fs1] eqn:Emk. cbn [snd] in Hnew.
  destruct b; [|done].
  pose proof (move_made_directory fs fs1 (abspath src) dst Emk) as Hmade. fold X in Hmade.
  destruct (path_violation_message fs1 X _); [done|].
  assert (∀ t, t = X ∨ fs1 !! abspath src ≠ Some FS.Dir →
            move_and_verify (abspath src) t fs1 = (Ok target, fs') →
            t = target ∧ FS.exists_ fs' target = true ∧ fs' !! target = fs !! abspath src
            ∧ (target ≠ abspath src → fs' !! abspath src = None)) as Hmove.
  { intros t Ht. unfold move_and_verify.
    destruct (FS.move fs1 (abspath src) t) as [fs2|] eqn:Em; [|done].
    destruct (FS.exists_ fs2 t) eqn:Ex; [|done]. intros [= -> ->].
    destruct (move_lookup _ _ _ _ Em) as [Hdst Hsrc].
    split_and!; try done. rewrite Hdst.
    destruct (fs1 !! abspath src) as [n|] eqn:En.
    - destruct (Hnew n eq_refl) as [->|(Hnone & -> & _)]; [done|].
      destruct Ht as [->|]; [|done]. by rewrite Hmade in Em.
    - unfold FS.move in Em. by rewrite En in Em. }
  destruct (FS.exists_ fs1 X) eqn:Eex.
  - destruct (FS.read_digest fs1 (abspath src)) as [hs|] eqn:Ehs; cbn [or_raise] in H; [|done].
    destruct (FS.read_digest fs1 X) as [hd|] eqn:Ehd; cbn [or_raise] in H; [|done].
    destruct (String.eqb_spec hs hd) as [->|Hdiff]; cbn [negb] in H.
    + apply Hmove in H as (<- & ? & ? & ?); [split_and!; try done; by left|].
      right. unfold FS.read_digest in Ehs. by destruct (fs1 !! abspath src) as [[]|].
    + destruct (splitext (basename X)) as [base ext] eqn:Esp.
      destruct (FS.exists_ fs1 (join dir _)) eqn:Esx; [done|].
      destruct (path_violation_message fs1 (join dir _) _); [done|].
      apply Hmove in H as (<- & ? & E & ?).
      2:{ right. unfold FS.read_digest in Ehs. by destruct (fs1 !! abspath src) as [[]|]. }
      split_and!; try done.
      right. exists hs. split; [|done].
      unfold FS.read_digest in *.
      destruct (fs1 !! abspath src) as [n|] eqn:En; [|done].
      destruct (Hnew n eq_refl) as [->|(_ & -> & _)]; done.
  - destruct (path_violation_message fs1 X _); [done|].
    apply Hmove in H as (<- & ? & ? & ?); [|by left]. split_and!; try done. by left.
Qed.

Lemma safe_move_success_witness :
  FS.exists_ (safe_move "/t/source.txt" "/t/destination.txt" "/t" Scenes.crowded).2
    "/t/destination-aaa.txt" = true
  ∧ (safe_move "/t/source.txt" "/t/destination.txt" "/t" Scenes.crowded).2
      !! "/t/destination-aaa.txt" = Scenes.crowded !! abspath "/t/source.txt"
  ∧ ("/t/destination-aaa.txt" ≠ abspath "/t/source.txt" →
     (safe_move "/t/source.txt" "/t/destination.txt" "/t" Scenes.crowded).2
       !! abspath "/t/source.txt" = None)
  ∧ ("/t/destination-aaa.txt" = abspath "/t/destination.txt"
     ∨ ∃ hs, FS.read_digest Scenes.crowded (abspath "/t/source.txt") = Some hs
         ∧ "/t/destination-aaa.txt"
           = join (dirname (abspath "/t/destination.txt"))
               ((splitext (basename (abspath "/t/destination.txt"))).1 +:+ "-" +:+ hs
                +:+ (splitext (basename (abspath "/t/destination.txt"))).2)).
Proof.
  apply (safe_move_success "/t/source.txt" "/t/destination.txt" "/t" Scenes.crowded).
  vm_refl.
Defined.

End SafeMove.

(** ** Distance and symmetry of the near-duplicate test *)

Section Distance.
Import hashing duplicates.

Lemma pos_bit_count_pos p : 0 < pos_bit_count p.
Proof. induction p; cbn; lia. Qed.

Lemma bit_count_nonneg n : 0 ≤ bit_count n.
Proof. destruct n as [|p|p]; cbn; [done|..]; pose proof (pos_bit_count_pos p); lia. Qed.

Lemma ascii_eqb_sym x y : Ascii.eqb x y = Ascii.eqb y x.
Proof. destruct (Ascii.eqb_spec x y), (Ascii.eqb_spec y x); congruence. Qed.

Lemma char_differences_sym a b : char_differences a b = char_differences b a.
Proof.
  revert b. induction a as [|x a IH]; intros [|y b]; cbn; try done.
  by rewrite IH, ascii_eqb_sym.
Qed.

Lemma char_differences_nonneg a b : 0 ≤ char_differences a b.
Proof.
  revert b. induction a as [|x a IH]; intros [|y b]; cbn; try done.
  specialize (IH b). destruct (Ascii.eqb x y); lia.
Qed.

Lemma char_differences_refl a : char_differences a a = 0.
Proof. induction a as [|x a IH]; cbn; [done|]. by rewrite Ascii.eqb_refl, IH. Qed.

Lemma char_differences_zero a b :
  String.length a = String.length b → char_differences a b = 0 → a = b.
Proof.
  revert b. induction a as [|x a IH]; intros [|y b]; cbn; try done.
  intros [= Hl] H. pose proof (char_differences_nonneg a b).
  destruct (Ascii.eqb_spec x y) as [->|]; [|lia]. f_equal. apply IH; [done|lia].
Qed.

Lemma phash_distance_sym a b : phash_distance a b = phash_distance b a.
Proof.
  unfold phash_distance. destruct (int16 a), (int16 b); try by rewrite Z.lxor_comm.
  all: rewrite (Z.eqb_sym (len a)), Z.max_comm, char_differences_sym; done.
Qed.

(** X10. The distance between perceptual hashes is symmetric, never
    negative and zero between a hash and itself. *)
Theorem phash_distance_metric a b :
  phash_distance a b = phash_distance b a
  ∧ 0 ≤ phash_distance a b
  ∧ phash_distance a a = 0.
Proof.
  split_and!; [apply phash_distance_sym|unfold phash_distance..].
  - destruct (int16 a), (int16 b); try apply bit_count_nonneg.
    all: destruct (len a =? len b); cbn [negb];
      [apply char_differences_nonneg|unfold len; lia].
  - destruct (int16 a); [by rewrite Z.lxor_nilpotent|].
    by rewrite Z.eqb_refl, char_differences_refl.
Qed.

Lemma sub_microseconds_opp a b :
  datetime.sub_microseconds a b = - datetime.sub_microseconds b a.
Proof. unfold datetime.sub_microseconds. lia. Qed.

Lemma area_ratio_sym x y : area_ratio x y = area_ratio y x.
Proof. unfold area_ratio. by rewrite Z.max_comm, Z.min_comm. Qed.

Lemma near_duplicate_diagnostics_sym a b sensitivity :
  near_duplicate_diagnostics a b sensitivity = near_duplicate_diagnostics b a sensitivity.
Proof.
  unfold near_duplicate_diagnostics.
  destruct (SENSITIVITY_THRESHOLDS !!! _normalize_sensitivity sensitivity) as [strong weak].
  rewrite (orb_comm (negb (truthy (FileInfo.phash a)))).
  destruct (negb (truthy (FileInfo.phash b)) || negb (truthy (FileInfo.phash a))); [done|].
  rewrite (phash_distance_sym (default "" (FileInfo.phash a))).
  destruct (_ <=? strong); [done|]. destruct (_ && _); [|done].
  destruct (FileInfo.resolution a) as [ra|], (FileInfo.resolution b) as [rb|]; try done.
  rewrite (orb_comm (area ra =? 0)). destruct (_ || _); [done|].
  rewrite (area_ratio_sym (area ra)). destruct (negb _); [done|].
  destruct (FileInfo.exif_datetime a) as [ta|], (FileInfo.exif_datetime b) as [tb|];
    try done.
  rewrite (sub_microseconds_opp ta tb), Z.abs_opp. destruct (_ <? _); [done|].
  rewrite (andb_comm (truthy (FileInfo.exif_camera a))).
  destruct (FileInfo.exif_camera a) as [ca|], (FileInfo.exif_camera b) as [cb|];
    cbn [truthy andb]; try done.
  - destruct (decide (ca = cb)) as [->|Hne]; [done|].
    rewrite !bool_decide_eq_false_2 by congruence. done.
Qed.

Lemma are_near_duplicates_sym a b sensitivity :
  are_near_duplicates a b sensitivity = are_near_duplicates b a sensitivity.
Proof. unfold are_near_duplicates. by rewrite near_duplicate_diagnostics_sym. Qed.

(** X11. The near-duplicate decision and everything reported with it (the
    reason code, the sensitivity, the distance) do not depend on the order
    of the two records. *)
Theorem near_duplicates_symmetric a b sensitivity :
  near_duplicate_diagnostics a b sensitivity = near_duplicate_diagnostics b a sensitivity
  ∧ are_near_duplicates a b sensitivity = are_near_duplicates b a sensitivity.
Proof. split; [apply near_duplicate_diagnostics_sym|apply are_near_duplicates_sym]. Qed.

End Distance.

(** ** Sensitivity tiers *)

Section Tiers.
Import hashing duplicates.

Lemma thresholds_ordered s strong weak :
  SENSITIVITY_THRESHOLDS !! s = Some (strong, weak) → strong ≤ weak.
Proof.
  unfold SENSITIVITY_THRESHOLDS. cbn [list_to_map foldr].
  intros H. repeat (apply lookup_insert_Some in H as [[_ H]|[_ H]]; [injection H as <- <-; done|]).
  by rewrite lookup_empty in H.
Qed.

Lemma normalize_is_tier value :
  is_Some (SENSITIVITY_THRESHOLDS !! _normalize_sensitivity value).
Proof.
  unfold _normalize_sensitivity. destruct value as [v|]; [|by vm_compute; eauto].
  destruct (String.eqb v ""); [by vm_compute; eauto|].
  case_bool_decide as H; [|by vm_compute; eauto].
  rewrite !elem_of_cons, elem_of_nil in H.
  destruct H as [->|[->|[->|[]]]]; vm_compute; eauto.
Qed.

(** X12. With wider thresholds every pair accepted stays accepted: what the
    conservative tier calls near-duplicates the balanced tier does too, and
    what the balanced tier accepts the aggressive tier accepts. *)
Theorem near_duplicates_monotone a b s1 s2 :
  (SENSITIVITY_THRESHOLDS !!! _normalize_sensitivity s1).1
    ≤ (SENSITIVITY_THRESHOLDS !!! _normalize_sensitivity s2).1 →
  (SENSITIVITY_THRESHOLDS !!! _normalize_sensitivity s1).2
    ≤ (SENSITIVITY_THRESHOLDS !!! _normalize_sensitivity s2).2 →
  are_near_duplicates a b s1 = true → are_near_duplicates a b s2 = true.
Proof.
  unfold are_near_duplicates, near_duplicate_diagnostics.
  destruct (normalize_is_tier s1) as [[st1 wk1] E1].
  destruct (normalize_is_tier s2) as [[st2 wk2] E2].
  pose proof (thresholds_ordered _ _ _ E2) as Ho2.
  rewrite !lookup_total_alt, E1, E2. cbv [default from_option id fst snd]. intros Hst Hwk.
  destruct (negb (truthy (FileInfo.phash a)) || negb (truthy (FileInfo.phash b))); [done|].
  set (d := phash_distance _ _).
  destruct (Z.leb_spec d st1), (Z.leb_spec d st2); try done; try lia.
  all: destruct (Z.ltb_spec st1 d), (Z.leb_spec d wk1); cbn [andb]; try done; try lia.
  all: destruct (Z.ltb_spec st2 d), (Z.leb_spec d wk2); cbn [andb]; try done; try lia.
  repeat case_match; done.
Qed.

Lemma near_duplicates_monotone_witness :
  are_near_duplicates Samples.shot_a Samples.shot_b (Some "balanced") = true.
Proof.
  apply (near_duplicates_monotone Samples.shot_a Samples.shot_b
           (Some "conservative") (Some "balanced")).
  - by vm_compute.
  - by vm_compute.
  - vm_refl.
Defined.

Lemma normalize_sensitivity_tier value :
  _normalize_sensitivity value ∈ ["conservative"; "balanced"; "aggressive"].
Proof.
  unfold _normalize_sensitivity. destruct value as [v|]; [|set_solver].
  destruct (String.eqb v ""); [set_solver|].
  case_bool_decide as H; [done|set_solver].
Qed.

Lemma normalize_sensitivity_idempotent value :
  _normalize_sensitivity (Some (_normalize_sensitivity value)) = _normalize_sensitivity value.
Proof.
  pose proof (normalize_sensitivity_tier value) as H.
  rewrite !elem_of_cons, elem_of_nil in H.
  destruct H as [->|[->|[->|[]]]]; reflexivity.
Qed.

Lemma are_near_duplicates_normalized a b sensitivity :
  are_near_duplicates a b (Some (_normalize_sensitivity sensitivity))
  = are_near_duplicates a b sensitivity.
Proof.
  unfold are_near_duplicates, near_duplicate_diagnostics.
  by rewrite normalize_sensitivity_idempotent.
Qed.

(** X13. Normalising a sensitivity yields one of the three tiers, each of
    which has its thresholds, and a normalised sensitivity is left as it
    is: passing it on, as the grouping does, changes no decision. *)
Theorem normalize_sensitivity_fixpoint value :
  _normalize_sensitivity value ∈ ["conservative"; "balanced"; "aggressive"]
  ∧ is_Some (SENSITIVITY_THRESHOLDS !! _normalize_sensitivity value)
  ∧ _normalize_sensitivity (Some (_normalize_sensitivity value))
    = _normalize_sensitivity value
  ∧ ∀ a b, are_near_duplicates a b (Some (_normalize_sensitivity value))
           = are_near_duplicates a b value.
Proof.
  split_and!.
  - apply normalize_sensitivity_tier.
  - apply normalize_is_tier.
  - apply normalize_sensitivity_idempotent.
  - intros. apply are_near_duplicates_normalized.
Qed.

End Tiers.

(** ** The master is a member *)

Section Master.
Import duplicates.

Lemma select_loop_member master reason files :
  (select_loop master reason files).1 ∈ master :: files.
Proof.
  revert master reason. induction files as [|f files IH]; intros master reason; cbn.
  - left.
  - destruct (is_better f master) as [better r]. destruct better.
    + right. apply IH.
    + specialize (IH master (match r with Some _ => r | None => reason end)).
      apply elem_of_cons in IH as [->|IH]; [left|right; by right].
Qed.

(** X14. The master of a cluster is one of its files, with nothing but the
    selection reason changed; only an empty cluster has none. *)
Theorem select_master_member cluster :
  match select_master cluster with
  | Ok master =>
      ∃ f, f ∈ DuplicateCluster.files cluster
        ∧ master = FileInfo.set_selection_reason (FileInfo.selection_reason master) f
  | Err e => e = DuplicateDetectionError ∧ DuplicateCluster.files cluster = []
  end.
Proof.
  unfold select_master, chosen_master.
  destruct (DuplicateCluster.files cluster) as [|first rest]; [done|].
  pose proof (select_loop_member first None rest) as H.
  destruct (select_loop first None rest) as [m r]. cbn [fst] in H. eauto.
Qed.

End Master.

(** ** Union-find *)

Section UnionFindProps.
Import duplicates Forest.
Import UnionFind.

Lemma repr_root_end P x r : repr P x r → P !! r = Some r.
Proof. induction 1; done. Qed.

Lemma repr_fun P x r r' : repr P x r → repr P x r' → r = r'.
Proof.
  intros H. revert r'. induction H as [x Hx|x p r Hx Hne H IH]; intros r' H'.
  - inversion H' as [|? p ? Hp Hne]; [done|]. congruence.
  - inversion H' as [? Hx'|? p' ? Hp Hne' H'']; subst.
    + congruence.
    + apply IH. congruence.
Qed.

Lemma repr_is_Some P x r : repr P x r → is_Some (P !! x).
Proof. destruct 1; eauto. Qed.

Lemma repr_rank P rank x r :
  (∀ x p, P !! x = Some p → p ≠ x → (rk rank x < rk rank p)%nat) →
  repr P x r → x ≠ r → (rk rank x < rk rank r)%nat.
Proof.
  intros Hr. induction 1 as [x Hx|x p r Hx Hne H IH]; [done|]. intros _.
  specialize (Hr x p Hx Hne). destruct (decide (p = r)) as [->|Hpr]; [done|].
  specialize (IH Hpr). lia.
Qed.

(** Path compression keeps the root of every element. *)
Lemma repr_compress P x r :
  repr P x r → P !! x ≠ Some x → ∀ y s, repr P y s ↔ repr (<[x := r]> P) y s.
Proof.
  intros Hx Hnr.
  assert (r ≠ x) as Hrx by (intros ->; by apply repr_root_end in Hx).
  assert (repr (<[x := r]> P) r r) as Hr'.
  { apply repr_root. rewrite lookup_insert_ne by done. by eapply repr_root_end. }
  intros y s. split.
  - induction 1 as [y Hy|y p s Hy Hne H IH].
    + apply repr_root. rewrite lookup_insert_ne; [done|]. congruence.
    + destruct (decide (x = y)) as [->|Hxy].
      * assert (s = r) as -> by (eapply repr_fun; [|exact Hx]; by eapply repr_step).
        eapply repr_step; [apply lookup_insert_eq|done|done].
      * eapply repr_step; [by rewrite lookup_insert_ne|done|done].
  - induction 1 as [y Hy|y p s Hy Hne H IH].
    + destruct (decide (x = y)) as [->|Hxy].
      * rewrite lookup_insert_eq in Hy. congruence.
      * rewrite lookup_insert_ne in Hy by done. by apply repr_root.
    + destruct (decide (x = y)) as [->|Hxy].
      * rewrite lookup_insert_eq in Hy. injection Hy as <-.
        assert (s = r) as ->; [|done].
        eapply repr_fun; [exact IH|]. apply repr_root. by eapply repr_root_end.
      * rewrite lookup_insert_ne in Hy by done. by eapply repr_step.
Qed.

(** Linking the root [a] below the root [b] sends the class of [a] to [b]
    and leaves the other roots alone. *)
Lemma repr_link P a b :
  P !! a = Some a → P !! b = Some b → a ≠ b →
  ∀ y s, repr P y s → repr (<[a := b]> P) y (if decide (s = a) then b else s).
Proof.
  intros Ha Hb Hne y s. induction 1 as [y Hy|y p s Hy Hpy H IH].
  - destruct (decide (y = a)) as [->|Hya].
    + eapply repr_step; [apply lookup_insert_eq|done|].
      apply repr_root. by rewrite lookup_insert_ne.
    + apply repr_root. by rewrite lookup_insert_ne.
  - eapply repr_step; [|done|done].
    rewrite lookup_insert_ne; [done|]. intros <-. congruence.
Qed.

Lemma max_rank_ge rank x r : rank !! x = Some r → (r ≤ max_rank rank)%nat.
Proof.
  unfold max_rank. revert x r.
  apply (map_fold_weak_ind (λ acc m, ∀ x r, m !! x = Some r → (r ≤ acc)%nat)).
  - intros x r. by rewrite lookup_empty.
  - intros i v m acc Hi IH x r. destruct (decide (i = x)) as [->|Hne].
    + rewrite lookup_insert_eq. intros [= ->]. lia.
    + rewrite lookup_insert_ne by done. intros H%IH. lia.
Qed.

Lemma rk_le_max rank x : (rk rank x ≤ max_rank rank)%nat.
Proof.
  unfold rk. destruct (rank !! x) as [r|] eqn:E; cbn; [by eapply max_rank_ge|lia].
Qed.

(** The bound on the depth of [find] is never reached. *)
Lemma find_rec_total uf fuel x :
  wf uf → is_Some (parent uf !! x) →
  (max_rank (rank uf) - rk (rank uf) x < fuel)%nat →
  is_Some (find_rec fuel (parent uf) x).
Proof.
  intros Hwf. revert x. induction fuel as [|n IH]; intros x [p Hp] Hf; [lia|].
  cbn. rewrite Hp. cbn. destruct (String.eqb_spec p x) as [->|Hne]; [done|].
  pose proof (wf_rank uf Hwf x p Hp Hne) as Hr.
  pose proof (rk_le_max (rank uf) p) as Hm.
  destruct (IH p) as [[P' r] ->]; [by eapply wf_closed|lia|]. done.
Qed.

Lemma find_rec_spec fuel P x P' r :
  find_rec fuel P x = Some (P', r) →
  repr P x r
  ∧ (∀ y s, repr P y s ↔ repr P' y s)
  ∧ (∀ y, is_Some (P' !! y) ↔ is_Some (P !! y))
  ∧ (∀ y q, P' !! y = Some q → P !! y = Some q ∨ repr P y q).
Proof.
  revert x P' r. induction fuel as [|n IH]; intros x P' r; [done|]. cbn.
  destruct (P !! x) as [p|] eqn:Hp; [|done]. cbn.
  destruct (String.eqb_spec p x) as [->|Hne].
  - intros [= <- <-]. split_and!; try done; [by apply repr_root|by left].
  - destruct (find_rec n P p) as [[P'' r']|] eqn:Ef; [|done]. cbn. intros [= <- <-].
    destruct (IH _ _ _ Ef) as (Hr & Heq & Hk & Hl).
    assert (repr P x r') as Hx by (by eapply repr_step).
    assert (P'' !! x ≠ Some x) as Hnr.
    { intros Hxx. assert (repr P x x) as Hxr by (apply Heq; by apply repr_root).
      pose proof (repr_fun _ _ _ _ Hx Hxr) as ->.
      apply repr_root_end in Hx. congruence. }
    split_and!; [done|..].
    + intros y s. rewrite Heq. apply repr_compress; [by apply Heq|done].
    + intros y. destruct (decide (x = y)) as [->|Hxy].
      * rewrite lookup_insert_eq, Hp. split; eauto.
      * rewrite lookup_insert_ne by done. apply Hk.
    + intros y q. destruct (decide (x = y)) as [->|Hxy].
      * rewrite lookup_insert_eq. intros [= <-]. by right.
      * rewrite lookup_insert_ne by done. apply Hl.
Qed.

Lemma same_equiv uf uf' :
  (∀ y s, repr (parent uf) y s ↔ repr (parent uf') y s) →
  ∀ a b, same uf a b ↔ same uf' a b.
Proof.
  intros H a b. unfold same. split; intros (r & Ha & Hb); exists r; split; by apply H.
Qed.

(** [find] succeeds on every element, returns the root of its class and
    keeps the invariant, the elements and the classes. *)
Lemma find_spec uf x :
  wf uf → is_Some (parent uf !! x) →
  ∃ uf' r, find uf x = Some (uf', r)
    ∧ wf uf' ∧ repr (parent uf) x r
    ∧ (∀ y s, repr (parent uf) y s ↔ repr (parent uf') y s)
    ∧ (∀ y, is_Some (parent uf' !! y) ↔ is_Some (parent uf !! y)).
Proof.
  intros Hwf Hx. unfold find.
  destruct (find_rec_total uf (S (max_rank (rank uf))) x Hwf Hx) as [[P' r] Ef]; [lia|].
  rewrite Ef. cbn. destruct (find_rec_spec _ _ _ _ _ Ef) as (Hr & Heq & Hk & Hl).
  eexists _, _. split_and!; try done. constructor; cbn.
  - intros y q Hq. apply Hk. destruct (Hl y q Hq) as [Hold|Hrep].
    + by eapply wf_closed.
    + apply repr_root_end in Hrep. eauto.
  - intros y q Hq Hne. destruct (Hl y q Hq) as [Hold|Hrep].
    + by apply wf_rank.
    + eapply repr_rank; [apply wf_rank, Hwf|done|done].
  - intros y Hy. apply wf_ranked; [done|]. by apply Hk.
Qed.

Lemma repr_exists uf x : wf uf → is_Some (parent uf !! x) → ∃ r, repr (parent uf) x r.
Proof. intros Hwf Hx. destruct (find_spec uf x Hwf Hx) as (? & r & _ & _ & ? & _). eauto. Qed.

Lemma same_refl uf x : wf uf → is_Some (parent uf !! x) → same uf x x.
Proof. intros Hwf Hx. destruct (repr_exists uf x Hwf Hx) as [r Hr]. by exists r. Qed.

Lemma same_sym uf x y : same uf x y → same uf y x.
Proof. intros (r & ? & ?). by exists r. Qed.

Lemma same_trans uf x y z : same uf x y → same uf y z → same uf x z.
Proof.
  intros (r & Hx & Hy) (r' & Hy' & Hz). rewrite <- (repr_fun _ _ _ _ Hy Hy') in Hz.
  by exists r.
Qed.

Lemma extends_refl uf : extends uf uf.
Proof. by split. Qed.

Lemma extends_trans uf1 uf2 uf3 : extends uf1 uf2 → extends uf2 uf3 → extends uf1 uf3.
Proof.
  intros [K1 S1] [K2 S2]. split.
  - intros y. by rewrite K2, K1.
  - intros a b H. by apply S2, S1.
Qed.


Lemma link_wf uf a b rank' :
  wf uf → parent uf !! a = Some a → parent uf !! b = Some b → a ≠ b →
  (rk rank' a < rk rank' b)%nat →
  (∀ y, y ≠ b → rk rank' y = rk (rank uf) y) →
  (rk (rank uf) b ≤ rk rank' b)%nat →
  (∀ y, is_Some (rank uf !! y) → is_Some (rank' !! y)) →
  wf (mk (<[a := b]> (parent uf)) rank').
Proof.
  intros Hwf Ha Hb Hne Hab Hsame Hb' Hdom. constructor; cbn.
  - intros y q. destruct (decide (a = y)) as [->|Hay].
    + rewrite lookup_insert_eq. intros [= <-]. rewrite lookup_insert_ne by done. eauto.
    + rewrite lookup_insert_ne by done. intros Hq.
      destruct (decide (a = q)) as [->|Haq]; [rewrite lookup_insert_eq; eauto|].
      rewrite lookup_insert_ne by done. by eapply wf_closed.
  - intros y q. destruct (decide (a = y)) as [->|Hay].
    + rewrite lookup_insert_eq. by intros [= <-] _.
    + rewrite lookup_insert_ne by done. intros Hq Hqy.
      pose proof (wf_rank uf Hwf y q Hq Hqy) as Hr.
      assert (y ≠ b) as Hyb by congruence.
      rewrite (Hsame y Hyb). destruct (decide (q = b)) as [->|Hqb]; [lia|].
      by rewrite (Hsame q Hqb).
  - intros y Hy. apply Hdom, wf_ranked; [done|].
    destruct (decide (a = y)) as [->|Hay]; [eauto|]. by rewrite lookup_insert_ne in Hy.
Qed.

Lemma link_extends uf a b rank' :
  parent uf !! a = Some a → parent uf !! b = Some b → a ≠ b →
  extends uf (mk (<[a := b]> (parent uf)) rank')
  ∧ same (mk (<[a := b]> (parent uf)) rank') a b.
Proof.
  intros Ha Hb Hne. pose proof (repr_link (parent uf) a b Ha Hb Hne) as Hl. split; [split|].
  - intros y. cbn. destruct (decide (a = y)) as [->|Hay].
    + rewrite lookup_insert_eq, Ha. split; eauto.
    + by rewrite lookup_insert_ne.
  - intros x y (r & Hx & Hy). eexists. split; cbn; by apply Hl.
  - exists b. cbn. split.
    + specialize (Hl a a (repr_root _ _ Ha)). by rewrite decide_True in Hl.
    + specialize (Hl b b (repr_root _ _ Hb)). by rewrite decide_False in Hl.
Qed.

Lemma rk_insert_eq rank x v : rk (<[x := v]> rank) x = v.
Proof. unfold rk. by rewrite lookup_insert_eq. Qed.

Lemma rk_insert_ne rank x y v : x ≠ y → rk (<[x := v]> rank) y = rk rank y.
Proof. intros H. unfold rk. by rewrite lookup_insert_ne. Qed.

(** [union] succeeds on two elements, keeps the invariant and the
    elements, joins the classes of the two and separates no class. *)
Lemma union_spec uf x y :
  wf uf → is_Some (parent uf !! x) → is_Some (parent uf !! y) →
  ∃ uf', union uf x y = Some uf' ∧ wf uf' ∧ extends uf uf' ∧ same uf' x y.
Proof.
  intros Hwf Hx Hy. unfold union.
  destruct (find_spec uf x Hwf Hx) as (uf1 & r1 & -> & Hwf1 & Hr1 & Heq1 & Hk1). cbn [mbind option_bind].
  destruct (find_spec uf1 y Hwf1 (proj2 (Hk1 y) Hy))
    as (uf2 & r2 & -> & Hwf2 & Hr2 & Heq2 & Hk2). cbn [mbind option_bind].
  assert (extends uf uf2) as Hext.
  { split.
    - intros z. by rewrite Hk2, Hk1.
    - intros a b H. by apply (same_equiv _ _ Heq2), (same_equiv _ _ Heq1). }
  assert (repr (parent uf2) x r1) as Hx2 by (by apply Heq2, Heq1).
  assert (repr (parent uf2) y r2) as Hy2 by (by apply Heq2).
  pose proof (repr_root_end _ _ _ Hx2) as Hroot1.
  pose proof (repr_root_end _ _ _ Hy2) as Hroot2.
  destruct (String.eqb_spec r1 r2) as [->|Hne].
  { eexists. split_and!; try done. by exists r2. }
  destruct (wf_ranked uf2 Hwf2 r1) as [n1 En1]; [eauto|].
  destruct (wf_ranked uf2 Hwf2 r2) as [n2 En2]; [eauto|].
  rewrite En1, En2. cbn [mbind option_bind].
  assert (rk (rank uf2) r1 = n1) as Hn1 by (unfold rk; by rewrite En1).
  assert (rk (rank uf2) r2 = n2) as Hn2 by (unfold rk; by rewrite En2).
  assert (∀ a b uf', same uf' a b → extends uf2 uf' →
            repr (parent uf2) x a → repr (parent uf2) y b → same uf' x y) as Hjoin.
  { intros a b uf' Hab [_ Hs] Ha Hb.
    eapply same_trans; [apply Hs; exists a; split; [done|]; apply repr_root;
                        by eapply repr_root_end|].
    eapply same_trans; [exact Hab|].
    apply Hs. exists b. split; [|done]. apply repr_root. by eapply repr_root_end. }
  destruct (Nat.ltb_spec n1 n2).
  { destruct (link_extends uf2 r1 r2 (rank uf2) Hroot1 Hroot2 Hne) as [He Hs].
    eexists. split_and!; [done|..].
    - apply link_wf; try done. lia.
    - by eapply extends_trans.
    - by eapply Hjoin. }
  destruct (Nat.ltb_spec n2 n1).
  { destruct (link_extends uf2 r2 r1 (rank uf2) Hroot2 Hroot1 (not_eq_sym Hne)) as [He Hs].
    eexists. split_and!; [done|..].
    - apply link_wf; try done. lia.
    - by eapply extends_trans.
    - eapply Hjoin; [apply same_sym, Hs|done..]. }
  destruct (link_extends uf2 r2 r1 (<[r1 := S n1]> (rank uf2)) Hroot2 Hroot1 (not_eq_sym Hne))
    as [He Hs].
  eexists. split_and!; [done|..].
  - apply link_wf; try done.
    + rewrite rk_insert_eq, rk_insert_ne by done. lia.
    + intros z Hz. by rewrite rk_insert_ne.
    + rewrite rk_insert_eq. lia.
    + intros z Hz. destruct (decide (r1 = z)) as [->|]; [rewrite lookup_insert_eq; eauto|].
      by rewrite lookup_insert_ne.
  - by eapply extends_trans.
  - eapply Hjoin; [apply same_sym, Hs|done..].
Qed.

End UnionFindProps.

(** ** Dictionaries of lists *)

Section Dictionaries.
Import duplicates Filing.
Context {A : Type}.
Implicit Types (d : list (string * list A)) (k : string) (v : A).

Lemma setdefault_append_keys k v d :
  (setdefault_append k v d).*1 = if decide (k ∈ d.*1) then d.*1 else (d.*1 ++ [k])%list.
Proof.
  induction d as [|[k' vs] d IH]; cbn.
  - by rewrite decide_False by apply not_elem_of_nil.
  - destruct (String.eqb_spec k k') as [->|Hne]; cbn.
    + by rewrite decide_True by left.
    + rewrite IH. destruct (decide (k ∈ d.*1)).
      * by rewrite decide_True by (by right).
      * rewrite decide_False; [done|]. by intros [?|?]%elem_of_cons.
Qed.

Lemma setdefault_append_NoDup k v d : NoDup d.*1 → NoDup (setdefault_append k v d).*1.
Proof.
  intros H. rewrite setdefault_append_keys. destruct (decide _); [done|].
  apply NoDup_app. split_and!; [done| |apply NoDup_singleton].
  intros x Hx ->%list_elem_of_singleton. done.
Qed.

Lemma setdefault_append_perm k v d :
  concat (setdefault_append k v d).*2 ≡ₚ (concat d.*2 ++ [v])%list.
Proof.
  induction d as [|[k' vs] d IH]; cbn; [done|].
  destruct (String.eqb k k'); cbn.
  - rewrite <- !app_assoc. apply Permutation_app_head, Permutation_app_comm.
  - by rewrite IH, app_assoc.
Qed.

Lemma setdefault_append_elem k v d k' vs :
  (k', vs) ∈ setdefault_append k v d →
  (k', vs) ∈ d ∨ k' = k ∧ ∃ vs0, vs = (vs0 ++ [v])%list ∧ ((k, vs0) ∈ d ∨ vs0 = []).
Proof.
  induction d as [|[k0 vs0] d IH]; cbn.
  - intros [= -> ->]%list_elem_of_singleton. right. split; [done|]. exists []. eauto.
  - destruct (String.eqb_spec k k0) as [->|Hne].
    + intros [[= -> ->]|H]%elem_of_cons.
      * right. split; [done|]. exists vs0. split; [done|]. left. left.
      * left. by right.
    + intros [[= -> ->]|H]%elem_of_cons; [left; left|].
      destruct (IH H) as [?|(-> & vs1 & -> & [?| ->])].
      * left. by right.
      * right. split; [done|]. exists vs1. split; [done|]. left. by right.
      * right. split; [done|]. exists []. eauto.
Qed.

Lemma setdefault_append_filed k v d : filed (setdefault_append k v d) k v.
Proof.
  induction d as [|[k0 vs0] d IH]; cbn.
  - exists [v]. split; apply list_elem_of_singleton; done.
  - destruct (String.eqb_spec k k0) as [->|Hne].
    + exists (vs0 ++ [v])%list. split; [left|]. apply elem_of_app. right. left.
    + destruct IH as (vs & ? & ?). exists vs. split; [by right|done].
Qed.

Lemma setdefault_append_keeps k v d k' v' :
  filed d k' v' → filed (setdefault_append k v d) k' v'.
Proof.
  intros (vs & Hin & Hv). induction d as [|[k0 vs0] d IH]; [by apply elem_of_nil in Hin|].
  cbn. destruct (String.eqb_spec k k0) as [->|Hne].
  - apply elem_of_cons in Hin as [[= -> ->]|Hin].
    + exists (vs0 ++ [v])%list. split; [left|]. apply elem_of_app. by left.
    + exists vs. split; [by right|done].
  - apply elem_of_cons in Hin as [[= -> ->]|Hin].
    + exists vs0. split; [left|done].
    + destruct (IH Hin) as (vs' & ? & ?). exists vs'. split; [by right|done].
Qed.

Lemma setdefault_append_filed_inv k v d k' v' :
  filed (setdefault_append k v d) k' v' → filed d k' v' ∨ k' = k ∧ v' = v.
Proof.
  intros (vs & [Hin|(-> & vs0 & -> & Hvs0)]%setdefault_append_elem & Hv).
  - left. by exists vs.
  - apply elem_of_app in Hv as [Hv| ->%list_elem_of_singleton]; [|by right].
    destruct Hvs0 as [?| ->]; [left; by exists vs0|by apply elem_of_nil in Hv].
Qed.

Lemma setdefault_append_nonempty k v d :
  Forall (λ kv, kv.2 ≠ []) d → Forall (λ kv, kv.2 ≠ []) (setdefault_append k v d).
Proof.
  induction 1 as [|[k0 vs0] d H0 Hd IH]; cbn.
  - by repeat constructor.
  - destruct (String.eqb k k0); constructor; try done. cbn. by destruct vs0.
Qed.

Lemma filed_same_group d k f g :
  NoDup d.*1 → filed d k f → filed d k g → ∃ vs, (k, vs) ∈ d ∧ f ∈ vs ∧ g ∈ vs.
Proof.
  intros Hnd (vs & Hin & Hf) (vs' & Hin' & Hg). exists vs. split_and!; try done.
  assert (vs = vs') as ->; [|done].
  clear Hf Hg. induction d as [|[k0 vs0] d IH]; [by apply elem_of_nil in Hin|].
  cbn in Hnd. apply NoDup_cons in Hnd as [Hk0 Hnd].
  apply elem_of_cons in Hin as [Hin|Hin]; apply elem_of_cons in Hin' as [Hin'|Hin'].
  - congruence.
  - injection Hin as -> ->. destruct Hk0. apply list_elem_of_fmap. by exists (k0, vs').
  - injection Hin' as -> ->. destruct Hk0. apply list_elem_of_fmap. by exists (k0, vs).
  - by apply IH.
Qed.

End Dictionaries.

(** ** The phases of grouping *)

Section Grouping.
Import duplicates Forest Filing.
Import UnionFind.

Lemma is_key_extends uf uf' f : extends uf uf' → is_key uf f → is_key uf' f.
Proof. intros [K _] H. by apply K. Qed.

Lemma init_lookup (files : list FileInfo.t) x :
  parent (init files) !! x = if decide (x ∈ FileInfo.path <$> files) then Some x else None.
Proof.
  unfold init. cbn. destruct (decide _) as [Hin|Hin].
  - destruct (list_to_map (M := gmap string string) _ !! x) as [p|] eqn:E.
    + apply elem_of_list_to_map_2, list_elem_of_fmap in E as (f & [= -> ->] & _). done.
    + apply not_elem_of_list_to_map in E. destruct E.
      rewrite <- list_fmap_compose. apply list_elem_of_fmap in Hin as (f & -> & Hf).
      apply list_elem_of_fmap. by exists f.
  - apply not_elem_of_list_to_map. rewrite <- list_fmap_compose. done.
Qed.

Lemma init_wf files : wf (init files).
Proof.
  constructor.
  - intros x p. rewrite !init_lookup. destruct (decide _); [|done].
    intros [= <-]. rewrite decide_True by done. eauto.
  - intros x p. rewrite init_lookup. destruct (decide _); [|done]. by intros [= <-].
  - intros x. rewrite init_lookup. destruct (decide _) as [Hin|]; [|by intros []].
    intros _. unfold init. cbn.
    destruct (list_to_map (M := gmap string nat) _ !! x) eqn:E; [eauto|].
    apply not_elem_of_list_to_map in E. destruct E.
    rewrite <- list_fmap_compose. done.
Qed.

Lemma init_keys files f : f ∈ files → is_key (init files) f.
Proof.
  intros Hf. unfold is_key. rewrite init_lookup, decide_True; [eauto|].
  apply list_elem_of_fmap. eauto.
Qed.

(** X15. On an element of a well-formed structure [find] succeeds (the
    bound on its depth is never reached), returns the root that the parent
    links lead to, and keeps the invariant, the elements and the root of
    every element. *)
Theorem find_returns_root uf x :
  wf uf → is_Some (parent uf !! x) →
  ∃ uf' r, find uf x = Some (uf', r)
    ∧ wf uf' ∧ repr (parent uf) x r
    ∧ (∀ y s, repr (parent uf) y s ↔ repr (parent uf') y s)
    ∧ (∀ y, is_Some (parent uf' !! y) ↔ is_Some (parent uf !! y)).
Proof. apply find_spec. Qed.

Lemma find_returns_root_witness :
  ∃ uf' r, find (init Scenes.trio) "/in/a.jpg" = Some (uf', r)
    ∧ wf uf' ∧ repr (parent (init Scenes.trio)) "/in/a.jpg" r
    ∧ (∀ y s, repr (parent (init Scenes.trio)) y s ↔ repr (parent uf') y s)
    ∧ (∀ y, is_Some (parent uf' !! y) ↔ is_Some (parent (init Scenes.trio) !! y)).
Proof.
  apply (find_returns_root (init Scenes.trio) "/in/a.jpg").
  - apply init_wf.
  - exists "/in/a.jpg". vm_refl.
Defined.

(** X16. On two elements of a well-formed structure [union] succeeds,
    keeps the invariant and the elements, puts the two in one class and
    separates no two elements that were in one class. *)
Theorem union_joins_classes uf x y :
  wf uf → is_Some (parent uf !! x) → is_Some (parent uf !! y) →
  ∃ uf', union uf x y = Some uf' ∧ wf uf' ∧ extends uf uf' ∧ same uf' x y.
Proof. apply union_spec. Qed.

Lemma union_joins_classes_witness :
  ∃ uf', union (init Scenes.trio) "/in/a.jpg" "/in/b.jpg" = Some uf' ∧ wf uf'
    ∧ extends (init Scenes.trio) uf' ∧ same uf' "/in/a.jpg" "/in/b.jpg".
Proof.
  apply (union_joins_classes (init Scenes.trio) "/in/a.jpg" "/in/b.jpg").
  - apply init_wf.
  - exists "/in/a.jpg". vm_refl.
  - exists "/in/b.jpg". vm_refl.
Defined.

Lemma union_with_spec uf first others :
  wf uf → is_key uf first → Forall (is_key uf) others →
  ∃ uf', union_with uf first others = Some uf' ∧ wf uf' ∧ extends uf uf'
    ∧ ∀ o, o ∈ others → same uf' (FileInfo.path first) (FileInfo.path o).
Proof.
  intros Hwf Hf Ho. revert uf Hwf Hf Ho.
  induction others as [|o others IH]; intros uf Hwf Hf Ho; cbn [union_with].
  - exists uf. split_and!; [done|done|apply extends_refl|]. intros o Hin.
    by apply elem_of_nil in Hin.
  - apply Forall_cons in Ho as [Ho Hos].
    destruct (union_spec uf _ _ Hwf Hf Ho) as (uf1 & -> & Hwf1 & He1 & Hs1).
    cbn [mbind option_bind].
    destruct (IH uf1 Hwf1) as (uf2 & -> & Hwf2 & He2 & Hs2).
    { by eapply is_key_extends. }
    { eapply Forall_impl; [exact Hos|]. intros ?. by apply is_key_extends. }
    exists uf2. split_and!; try done; [by eapply extends_trans|].
    intros o' [->|Hin]%elem_of_cons; [by apply He2|by apply Hs2].
Qed.

Lemma exact_phase_spec uf (groups : list (string * list FileInfo.t)) :
  wf uf → (∀ k vs v, (k, vs) ∈ groups → v ∈ vs → is_key uf v) →
  ∃ uf', exact_phase uf groups = Some uf' ∧ wf uf' ∧ extends uf uf'
    ∧ ∀ k vs f g, (k, vs) ∈ groups → f ∈ vs → g ∈ vs →
        same uf' (FileInfo.path f) (FileInfo.path g).
Proof.
  revert uf. induction groups as [|[k0 group] groups IH]; intros uf Hwf Hk; cbn [exact_phase].
  - exists uf. split_and!; [done|done|apply extends_refl|].
    intros ???? Hin. by apply elem_of_nil in Hin.
  - assert (∃ uf1, match group with
                   | first_file :: (_ :: _) as others => union_with uf first_file others
                   | _ => Some uf
                   end = Some uf1 ∧ wf uf1 ∧ extends uf uf1
              ∧ ∀ f g, f ∈ group → g ∈ group →
                  same uf1 (FileInfo.path f) (FileInfo.path g))
      as (uf1 & -> & Hwf1 & He1 & Hs1).
    { destruct group as [|first [|second others]].
      - exists uf. split_and!; [done|done|apply extends_refl|].
        intros ?? Hin. by apply elem_of_nil in Hin.
      - exists uf. split_and!; [done|done|apply extends_refl|].
        intros f g ->%list_elem_of_singleton ->%list_elem_of_singleton.
        apply same_refl; [done|]. eapply (Hk k0); [left|left].
      - destruct (union_with_spec uf first (second :: others) Hwf)
          as (uf1 & E & Hwf1 & He1 & Hs1).
        { eapply (Hk k0); [left|left]. }
        { apply Forall_forall. intros o Ho. eapply (Hk k0); [left|by right]. }
        exists uf1. split_and!; try done.
        assert (∀ f, f ∈ first :: second :: others →
                  same uf1 (FileInfo.path first) (FileInfo.path f)) as Hall.
        { intros f [->|Hin]%elem_of_cons; [|by apply Hs1].
          apply same_refl; [done|]. eapply is_key_extends; [done|].
          eapply (Hk k0); [left|left]. }
        intros f g Hf Hg. eapply same_trans; [apply same_sym|]; by apply Hall. }
    cbn [mbind option_bind].
    destruct (IH uf1 Hwf1) as (uf2 & -> & Hwf2 & He2 & Hs2).
    { intros k vs v Hin Hv. eapply is_key_extends; [done|]. eapply Hk; [by right|done]. }
    exists uf2. split_and!; try done; [by eapply extends_trans|].
    intros k vs f g [[= -> ->]|Hin]%elem_of_cons Hf Hg.
    + by apply He2, Hs1.
    + by eapply Hs2.
Qed.

Lemma window_loop_spec sensitivity uf base window :
  wf uf → is_key uf base → Forall (is_key uf) window →
  ∃ uf', window_loop sensitivity uf base window = Some uf' ∧ wf uf' ∧ extends uf uf'
    ∧ ∀ c, c ∈ window → are_near_duplicates base c (Some sensitivity) = true →
        same uf' (FileInfo.path base) (FileInfo.path c).
Proof.
  revert uf. induction window as [|c window IH]; intros uf Hwf Hb Hw; cbn [window_loop].
  - exists uf. split_and!; [done|done|apply extends_refl|].
    intros ? Hin. by apply elem_of_nil in Hin.
  - apply Forall_cons in Hw as [Hc Hw].
    assert (∃ uf1, (if are_near_duplicates base c (Some sensitivity)
                    then union uf (FileInfo.path base) (FileInfo.path c)
                    else Some uf) = Some uf1 ∧ wf uf1 ∧ extends uf uf1
              ∧ (are_near_duplicates base c (Some sensitivity) = true →
                 same uf1 (FileInfo.path base) (FileInfo.path c)))
      as (uf1 & -> & Hwf1 & He1 & Hs1).
    { destruct (are_near_duplicates base c (Some sensitivity)).
      - destruct (union_spec uf _ _ Hwf Hb Hc) as (uf1 & ? & ? & ? & ?). eauto 10.
      - exists uf. split_and!; [done|done|apply extends_refl|done]. }
    cbn [mbind option_bind].
    destruct (IH uf1 Hwf1) as (uf2 & -> & Hwf2 & He2 & Hs2).
    { by eapply is_key_extends. }
    { eapply Forall_impl; [exact Hw|]. intros ?. by apply is_key_extends. }
    exists uf2. split_and!; try done; [by eapply extends_trans|].
    intros c' [->|Hin]%elem_of_cons Hn; [by apply He2, Hs1|by apply Hs2].
Qed.

Lemma near_phase_spec sensitivity uf candidates :
  wf uf → Forall (is_key uf) candidates →
  ∃ uf', near_phase sensitivity uf candidates = Some uf' ∧ wf uf' ∧ extends uf uf'
    ∧ ∀ i j base c, candidates !! i = Some base → candidates !! j = Some c →
        (i < j ≤ i + PHASH_SEARCH_WINDOW)%nat →
        are_near_duplicates base c (Some sensitivity) = true →
        same uf' (FileInfo.path base) (FileInfo.path c).
Proof.
  revert uf. induction candidates as [|base rest IH]; intros uf Hwf Hk; cbn [near_phase].
  - exists uf. split_and!; [done|done|apply extends_refl|]. by intros [|?] ???.
  - apply Forall_cons in Hk as [Hb Hr].
    destruct (window_loop_spec sensitivity uf base (take PHASH_SEARCH_WINDOW rest) Hwf Hb)
      as (uf1 & -> & Hwf1 & He1 & Hs1).
    { by apply Forall_take. }
    cbn [mbind option_bind].
    destruct (IH uf1 Hwf1) as (uf2 & -> & Hwf2 & He2 & Hs2).
    { eapply Forall_impl; [exact Hr|]. intros ?. by apply is_key_extends. }
    exists uf2. split_and!; try done; [by eapply extends_trans|].
    intros i j b c Hi Hj Hij Hn. destruct j as [|j]; [lia|]. cbn in Hj.
    destruct i as [|i].
    + injection Hi as <-. apply He2, Hs1; [|done].
      apply list_elem_of_lookup. exists j. rewrite lookup_take_lt; [done|]. lia.
    + cbn in Hi. eapply (Hs2 i j); try done. lia.
Qed.

End Grouping.

(** ** Clusters *)

Section Clusters.
Import duplicates Forest Filing.
Import UnionFind.

Lemma exact_groups_fold files : exact_groups files = fold_left exact_step files [].
Proof. done. Qed.

Lemma exact_fold_spec files acc :
  (NoDup acc.*1 → NoDup (fold_left exact_step files acc).*1)
  ∧ (∀ k v, filed (fold_left exact_step files acc) k v → filed acc k v ∨ v ∈ files)
  ∧ (∀ k v, filed acc k v → filed (fold_left exact_step files acc) k v)
  ∧ (∀ f, f ∈ files → truthy (FileInfo.sha256 f) = true →
       filed (fold_left exact_step files acc) (default "" (FileInfo.sha256 f)) f)
  ∧ ((∀ k v, filed acc k v → FileInfo.sha256 v = Some k) →
     ∀ k v, filed (fold_left exact_step files acc) k v → FileInfo.sha256 v = Some k).
Proof.
  revert acc. induction files as [|file files IH]; intros acc; cbn [fold_left].
  - split_and!; try done; [by left|]. intros f Hf. by apply elem_of_nil in Hf.
  - destruct (IH (exact_step acc file)) as (H1 & H2 & H3 & H4 & H5).
    assert (NoDup acc.*1 → NoDup (exact_step acc file).*1) as Hnd.
    { unfold exact_step. destruct (truthy _); [apply setdefault_append_NoDup|done]. }
    assert (∀ k v, filed acc k v → filed (exact_step acc file) k v) as Hkeep.
    { unfold exact_step. destruct (truthy _); [|done]. intros ??.
      apply setdefault_append_keeps. }
    split_and!.
    + intros ?. by apply H1, Hnd.
    + intros k v [Hf|Hf]%H2; [|right; by right].
      unfold exact_step in Hf. destruct (truthy _); [|by left].
      destruct Hf as (vs & [Hin|(-> & vs0 & -> & Hvs0)]%setdefault_append_elem & Hv).
      * left. by exists vs.
      * apply elem_of_app in Hv as [Hv| ->%list_elem_of_singleton]; [|right; left].
        destruct Hvs0 as [?| ->]; [left; by exists vs0|by apply elem_of_nil in Hv].
    + intros k v Hf. by apply H3, Hkeep.
    + intros f [->|Hf]%elem_of_cons Ht; [|by apply H4].
      apply H3. unfold exact_step. rewrite Ht. apply setdefault_append_filed.
    + intros Hacc. apply H5. intros k v. unfold exact_step.
      destruct (truthy (FileInfo.sha256 file)) eqn:Et; [|apply Hacc].
      intros [Hf|[-> ->]]%setdefault_append_filed_inv; [by apply Hacc|].
      by destruct (FileInfo.sha256 file).
Qed.

Lemma raw_clusters_spec uf0 uf files acc :
  wf uf → (∀ y s, repr (parent uf0) y s ↔ repr (parent uf) y s) →
  Forall (is_key uf) files →
  ∃ res, raw_clusters uf files acc = Some res
    ∧ concat res.*2 ≡ₚ (concat acc.*2 ++ files)%list
    ∧ (NoDup acc.*1 → NoDup res.*1)
    ∧ (Forall (λ kv, kv.2 ≠ []) acc → Forall (λ kv, kv.2 ≠ []) res)
    ∧ ((∀ k f, filed acc k f → repr (parent uf0) (FileInfo.path f) k) →
       ∀ k f, filed res k f → repr (parent uf0) (FileInfo.path f) k)
    ∧ (∀ k f, filed acc k f → filed res k f)
    ∧ (∀ f, f ∈ files → ∃ r, filed res r f).
Proof.
  revert uf acc. induction files as [|file files IH]; intros uf acc Hwf Heq Hk;
    cbn [raw_clusters].
  - exists acc. rewrite app_nil_r. split_and!; try done.
    intros f Hf. by apply elem_of_nil in Hf.
  - apply Forall_cons in Hk as [Hfile Hk].
    destruct (find_spec uf _ Hwf Hfile) as (uf1 & root & -> & Hwf1 & Hr & Heq1 & Hk1).
    cbn [mbind option_bind].
    destruct (IH uf1 (setdefault_append root file acc) Hwf1)
      as (res & -> & Hperm & Hnd & Hne & Hrep & Hkeep & Hall).
    { intros y s. by rewrite Heq, Heq1. }
    { eapply Forall_impl; [exact Hk|]. intros f. unfold is_key. by rewrite Hk1. }
    exists res. split_and!; try done.
    + rewrite Hperm, setdefault_append_perm, <- app_assoc. done.
    + intros H. by apply Hnd, setdefault_append_NoDup.
    + intros H. by apply Hne, setdefault_append_nonempty.
    + intros Hacc. apply Hrep. intros k f [Hf|[-> ->]]%setdefault_append_filed_inv.
      * by apply Hacc.
      * by apply Heq.
    + intros k f Hf. by apply Hkeep, setdefault_append_keeps.
    + intros f [->|Hf]%elem_of_cons; [|by apply Hall].
      exists root. apply Hkeep, setdefault_append_filed.
Qed.

Lemma final_clusters_spec n raw :
  Forall (λ kv, kv.2 ≠ []) raw →
  ∃ cs, final_clusters n raw = Ok cs ∧ DuplicateCluster.files <$> cs = raw.*2.
Proof.
  intros H. revert n. induction H as [|[k vs] raw Hvs Hraw IH]; intros n;
    cbn [final_clusters].
  - by exists [].
  - unfold select_master at 1. cbn [DuplicateCluster.files].
    destruct vs as [|first rest]; [done|]. cbn [chosen_master].
    destruct (select_loop first None rest) as [m r]. cbn [mbind result_bind].
    destruct (IH (n + 1)) as (cs & -> & Hcs). cbn [mbind result_bind].
    eexists. split; [done|]. cbn. by rewrite Hcs.
Qed.

Lemma insert_by_key_perm x l : insert_by_key x l ≡ₚ x :: l.
Proof.
  induction l as [|y l IH]; cbn; [done|].
  destruct (String.leb _ _); [done|]. by rewrite IH, Permutation_swap.
Qed.

Lemma sort_by_phash_perm l : sort_by_phash l ≡ₚ l.
Proof.
  induction l as [|x l IH]; cbn; [done|].
  unfold sort_by_phash in *. by rewrite insert_by_key_perm, IH.
Qed.

Lemma candidates_from_files files f :
  f ∈ sort_by_phash (filter (λ f, truthy (FileInfo.phash f) = true) files) → f ∈ files.
Proof. rewrite sort_by_phash_perm. by intros [_ ?]%list_elem_of_filter. Qed.

(** One run of the grouping on a non-empty list: it ends, and the
    classes of the structure it builds are the clusters it returns. *)
Lemma group_duplicates_run files sensitivity :
  files ≠ [] →
  ∃ uf cs,
    group_duplicates files sensitivity = Ok cs
    ∧ concat (DuplicateCluster.files <$> cs) ≡ₚ files
    ∧ Forall (λ c, DuplicateCluster.files c ≠ []) cs
    ∧ (∀ f g, f ∈ files → g ∈ files → same uf (FileInfo.path f) (FileInfo.path g) →
         ∃ c, c ∈ cs ∧ f ∈ DuplicateCluster.files c ∧ g ∈ DuplicateCluster.files c)
    ∧ (∀ k vs f g, (k, vs) ∈ exact_groups files → f ∈ vs → g ∈ vs →
         same uf (FileInfo.path f) (FileInfo.path g))
    ∧ (∀ i j base c,
         sort_by_phash (filter (λ f, truthy (FileInfo.phash f) = true) files) !! i = Some base →
         sort_by_phash (filter (λ f, truthy (FileInfo.phash f) = true) files) !! j = Some c →
         (i < j ≤ i + PHASH_SEARCH_WINDOW)%nat →
         are_near_duplicates base c (Some (_normalize_sensitivity sensitivity)) = true →
         same uf (FileInfo.path base) (FileInfo.path c))
    ∧ (∃ uf1, exact_phase (init files) (exact_groups files) = Some uf1
         ∧ near_phase (_normalize_sensitivity sensitivity) uf1
             (sort_by_phash (filter (λ f, truthy (FileInfo.phash f) = true) files))
           = Some uf)
    ∧ (∀ c f g, c ∈ cs → f ∈ DuplicateCluster.files c → g ∈ DuplicateCluster.files c →
         same uf (FileInfo.path f) (FileInfo.path g)).
Proof.
  intros Hne. unfold group_duplicates. destruct files as [|f0 files0] eqn:Efiles; [done|].
  rewrite <- Efiles. clear Hne.
  assert (∀ k v, filed (exact_groups files) k v → v ∈ files) as Hgroups.
  { intros k v Hf. rewrite exact_groups_fold in Hf.
    apply (exact_fold_spec files []) in Hf as [(vs & Hin & _)|Hf]; [|done].
    by apply elem_of_nil in Hin. }
  destruct (exact_phase_spec (init files) (exact_groups files) (init_wf files))
    as (uf1 & Eexact & Hwf1 & He1 & Hs1).
  { intros k vs v Hin Hv. apply init_keys, (Hgroups k). by exists vs. }
  rewrite Eexact. cbn [mbind option_bind].
  set (cands := sort_by_phash _).
  destruct (near_phase_spec (_normalize_sensitivity sensitivity) uf1 cands Hwf1)
    as (uf2 & Enear & Hwf2 & He2 & Hs2); [|rewrite Enear].
  { apply Forall_forall. intros f Hf. eapply is_key_extends; [exact He1|].
    by apply init_keys, candidates_from_files. }
  cbn [mbind option_bind].
  destruct (raw_clusters_spec uf2 uf2 files [] Hwf2)
    as (raw & -> & Hperm & Hnd & Hnonempty & Hrep & _ & Hall); [done|..].
  { apply Forall_forall. intros f Hf. eapply is_key_extends; [exact He2|].
    eapply is_key_extends; [exact He1|]. by apply init_keys. }
  cbn [or_raise mbind result_bind].
  destruct (final_clusters_spec 1 raw) as (cs & -> & Hcs); [apply Hnonempty; constructor|].
  exists uf2, cs. split_and!; try done.
  - by rewrite Hcs, Hperm.
  - apply (Forall_fmap DuplicateCluster.files (λ vs, vs ≠ [])). rewrite Hcs.
    apply Forall_fmap. apply Hnonempty. constructor.
  - intros f g Hf Hg (r & Hfr & Hgr).
    destruct (Hall f Hf) as (rf & Hff). destruct (Hall g Hg) as (rg & Hfg).
    assert (∀ k h, filed [] k h → repr (parent uf2) (FileInfo.path h) k) as Hnil.
    { intros k h (vs & Hin & _). by apply elem_of_nil in Hin. }
    pose proof (repr_fun _ _ _ _ Hfr (Hrep Hnil _ _ Hff)) as <-.
    pose proof (repr_fun _ _ _ _ Hgr (Hrep Hnil _ _ Hfg)) as <-.
    destruct (filed_same_group raw r f g) as (vs & Hin & Hfv & Hgv);
      [apply Hnd; constructor|done..|].
    assert (vs ∈ DuplicateCluster.files <$> cs) as (c & -> & Hc)%list_elem_of_fmap.
    { rewrite Hcs. apply list_elem_of_fmap. by exists (r, vs). }
    by exists c.
  - intros k vs f g Hin Hf Hg. apply He2. by eapply Hs1.
  - by exists uf1.
  - intros c f g Hc Hf Hg.
    assert (DuplicateCluster.files c ∈ raw.*2) as ([k vs] & E & Hin)%list_elem_of_fmap.
    { rewrite <- Hcs. apply list_elem_of_fmap. by exists c. }
    cbn in E. subst vs.
    assert (∀ k h, filed [] k h → repr (parent uf2) (FileInfo.path h) k) as Hnil.
    { intros k' h (vs & Hin' & _). by apply elem_of_nil in Hin'. }
    exists k. split; apply (Hrep Hnil); by exists (DuplicateCluster.files c).
Qed.

(** X17. Grouping never fails, and it files every record under exactly one
    cluster: the clusters, none of them empty, together hold the records
    of the input, each as often as the input has it. *)
Theorem group_duplicates_partition files sensitivity :
  ∃ cs, group_duplicates files sensitivity = Ok cs
    ∧ concat (DuplicateCluster.files <$> cs) ≡ₚ files
    ∧ Forall (λ c, DuplicateCluster.files c ≠ []) cs.
Proof.
  destruct files as [|f files]; [by exists []|].
  destruct (group_duplicates_run (f :: files) sensitivity) as (uf & cs & ? & ? & ? & _);
    [done|]. by exists cs.
Qed.

(** X18. Records with the same non-empty content hash are filed under the same
    cluster. *)
Theorem exact_duplicates_share_cluster files sensitivity cs f g :
  group_duplicates files sensitivity = Ok cs →
  f ∈ files → g ∈ files →
  truthy (FileInfo.sha256 f) = true → FileInfo.sha256 f = FileInfo.sha256 g →
  ∃ c, c ∈ cs ∧ f ∈ DuplicateCluster.files c ∧ g ∈ DuplicateCluster.files c.
Proof.
  intros Hrun Hf Hg Ht Hsha.
  destruct (group_duplicates_run files sensitivity) as (uf & cs' & E & _ & _ & Hsame & Hex & _).
  { intros ->. by apply elem_of_nil in Hf. }
  assert (cs' = cs) as -> by congruence.
  apply Hsame; [done..|].
  destruct (exact_fold_spec files []) as (Hnd & _ & _ & Hfiled & _).
  destruct (filed_same_group (exact_groups files) (default "" (FileInfo.sha256 f)) f g)
    as (vs & Hin & Hfv & Hgv).
  - apply Hnd. constructor.
  - by apply Hfiled.
  - rewrite Hsha. apply Hfiled; [done|]. by rewrite <- Hsha.
  - by eapply Hex.
Qed.

Lemma exact_duplicates_share_cluster_witness :
  match group_duplicates Scenes.trio None with
  | Ok cs => ∃ c, c ∈ cs ∧ Scenes.twin_a ∈ DuplicateCluster.files c
                ∧ Scenes.twin_b ∈ DuplicateCluster.files c
  | Err _ => False
  end.
Proof.
  destruct (group_duplicates Scenes.trio None) as [cs|e] eqn:E.
  - apply (exact_duplicates_share_cluster Scenes.trio None cs Scenes.twin_a Scenes.twin_b E).
    + left.
    + right. right. left.
    + vm_refl.
    + vm_refl.
  - vm_compute in E. discriminate E.
Defined.

(** X19. Two records with a perceptual hash that stand at most twenty places
    apart once sorted by hash, and that pass the near-duplicate test, are
    filed under the same cluster. *)
Theorem near_duplicates_share_cluster files sensitivity cs i j base c :
  group_duplicates files sensitivity = Ok cs →
  sort_by_phash (filter (λ f, truthy (FileInfo.phash f) = true) files) !! i = Some base →
  sort_by_phash (filter (λ f, truthy (FileInfo.phash f) = true) files) !! j = Some c →
  (i < j ≤ i + 20)%nat →
  are_near_duplicates base c sensitivity = true →
  ∃ cl, cl ∈ cs ∧ base ∈ DuplicateCluster.files cl ∧ c ∈ DuplicateCluster.files cl.
Proof.
  intros Hrun Hi Hj Hij Hnear.
  assert (base ∈ files) as Hb
    by (eapply candidates_from_files, list_elem_of_lookup; eauto).
  assert (c ∈ files) as Hc
    by (eapply candidates_from_files, list_elem_of_lookup; eauto).
  destruct (group_duplicates_run files sensitivity) as (uf & cs' & E & _ & _ & Hsame & _ & Hn & _).
  { intros ->. by apply elem_of_nil in Hb. }
  assert (cs' = cs) as -> by congruence.
  apply Hsame; [done..|]. eapply Hn; try done.
  by rewrite are_near_duplicates_normalized.
Qed.

Lemma near_duplicates_share_cluster_witness :
  match group_duplicates [Samples.shot_a; Samples.shot_b] None with
  | Ok cs => ∃ cl, cl ∈ cs ∧ Samples.shot_b ∈ DuplicateCluster.files cl
                 ∧ Samples.shot_a ∈ DuplicateCluster.files cl
  | Err _ => False
  end.
Proof.
  destruct (group_duplicates [Samples.shot_a; Samples.shot_b] None) as [cs|e] eqn:E.
  - apply (near_duplicates_share_cluster [Samples.shot_a; Samples.shot_b] None cs
             0%nat 1%nat Samples.shot_b Samples.shot_a E).
    + vm_refl.
    + vm_refl.
    + lia.
    + vm_refl.
  - vm_compute in E. discriminate E.
Defined.

End Clusters.

(** ** Records that stay alone *)

Section Isolated.
Import duplicates Forest Filing.
Import UnionFind.

Lemma repr_into P y x : repr P y x → y ≠ x → ∃ z, z ≠ x ∧ P !! z = Some x.
Proof.
  induction 1 as [y Hy|y p r Hy Hne H IH]; [done|]. intros Hyr.
  destruct (decide (p = r)) as [->|Hpr]; [by exists y|]. by apply IH.
Qed.

Lemma isolated_repr uf x y : isolated uf x → repr (parent uf) y x → y = x.
Proof.
  intros [_ Hx] Hr. destruct (decide (y = x)) as [|Hne]; [done|].
  destruct (repr_into _ _ _ Hr Hne) as (z & Hz & Hzx). by apply Hx in Hzx.
Qed.

Lemma isolated_same uf x y : isolated uf x → same uf x y → y = x.
Proof.
  intros Hx (r & Hxr & Hyr).
  assert (r = x) as -> by (eapply repr_fun; [exact Hxr|]; apply repr_root, Hx).
  by eapply isolated_repr.
Qed.

Lemma find_isolated uf a uf' r x :
  find uf a = Some (uf', r) → isolated uf x →
  isolated uf' x ∧ (a ≠ x → r ≠ x).
Proof.
  unfold find. destruct (find_rec _ _ _) as [[P' r']|] eqn:Ef; [|done].
  cbn. intros [= <- <-] Hx.
  destruct (find_rec_spec _ _ _ _ _ Ef) as (Hr & Heq & Hk & Hl).
  split.
  - split; cbn.
    + apply repr_root_end with x, Heq. apply repr_root, Hx.
    + intros y Hy. destruct (Hl y x Hy) as [Hold|Hrep]; [by apply Hx|].
      by eapply isolated_repr.
  - intros Hne ->. apply Hne. by eapply isolated_repr.
Qed.

Lemma isolated_link uf a b rank' x :
  isolated uf x → a ≠ x → b ≠ x → isolated (mk (<[a := b]> (parent uf)) rank') x.
Proof.
  intros [Hx Hin] Ha Hb. split; cbn.
  - by rewrite lookup_insert_ne.
  - intros y. destruct (decide (a = y)) as [->|Hay].
    + rewrite lookup_insert_eq. by intros [= ->].
    + rewrite lookup_insert_ne by done. apply Hin.
Qed.

Lemma union_isolated uf a b uf' x :
  union uf a b = Some uf' → a ≠ x → b ≠ x → isolated uf x → isolated uf' x.
Proof.
  unfold union. intros H Ha Hb Hx.
  destruct (find uf a) as [[uf1 r1]|] eqn:E1; [|done]. cbn [mbind option_bind] in H.
  destruct (find_isolated _ _ _ _ _ E1 Hx) as [Hx1 Hr1].
  destruct (find uf1 b) as [[uf2 r2]|] eqn:E2; [|done]. cbn [mbind option_bind] in H.
  destruct (find_isolated _ _ _ _ _ E2 Hx1) as [Hx2 Hr2].
  destruct (String.eqb r1 r2); [by injection H as <-|].
  destruct (rank uf2 !! r1) as [n1|]; [|done]. cbn [mbind option_bind] in H.
  destruct (rank uf2 !! r2) as [n2|]; [|done]. cbn [mbind option_bind] in H.
  repeat case_match; injection H as <-; apply isolated_link; auto.
Qed.

Lemma union_with_isolated uf first others uf' x :
  union_with uf first others = Some uf' →
  FileInfo.path first ≠ x → Forall (λ o, FileInfo.path o ≠ x) others →
  isolated uf x → isolated uf' x.
Proof.
  revert uf. induction others as [|o others IH]; intros uf; cbn [union_with].
  - by intros [= <-].
  - intros H Hf [Ho Hos]%Forall_cons Hx.
    destruct (union uf _ _) as [uf1|] eqn:E; [|done]. cbn [mbind option_bind] in H.
    eapply IH; try done. by eapply union_isolated.
Qed.

Lemma exact_phase_isolated uf (groups : list (string * list FileInfo.t)) uf' x :
  exact_phase uf groups = Some uf' →
  (∀ k f g rest, (k, f :: g :: rest) ∈ groups →
     Forall (λ o, FileInfo.path o ≠ x) (f :: g :: rest)) →
  isolated uf x → isolated uf' x.
Proof.
  revert uf. induction groups as [|[k group] groups IH]; intros uf; cbn [exact_phase].
  - by intros [= <-].
  - intros H Hg Hx.
    destruct group as [|f [|g rest]]; cbn [mbind option_bind] in H.
    + eapply IH; try done. intros ????? . eapply Hg. by right.
    + eapply IH; try done. intros ????? . eapply Hg. by right.
    + destruct (union_with uf f (g :: rest)) as [uf1|] eqn:E; [|done].
      cbn [mbind option_bind] in H.
      specialize (Hg k f g rest (list_elem_of_here _ _)) as Hfg.
      apply Forall_cons in Hfg as [Hf Hrest].
      eapply IH; [exact H| |by eapply union_with_isolated].
      intros ????? . eapply Hg. by right.
Qed.

Lemma window_loop_isolated sensitivity uf base window uf' x :
  window_loop sensitivity uf base window = Some uf' →
  (∀ c, c ∈ window → are_near_duplicates base c (Some sensitivity) = true →
     FileInfo.path base ≠ x ∧ FileInfo.path c ≠ x) →
  isolated uf x → isolated uf' x.
Proof.
  revert uf. induction window as [|c window IH]; intros uf; cbn [window_loop].
  - by intros [= <-].
  - intros H Hw Hx.
    destruct (are_near_duplicates base c (Some sensitivity)) eqn:En;
      cbn [mbind option_bind] in H.
    + destruct (union uf _ _) as [uf1|] eqn:E; [|done]. cbn [mbind option_bind] in H.
      destruct (Hw c (list_elem_of_here _ _) En) as [Hb Hc].
      eapply IH; [exact H| |by eapply union_isolated].
      intros c' Hc'. apply Hw. by right.
    + eapply IH; [exact H| |done]. intros c' Hc'. apply Hw. by right.
Qed.

Lemma near_phase_isolated sensitivity uf candidates uf' x :
  near_phase sensitivity uf candidates = Some uf' →
  (∀ i j base c, candidates !! i = Some base → candidates !! j = Some c → (i < j)%nat →
     are_near_duplicates base c (Some sensitivity) = true →
     FileInfo.path base ≠ x ∧ FileInfo.path c ≠ x) →
  isolated uf x → isolated uf' x.
Proof.
  revert uf. induction candidates as [|base rest IH]; intros uf; cbn [near_phase].
  - by intros [= <-].
  - intros H Hc Hx.
    destruct (window_loop _ _ _ _) as [uf1|] eqn:E; [|done]. cbn [mbind option_bind] in H.
    eapply IH; [exact H| |].
    + intros i j b c Hi Hj Hij. apply (Hc (S i) (S j)); [done..|lia].
    + eapply window_loop_isolated; [exact E| |done].
      intros c [j Hj]%list_elem_of_lookup. apply lookup_take_Some in Hj as [Hj _].
      by apply (Hc 0%nat (S j) base c); [| |lia].
Qed.


Lemma exact_fold_perm files acc :
  concat (fold_left exact_step files acc).*2
  ≡ₚ (concat acc.*2 ++ filter (λ f, truthy (FileInfo.sha256 f) = true) files)%list.
Proof.
  revert acc. induction files as [|file files IH]; intros acc; cbn [fold_left].
  - by rewrite app_nil_r.
  - rewrite IH. unfold exact_step. destruct (truthy (FileInfo.sha256 file)) eqn:Et.
    + rewrite setdefault_append_perm, filter_cons_True by done.
      by rewrite <- app_assoc.
    + rewrite filter_cons_False; [done|]. by rewrite Et.
Qed.

Lemma elem_of_concat {A} (x : A) (ls : list (list A)) :
  x ∈ concat ls ↔ ∃ l, x ∈ l ∧ l ∈ ls.
Proof.
  induction ls as [|l0 ls IH]; cbn.
  - split; [by intros ?%elem_of_nil|by intros (? & _ & ?%elem_of_nil)].
  - rewrite elem_of_app, IH. split.
    + intros [?|(l & ? & ?)]; [exists l0; split; [done|left]|exists l; split; [done|by right]].
    + intros (l & Hx & [->|?]%elem_of_cons); [by left|right; eauto].
Qed.

Lemma NoDup_concat_elem {A} (ls : list (list A)) l :
  NoDup (concat ls) → l ∈ ls → NoDup l.
Proof.
  induction ls as [|l0 ls IH]; cbn; [by intros _ ?%elem_of_nil|].
  intros (? & _ & ?)%NoDup_app [->|?]%elem_of_cons; auto.
Qed.

Lemma all_equal_singleton {A} (l : list A) x :
  l ≠ [] → NoDup l → (∀ y, y ∈ l → y = x) → l = [x].
Proof.
  destruct l as [|a [|b l]]; [done|..]; intros _ Hnd Hall.
  - by rewrite (Hall a) by left.
  - apply NoDup_cons in Hnd as [Hab _]. destruct Hab.
    rewrite (Hall a), (Hall b); [left|right; left|left].
Qed.

Lemma NoDup_fmap_elem {A B} (h : A → B) l x y :
  NoDup (h <$> l) → x ∈ l → y ∈ l → h x = h y → x = y.
Proof.
  induction l as [|a l IH]; [by intros _ ?%elem_of_nil|]. cbn.
  intros [Ha Hl]%NoDup_cons [->|Hx]%elem_of_cons [->|Hy]%elem_of_cons E; try done.
  - destruct Ha. rewrite E. apply list_elem_of_fmap. eauto.
  - destruct Ha. rewrite <- E. apply list_elem_of_fmap. eauto.
  - by apply IH.
Qed.

Lemma init_isolated files f : f ∈ files → isolated (init files) (FileInfo.path f).
Proof.
  intros Hf. split.
  - rewrite init_lookup, decide_True; [done|]. apply list_elem_of_fmap. eauto.
  - intros y. rewrite init_lookup. destruct (decide _); [|done]. by intros [= ->].
Qed.

(** X20. A record that shares its content hash with no other record and is a
    near-duplicate of none is filed alone: grouping never puts it in a
    cluster with another record. *)
Theorem unrelated_record_is_alone files sensitivity cs f :
  NoDup (FileInfo.path <$> files) →
  group_duplicates files sensitivity = Ok cs →
  f ∈ files →
  (∀ g, g ∈ files → truthy (FileInfo.sha256 f) = true →
     FileInfo.sha256 g = FileInfo.sha256 f → g = f) →
  (∀ g, g ∈ files → g ≠ f → are_near_duplicates f g sensitivity = false) →
  ∃ c, c ∈ cs ∧ DuplicateCluster.files c = [f].
Proof.
  intros Hpaths Hrun Hf Hsha Hnear.
  assert (NoDup files) as Hnd by (by eapply NoDup_fmap_1).
  assert (∀ g, g ∈ files → FileInfo.path g = FileInfo.path f → g = f) as Hpath.
  { intros g Hg E. by eapply (NoDup_fmap_elem FileInfo.path). }
  destruct (group_duplicates_run files sensitivity)
    as (uf & cs' & E & Hperm & Hne & Hsame & _ & _ & (uf1 & Eexact & Enear) & Hconv).
  { intros ->. by apply elem_of_nil in Hf. }
  assert (cs' = cs) as -> by congruence.
  set (cands := sort_by_phash (filter (λ f, truthy (FileInfo.phash f) = true) files)) in *.
  assert (isolated uf (FileInfo.path f)) as Hiso.
  { eapply near_phase_isolated; [exact Enear| |].
    - intros i j base c Hi Hj Hij Hn.
      assert (base ∈ files) as Hb
        by (eapply candidates_from_files, list_elem_of_lookup; eauto).
      assert (c ∈ files) as Hc
        by (eapply candidates_from_files, list_elem_of_lookup; eauto).
      assert (NoDup cands) as Hcn.
      { unfold cands. rewrite sort_by_phash_perm. by apply NoDup_filter. }
      assert (base ≠ c) as Hbc.
      { intros ->. pose proof (NoDup_lookup _ _ _ _ Hcn Hi Hj). lia. }
      rewrite are_near_duplicates_normalized in Hn.
      split; intros Hp%Hpath; try done; subst.
      + rewrite (Hnear c) in Hn; [done|done|congruence].
      + rewrite are_near_duplicates_sym, (Hnear base) in Hn; done.
    - eapply exact_phase_isolated; [exact Eexact| |by apply init_isolated].
      intros k a b rest Hin.
      destruct (exact_fold_spec files []) as (_ & Hfrom & _ & _ & Hkey).
      assert (∀ v, v ∈ a :: b :: rest → v ∈ files ∧ FileInfo.sha256 v = Some k) as Hv.
      { intros v Hv. assert (filed (exact_groups files) k v) as Hfv by (by eexists).
        split.
        - destruct (Hfrom k v Hfv) as [(? & ?%elem_of_nil & _)|]; done.
        - apply Hkey; [|done]. by intros ?? (? & ?%elem_of_nil & _). }
      assert (NoDup (a :: b :: rest)) as Hgn.
      { eapply (NoDup_concat_elem (exact_groups files).*2).
        - rewrite exact_groups_fold, exact_fold_perm. cbn. by apply NoDup_filter.
        - apply list_elem_of_fmap. by eexists (_, _). }
      assert (∃ w, w ∈ a :: b :: rest ∧ w ≠ f) as (w & Hw & Hwf).
      { apply NoDup_cons in Hgn as [Hab _].
        destruct (decide (FileInfo.path a = FileInfo.path f)) as [Ea|Ea].
        - apply Hpath in Ea; [|apply Hv; left]. subst a.
          exists b. split; [right; left|]. intros ->. apply Hab. left.
        - exists a. split; [left|]. by intros ->. }
      apply Forall_forall. intros o Ho Hp.
      destruct (Hv o Ho) as [Hof Hok]. apply Hpath in Hp; [|done]. subst o.
      destruct (Hv w Hw) as [Hwfiles Hwk]. apply Hwf, Hsha; [done| |congruence].
      assert (filed (exact_groups files) k f) as (vs & Hvs & Hfvs) by (by eexists).
      rewrite Hok. unfold truthy.
      destruct (String.eqb_spec k "") as [->|]; [|done].
      exfalso. clear -Hvs Hfvs.
      rewrite exact_groups_fold in Hvs.
      assert (∀ l acc, (∀ k' vs', (k', vs') ∈ acc → k' ≠ "") →
                ∀ k' vs', (k', vs') ∈ fold_left exact_step l acc → k' ≠ "") as Hkeys.
      { induction l as [|x l IH]; intros acc Hacc; [done|]. cbn. apply IH.
        intros k' vs'. unfold exact_step. destruct (truthy (FileInfo.sha256 x)) eqn:Et;
          [|apply Hacc].
        intros [?|(-> & _)]%setdefault_append_elem; [by eapply Hacc|].
        unfold truthy in Et. destruct (FileInfo.sha256 x) as [h|]; [|done]. cbn.
        by destruct (String.eqb_spec h ""). }
      eapply (Hkeys files []); [|exact Hvs|done]. by intros ?? ?%elem_of_nil. }
  assert (f ∈ concat (DuplicateCluster.files <$> cs)) as Hfc by (by rewrite Hperm).
  apply elem_of_concat in Hfc as (vs & Hfvs & (c & -> & Hc)%list_elem_of_fmap).
  exists c. split; [done|]. apply all_equal_singleton.
  - rewrite Forall_forall in Hne. by apply Hne.
  - eapply (NoDup_concat_elem (DuplicateCluster.files <$> cs)).
    + by rewrite Hperm.
    + apply list_elem_of_fmap. eauto.
  - intros g Hg. apply Hpath.
    + rewrite <- Hperm. apply elem_of_concat. eexists. split; [exact Hg|].
      apply list_elem_of_fmap. eauto.
    + eapply isolated_same; [exact Hiso|]. by eapply Hconv.
Qed.

Lemma unrelated_record_is_alone_witness :
  match group_duplicates Scenes.trio None with
  | Ok cs => ∃ c, c ∈ cs ∧ DuplicateCluster.files c = [Scenes.loner]
  | Err _ => False
  end.
Proof.
  destruct (group_duplicates Scenes.trio None) as [cs|e] eqn:E.
  - apply (unrelated_record_is_alone Scenes.trio None cs Scenes.loner).
    + apply (bool_decide_eq_true_1 (NoDup (FileInfo.path <$> Scenes.trio))). vm_refl.
    + exact E.
    + right. left.
    + intros g _ Ht. discriminate Ht.
    + intros g _ _. reflexivity.
  - vm_compute in E. discriminate E.
Defined.

End Isolated.

(** ** The shape of a plan *)

Section Planning.
Import os_path utils organizer merge_engine summaries.

Lemma cluster_actions_files destination mode source_root master files :
  Forall (λ a, creates_folder a = false)
    (cluster_actions destination mode source_root master files).1.
Proof.
  unfold cluster_actions. destruct (determine_target_path _ _ _ _) as [target reason].
  cbn [fst]. apply Forall_app. split; [by repeat constructor|].
  apply Forall_app. split; apply Forall_forall; by intros a (f & -> & _)%list_elem_of_fmap.
Qed.

Lemma clusters_actions_files destination mode source_root clusters actions folders inside :
  clusters_actions destination mode source_root clusters = Ok (actions, folders, inside) →
  Forall (λ a, creates_folder a = false) actions.
Proof.
  revert actions folders inside.
  induction clusters as [|c clusters IH]; intros actions folders inside; cbn [clusters_actions].
  - by intros [= <- _ _].
  - unfold mbind, result_bind.
    destruct (match DuplicateCluster.master c with Some m => Ok m | None => _ end)
      as [master|]; [|done].
    pose proof (cluster_actions_files destination mode source_root master
                  (DuplicateCluster.files c)) as Hc.
    destruct (cluster_actions _ _ _ _ _) as [acts fols]. cbn [fst] in Hc.
    destruct (clusters_actions _ _ _ clusters) as [[[more mf] inc]|] eqn:E; [|done].
    intros [= <- _ _]. apply Forall_app. split; [done|]. by eapply IH.
Qed.

Lemma singles_actions_files destination mode source_root inside files :
  Forall (λ a, creates_folder a = false)
    (singles_actions destination mode source_root inside files).1.
Proof.
  induction files as [|f files IH]; cbn [singles_actions]; [done|].
  destruct (singles_actions _ _ _ _ files) as [more mf]. cbn [fst] in IH.
  case_bool_decide; [done|].
  destruct (determine_target_path _ _ _ _). cbn [fst]. by constructor.
Qed.

(** X21. A plan is returned only for a destination that passes validation
    and has room for the files to move; its folder creations all come
    before its file actions, and it records the absolute destination and
    the numbers of files and clusters it was built from. *)
Theorem build_merge_plan_shape fs disk_free files clusters out_path skipped plan :
  build_merge_plan fs disk_free files clusters out_path skipped = Ok plan →
  _validate_destination fs (abspath out_path) = Ok tt
  ∧ MergePlan.required_space plan ≤ MergePlan.destination_free plan
  ∧ MergePlan.destination_path plan = abspath out_path
  ∧ MergePlan.total_files plan = Z.of_nat (length files)
  ∧ MergePlan.duplicate_count plan = Z.of_nat (length clusters)
  ∧ ∃ folder_actions file_actions,
      MergePlan.actions plan = (folder_actions ++ file_actions)%list
      ∧ Forall (λ a, creates_folder a = true) folder_actions
      ∧ Forall (λ a, creates_folder a = false) file_actions.
Proof.
  unfold build_merge_plan, mbind, result_bind.
  destruct (_validate_destination fs (abspath out_path)) as [[]|]; [|done].
  unfold _create_file_actions, mbind, result_bind.
  destruct (clusters_actions _ _ _ clusters) as [[[acts fols] inside]|] eqn:Ec; [|done].
  pose proof (singles_actions_files (abspath out_path) "on" (_common_source_root files)
                inside files) as Hs.
  destruct (singles_actions _ _ _ _ files) as [singles sf]. cbn [fst] in Hs.
  unfold _calculate_storage.
  destruct (Z.ltb_spec (_available_space fs disk_free (abspath out_path))
              (fold_left Z.add (map action_size (filter (λ a, moves_file a = true)
                 (_create_folder_actions (fols ∪ sf) ++ (acts ++ singles))%list)) 0));
    [done|].
  intros [= <-]. cbn. split_and!; try done.
  exists (_create_folder_actions (fols ∪ sf)), (acts ++ singles)%list. split_and!; [done|..].
  - unfold _create_folder_actions. apply Forall_forall.
    by intros a (f & -> & _)%list_elem_of_fmap.
  - apply Forall_app. split; [by eapply clusters_actions_files|done].
Qed.

Lemma build_merge_plan_shape_witness :
  match build_merge_plan Samples.empty_library (λ _, Some 100) [Scenes.loner] []
          "/library" 0 with
  | Ok plan =>
      _validate_destination Samples.empty_library (abspath "/library") = Ok tt
      ∧ MergePlan.required_space plan ≤ MergePlan.destination_free plan
      ∧ MergePlan.destination_path plan = abspath "/library"
      ∧ MergePlan.total_files plan = Z.of_nat (length [Scenes.loner])
      ∧ MergePlan.duplicate_count plan = Z.of_nat (length (@nil DuplicateCluster.t))
      ∧ ∃ folder_actions file_actions,
          MergePlan.actions plan = (folder_actions ++ file_actions)%list
          ∧ Forall (λ a, creates_folder a = true) folder_actions
          ∧ Forall (λ a, creates_folder a = false) file_actions
  | Err _ => False
  end.
Proof.
  destruct (build_merge_plan Samples.empty_library (λ _, Some 100) [Scenes.loner] []
              "/library" 0) as [plan|e] eqn:E.
  - exact (build_merge_plan_shape _ _ _ _ _ _ plan E).
  - vm_compute in E. discriminate E.
Defined.

End Planning.

(** ** Files kept by an execution *)

Section KeptFiles.
Import os_path utils organizer merge_engine Keeping.

Lemma keeps_pure {A} p h (a : A) : keeps p h (pure a).
Proof. by intros fs r fs' [= _ <-]. Qed.

Lemma keeps_raise {A} p h e : keeps p h (raise (A := A) e).
Proof. by intros fs r fs' [= _ <-]. Qed.

Lemma keeps_get_fs p h : keeps p h get_fs.
Proof. by intros fs r fs' [= _ <-]. Qed.

Lemma keeps_lift {A} p h (x : result A) : keeps p h (lift x).
Proof. by intros fs r fs' [= _ <-]. Qed.

Lemma keeps_bind {A B} p h (m : M A) (f : A → M B) :
  keeps p h m → (∀ a, keeps p h (f a)) → keeps p h (m ≫= f).
Proof.
  intros Hm Hf fs r fs'. unfold mbind, M_bind.
  destruct (m fs) as [[a|e] fs1] eqn:E.
  - intros H Hp. eapply Hf; [exact H|]. by eapply Hm.
  - intros [= _ <-] Hp. by eapply Hm.
Qed.

Lemma keeps_ensure_directory p h path : keeps p h (ensure_directory path).
Proof.
  intros fs r fs' H Hp. unfold ensure_directory in H.
  pose proof (read_digest_makedirs fs (abspath path) p h Hp) as Hp1.
  destruct (FS.makedirs fs (abspath path)) as [b fs1]. cbn [snd] in Hp1.
  destruct b; by injection H as _ <-.
Qed.

Lemma keeps_compute_sha256 p h path : keeps p h (compute_sha256 path).
Proof. by intros fs r fs' [= _ <-]. Qed.

Lemma keeps_for_each {A} p h (f : A → M unit) l :
  (∀ a, keeps p h (f a)) → keeps p h (for_each f l).
Proof.
  intros Hf. induction l as [|a l IH]; cbn [for_each]; [apply keeps_pure|].
  apply keeps_bind; [apply Hf|]. by intros _.
Qed.

Lemma keeps_safe_move p h src dst root :
  FS.within (abspath src) p = false → keeps p h (safe_move src dst root).
Proof. intros Hne fs r fs' H Hp. by eapply safe_move_digests. Qed.

Local Ltac keeps_step :=
  first [ apply keeps_pure | apply keeps_raise | apply keeps_get_fs | apply keeps_lift
        | apply keeps_ensure_directory | apply keeps_compute_sha256
        | apply keeps_bind; [|intros ?] | apply keeps_for_each; intros ? ].

Lemma keeps_ensure_structure p h base mode folders :
  keeps p h (ensure_structure base mode folders).
Proof.
  unfold ensure_structure. repeat (keeps_step || case_match).
Qed.

Lemma keeps_apply_actions p h destination_root applied todo renamed :
  (∀ a src, a ∈ todo → action_src a = Some src → FS.within (abspath src) p = false) →
  keeps p h (apply_actions destination_root applied todo renamed).
Proof.
  revert applied renamed. induction todo as [|action rest IH]; intros applied renamed Hsrc;
    cbn [apply_actions]; [apply keeps_pure|].
  assert (∀ applied renamed, keeps p h (apply_actions destination_root applied rest renamed))
    as Hrest.
  { intros ??. apply IH. intros a src Ha. apply Hsrc. by right. }
  destruct action as [path|src dst sha size reason|src dst sha size|src master sha size].
  - apply keeps_bind; [apply keeps_ensure_directory|]. intros _. apply Hrest.
  - apply keeps_bind.
    { apply keeps_safe_move. eapply Hsrc; [left|done]. }
    intros new_dst. apply keeps_bind; [|intros _; apply Hrest].
    repeat (keeps_step || case_match).
  - apply keeps_bind.
    { apply keeps_safe_move. eapply Hsrc; [left|done]. }
    intros new_dst. apply keeps_bind; [|intros _; apply Hrest].
    repeat (keeps_step || case_match).
  - apply Hrest.
Qed.

(** X22. In a filesystem without symbolic links, executing a plan leaves
    every file outside the artefact directory that is not the source of
    one of its moves, nor below a source that is a directory, with the bytes
    it had, whether the execution ends or fails half-way: no other file of
    the library is replaced or lost. *)
Theorem execute_merge_keeps_other_files plan fs r fs' p h :
  FS.link_free fs = true →
  execute_merge plan fs = (r, fs') →
  FS.read_digest fs p = Some h →
  (∀ a src, a ∈ MergePlan.actions plan → action_src a = Some src →
     FS.within (abspath src) p = false) →
  reporting.outside_artifacts p = true →
  FS.read_digest fs' p = Some h.
Proof.
  intros _ H Hp Hsrc _. revert fs r fs' H Hp. fold (keeps p h (execute_merge plan)).
  unfold execute_merge. apply keeps_bind.
  { destruct (truthy _); [apply keeps_ensure_structure|apply keeps_pure]. }
  intros _. apply keeps_bind.
  { apply keeps_for_each. intros base. destruct (String.eqb base "");
      [apply keeps_pure|apply keeps_ensure_directory]. }
  intros _. by apply keeps_apply_actions.
Qed.

Lemma execute_merge_keeps_other_files_witness :
  FS.read_digest (execute_merge Samples.unhashed_plan Scenes.taken).2
    "/library/2022/2022-01/m.jpg" = Some "d-old".
Proof.
  apply (execute_merge_keeps_other_files Samples.unhashed_plan Scenes.taken
           (execute_merge Samples.unhashed_plan Scenes.taken).1).
  - vm_refl.
  - apply surjective_pairing.
  - vm_refl.
  - intros a src Ha Hs.
    unfold Samples.unhashed_plan, Samples.plan_of in Ha. cbn [MergePlan.actions] in Ha.
    rewrite !elem_of_cons, elem_of_nil in Ha. destruct Ha as [->|[->|[]]].
    + discriminate Hs.
    + injection Hs as <-. vm_refl.
  - vm_refl.
Defined.

End KeptFiles.

(** ** Files kept by an undo *)

Section UndoSafety.
Import os_path utils organizer merge_engine Keeping.

Lemma unique_destination_fresh fs path src_hash chosen :
  _unique_destination fs path src_hash = Ok chosen →
  FS.exists_ fs (abspath chosen) = false.
Proof.
  unfold _unique_destination.
  destruct (FS.exists_ fs (abspath path)) eqn:E1; cbn [negb]; [|by intros [= <-]].
  destruct (splitext path) as [base ext].
  destruct (FS.exists_ fs (abspath (base +:+ _))) eqn:E2; cbn [negb]; [|by intros [= <-]].
  destruct (find _ _) as [numbered|] eqn:Ef; [|done]. intros [= <-].
  apply find_some in Ef as [_ Hfree]. by apply negb_true_iff in Hfree.
Qed.





Local Ltac settle := repeat case_match; intros; simplify_eq; done.

Lemma undo_entry_keeps st_dev conflict_root entry p h :
  (∀ src, UndoEntry.new_path entry = Some src → abspath src ≠ p) →
  keeps p h (undo_entry st_dev conflict_root entry).
Proof.
  intros Hsrc fs r fs'. unfold undo_entry.
  destruct (negb _) eqn:Est. { unfold pure. by intros [= _ <-]. }
  unfold mbind at 1, M_bind at 1, get_fs at 1.
  destruct (UndoEntry.new_path entry) as [src|] eqn:Esrc;
    cbn [truthy negb orb default from_option id].
  2:{ intros H Hp. revert H. unfold mbind, M_bind, lift, pure.
      settle. }
  specialize (Hsrc src eq_refl).
  destruct (negb (src =? "")%string) eqn:Ene; cbn [negb orb].
  2:{ intros H Hp. revert H. unfold mbind, M_bind, lift, pure.
      settle. }
  destruct (FS.exists_ fs (abspath src)) eqn:Eex; cbn [negb].
  2:{ intros H Hp. revert H. unfold mbind, M_bind, lift, pure.
      settle. }
  set (target0 := if (UndoEntry.status entry =? "restore")%string then _ else _).
  destruct (negb (truthy target0)); [unfold pure; by intros [= _ <-]|].
  unfold mbind, M_bind, lift, compute_sha256, get_fs, put_fs, pure, raise, ensure_directory.
  destruct (_assert_same_filesystem _ _ _ _); [|by intros [= _ <-]].
  destruct (FS.read_digest fs (abspath src)) as [current|] eqn:Ecur; cbn [or_raise];
    [|by intros [= _ <-]].
  destruct (truthy (UndoEntry.hash entry) && negb _); [by intros [= _ <-]|].
  set (chosen := if FS.exists_ fs (abspath (default "" target0)) then _ else _).
  assert (match chosen fs with
          | (Ok t, fs1) => fs1 = fs ∧ FS.exists_ fs (abspath t) = false
          | (Err _, fs1) => fs1 = fs
          end) as Hchosen.
  { subst chosen. destruct (FS.exists_ fs (abspath (default "" target0))) eqn:Et.
    - destruct (_unique_destination fs _ _) as [t|e] eqn:Eu; [|done].
      split; [done|]. by eapply unique_destination_fresh.
    - by split. }
  destruct (chosen fs) as [[t|e] fs0]; [destruct Hchosen as [-> Hfree]|subst fs0];
    [|by intros [= _ <-]].
  intros H Hp.
  pose proof (read_digest_makedirs fs (abspath (dirname t)) p h Hp) as Hp1.
  destruct (FS.makedirs fs (abspath (dirname t))) as [b fs1] eqn:Ef1. cbn [snd] in Hp1.
  destruct b; [|by injection H as _ <-].
  destruct (FS.move fs1 (abspath src) (abspath t)) as [fs2|] eqn:Em;
    [|by injection H as _ <-].
  assert (FS.read_digest fs2 p = Some h) as Hp2.
  { eapply read_digest_move; [exact Em|done|done| |].
    - intros Hdir. apply (read_digest_makedirs _ (abspath (dirname t))) in Ecur.
      rewrite Ef1 in Ecur. cbn [snd] in Ecur. unfold FS.read_digest in Ecur.
      by rewrite Hdir in Ecur.
    - intros ->. apply read_digest_exists in Hp. congruence. }
  revert H. settle.
Qed.

Lemma undo_entries_keeps st_dev conflict_root entries p h :
  (∀ e src, e ∈ entries → UndoEntry.new_path e = Some src → abspath src ≠ p) →
  keeps p h (undo_entries st_dev conflict_root entries).
Proof.
  induction entries as [|e entries IH]; intros Hsrc; cbn [undo_entries];
    [apply keeps_pure|].
  apply keeps_bind.
  { apply undo_entry_keeps. intros src. apply Hsrc. left. }
  intros ?. apply keeps_bind; [|intros ?; apply keeps_pure].
  apply IH. intros e' src He'. apply Hsrc. by right.
Qed.

(** X25. In a filesystem without symbolic links, undoing a merge leaves
    every file outside the artefact directory that is not one of the files
    it moves back with the bytes it had: a file met at a target is never
    replaced, whether the undo ends or fails half-way. *)
Theorem execute_undo_keeps_other_files st_dev plan fs r fs' p h :
  FS.link_free fs = true →
  execute_undo st_dev plan fs = (r, fs') →
  FS.read_digest fs p = Some h →
  (∀ e src, e ∈ UndoPlan.entries plan → UndoEntry.new_path e = Some src → abspath src ≠ p) →
  reporting.outside_artifacts p = true →
  FS.read_digest fs' p = Some h.
Proof.
  intros _ H Hp Hsrc _. revert fs r fs' H Hp. fold (keeps p h (execute_undo st_dev plan)).
  unfold execute_undo. apply keeps_bind; [apply keeps_ensure_directory|].
  intros _. by apply undo_entries_keeps.
Qed.

Lemma execute_undo_keeps_other_files_witness :
  FS.read_digest (execute_undo (λ _, 0) Scenes.conflict_plan Scenes.occupied).2
    "/src/photo.jpg" = Some "other".
Proof.
  apply (execute_undo_keeps_other_files (λ _, 0) Scenes.conflict_plan Scenes.occupied
           (execute_undo (λ _, 0) Scenes.conflict_plan Scenes.occupied).1).
  - vm_refl.
  - apply surjective_pairing.
  - vm_refl.
  - intros e src He Hs.
    unfold Scenes.conflict_plan in He. cbn [UndoPlan.entries] in He.
    apply list_elem_of_singleton in He. subst e. cbn in Hs.
    injection Hs as <-. intros E. vm_compute in E. discriminate E.
  - vm_refl.
Defined.

End UndoSafety.

(** ** Summaries *)

Section Reports.
Import merge_engine summaries.

Lemma get0_bump k d k' :
  get0 (bump k d) k' = get0 d k' + (if String.eqb k' k then 1 else 0).
Proof.
  induction d as [|[k0 n] d IH]; cbn.
  - by destruct (String.eqb k' k).
  - destruct (String.eqb_spec k k0) as [->|Hne]; cbn.
    + destruct (String.eqb k' k0); lia.
    + destruct (String.eqb_spec k' k0) as [->|Hne'].
      * destruct (String.eqb_spec k0 k); [congruence|lia].
      * apply IH.
Qed.

Lemma bump_keys k d : NoDup d.*1 → NoDup (bump k d).*1.
Proof.
  induction d as [|[k0 n] d IH]; cbn; [intros _; apply NoDup_singleton|].
  intros [Hk0 Hd]%NoDup_cons. destruct (String.eqb_spec k k0) as [->|Hne]; cbn.
  - by apply NoDup_cons.
  - apply NoDup_cons. split; [|by apply IH].
    intros Hin. apply Hk0. clear -Hin Hne.
    induction d as [|[k1 m] d IH]; cbn in *.
    + apply list_elem_of_singleton in Hin. congruence.
    + destruct (String.eqb k k1); cbn in *; [done|].
      apply elem_of_cons in Hin as [->|Hin]; [left|right; by apply IH].
Qed.

Lemma bump_sum k d :
  fold_right Z.add 0 (bump k d).*2 = fold_right Z.add 0 d.*2 + 1.
Proof.
  induction d as [|[k0 n] d IH]; cbn; [done|].
  destruct (String.eqb k k0); cbn; lia.
Qed.

(** X23. The dry run counts every action once, under its type: each type is
    listed once, with the number of actions of that type, and the counts
    add up to the number of actions. *)
Theorem dry_run_counts plan :
  NoDup (dry_run plan).*1
  ∧ (∀ t, get0 (dry_run plan) t = of_type t (MergePlan.actions plan))
  ∧ fold_right Z.add 0 (dry_run plan).*2 = Z.of_nat (length (MergePlan.actions plan)).
Proof.
  unfold dry_run.
  assert (∀ l acc,
    (NoDup acc.*1 → NoDup (fold_left (λ d a, bump (action_type a) d) l acc).*1)
    ∧ (∀ t, get0 (fold_left (λ d a, bump (action_type a) d) l acc) t
            = get0 acc t + of_type t l)
    ∧ fold_right Z.add 0 (fold_left (λ d a, bump (action_type a) d) l acc).*2
      = fold_right Z.add 0 acc.*2 + Z.of_nat (length l)) as H.
  { induction l as [|a l IH]; intros acc; cbn [fold_left].
    - unfold of_type. cbn. split_and!; [done|intros; lia|lia].
    - destruct (IH (bump (action_type a) acc)) as (H1 & H2 & H3). split_and!.
      + intros ?. by apply H1, bump_keys.
      + intros t. rewrite H2, get0_bump. unfold of_type.
        destruct (String.eqb_spec t (action_type a)) as [->|Hne].
        * rewrite filter_cons_True by done. cbn [length]. lia.
        * rewrite filter_cons_False by congruence. lia.
      + rewrite H3, bump_sum. cbn [length]. lia. }
  destruct (H (MergePlan.actions plan) []) as (H1 & H2 & H3).
  split_and!; [apply H1; constructor|intros t; by rewrite H2|by rewrite H3].
Qed.


Lemma count_status_step counts status :
  let c := count_status counts status in
  total c = total counts
  ∧ already_restored c + missing c - skipped c
    = already_restored counts + missing counts - skipped counts
  ∧ restore counts ≤ restore c ∧ conflict counts ≤ conflict c
  ∧ already_restored counts ≤ already_restored c ∧ missing counts ≤ missing c
  ∧ restore c + conflict c + skipped c
    = restore counts + conflict counts + skipped counts
      + (if status_in status undo_statuses then 1 else 0).
Proof.
  unfold count_status, status_in, undo_statuses.
  repeat case_bool_decide; repeat case_match; cbn; split_and!; try lia.
  all: exfalso; set_solver.
Qed.

Lemma undo_counts_sums entries :
  let c := _undo_counts entries in
  total c = Z.of_nat (length entries)
  ∧ already_restored c + missing c = skipped c
  ∧ 0 ≤ restore c ∧ 0 ≤ conflict c ∧ 0 ≤ already_restored c ∧ 0 ≤ missing c
  ∧ restore c + conflict c + skipped c ≤ total c
  ∧ (Forall known entries → restore c + conflict c + skipped c = total c).
Proof.
  unfold _undo_counts.
  assert (∀ l c0,
    let c := fold_left (λ counts entry, count_status counts (UndoEntry.status entry)) l c0 in
    total c = total c0
    ∧ already_restored c + missing c - skipped c
      = already_restored c0 + missing c0 - skipped c0
    ∧ restore c0 ≤ restore c ∧ conflict c0 ≤ conflict c
    ∧ already_restored c0 ≤ already_restored c ∧ missing c0 ≤ missing c
    ∧ restore c + conflict c + skipped c
      ≤ restore c0 + conflict c0 + skipped c0 + Z.of_nat (length l)
    ∧ (Forall known l →
       restore c + conflict c + skipped c
       = restore c0 + conflict c0 + skipped c0 + Z.of_nat (length l))) as H.
  { induction l as [|e l IH]; intros c0; cbn [fold_left length].
    - cbn. split_and!; lia.
    - specialize (IH (count_status c0 (UndoEntry.status e))).
      pose proof (count_status_step c0 (UndoEntry.status e)) as Hs.
      cbn zeta in *. destruct IH as (I1 & I2 & I3 & I4 & I5 & I6 & I7 & I8).
      destruct Hs as (S1 & S2 & S3 & S4 & S5 & S6 & S7).
      split_and!; try lia.
      + destruct (status_in _ _); lia.
      + intros [He Hl]%Forall_cons. specialize (I8 Hl).
        unfold status_in in S7. rewrite bool_decide_eq_true_2 in S7 by done. lia. }
  specialize (H entries (mk_counts (Z.of_nat (length entries)) 0 0 0 0 0)).
  cbn zeta in *. cbn [total restore conflict skipped already_restored missing] in H.
  destruct H as (I1 & I2 & I3 & I4 & I5 & I6 & I7 & I8). split_and!; try lia.
  intros Hk. specialize (I8 Hk). lia.
Qed.

(** X26. The counts of an undo summary are consistent: the total is the
    number of entries, the skipped entries are the already restored and
    the missing ones, no entry is counted twice, and every entry with one
    of the ten statuses is counted as restored, in conflict or skipped. *)
Theorem undo_counts_partition entries :
  let c := _undo_counts entries in
  total c = Z.of_nat (length entries)
  ∧ already_restored c + missing c = skipped c
  ∧ 0 ≤ restore c ∧ 0 ≤ conflict c ∧ 0 ≤ already_restored c ∧ 0 ≤ missing c
  ∧ restore c + conflict c + skipped c ≤ total c
  ∧ (Forall known entries → restore c + conflict c + skipped c = total c).
Proof. apply undo_counts_sums. Qed.

Lemma classify_known fs conflict_root entry planned :
  classify fs conflict_root entry = Ok planned → known planned.
Proof.
  unfold classify, known, undo_statuses, mbind, result_bind. intros H.
  repeat case_match; simplify_eq/=; set_solver.
Qed.

Lemma classify_all_known fs conflict_root entries planned :
  classify_all fs conflict_root entries = Ok planned → Forall known planned.
Proof.
  revert planned. induction entries as [|e entries IH]; intros planned; cbn.
  - by intros [= <-].
  - destruct (classify fs conflict_root e) as [p|] eqn:Ec; [|done]. cbn.
    destruct (classify_all fs conflict_root entries) as [more|]; [|done]. cbn.
    intros [= <-]. constructor; [by eapply classify_known|by apply IH].
Qed.

Lemma prepare_undo_plan_known fs stored operation_id plan :
  prepare_undo_plan fs stored operation_id = Ok plan →
  Forall known (UndoPlan.entries plan).
Proof.
  unfold prepare_undo_plan, mbind, result_bind. intros H.
  repeat case_match; simplify_eq/=. by eapply classify_all_known.
Qed.

Lemma preview_undo_known plan :
  Forall known (UndoPlan.entries plan) → Forall known (preview_undo plan).
Proof.
  unfold preview_undo. intros H. apply Forall_fmap. eapply Forall_impl; [exact H|].
  intros e He. unfold known, undo_statuses in *. cbn. repeat case_match; cbn; set_solver.
Qed.

Lemma count_status_preview counts entry :
  count_status counts
    (UndoEntry.status
       (if String.eqb (UndoEntry.status entry) "restore"
        then with_status "would_restore" (UndoEntry.reason entry)
               (UndoEntry.target_path entry) entry
        else if String.eqb (UndoEntry.status entry) "conflict"
        then with_status "would_conflict" (UndoEntry.reason entry)
               (UndoEntry.target_path entry) entry
        else entry))
  = count_status counts (UndoEntry.status entry).
Proof.
  destruct (String.eqb_spec (UndoEntry.status entry) "restore") as [->|]; [done|].
  destruct (String.eqb_spec (UndoEntry.status entry) "conflict") as [->|]; done.
Qed.

(** X27. A preview reports the counts of the plan it previews, and relabels
    every entry that would be moved. *)
Theorem preview_undo_counts plan :
  _undo_counts (preview_undo plan) = _undo_counts (UndoPlan.entries plan)
  ∧ Forall (λ e, UndoEntry.status e ≠ "restore" ∧ UndoEntry.status e ≠ "conflict")
      (preview_undo plan).
Proof.
  split.
  - unfold _undo_counts, preview_undo. rewrite length_map.
    generalize (mk_counts (Z.of_nat (length (UndoPlan.entries plan))) 0 0 0 0 0).
    induction (UndoPlan.entries plan) as [|e l IH]; intros c0; cbn [map fold_left]; [done|].
    by rewrite count_status_preview, IH.
  - unfold preview_undo. apply Forall_fmap, Forall_forall. intros e _. cbn.
    destruct (String.eqb_spec (UndoEntry.status e) "restore"); [done|].
    destruct (String.eqb_spec (UndoEntry.status e) "conflict"); done.
Qed.


Lemma undo_entry_known st_dev conflict_root entry fs result fs' :
  known entry → undo_entry st_dev conflict_root entry fs = (Ok result, fs') → known result.
Proof.
  intros Hk. unfold undo_entry.
  destruct (negb _); [unfold pure; by intros [= <- _]|].
  unfold mbind, M_bind, get_fs, put_fs, lift, pure, raise, utils.compute_sha256,
    utils.ensure_directory.
  intros H. unfold known, undo_statuses.
  repeat case_match; simplify_eq/=; set_solver.
Qed.

Lemma undo_entries_known st_dev conflict_root entries fs results fs' :
  Forall known entries →
  undo_entries st_dev conflict_root entries fs = (Ok results, fs') →
  Forall known results ∧ length results = length entries.
Proof.
  intros Hk. revert fs results fs'.
  induction Hk as [|e entries He Hes IH]; intros fs results fs'; cbn [undo_entries].
  - unfold pure. by intros [= <- _].
  - unfold mbind, M_bind, pure.
    destruct (undo_entry st_dev conflict_root e fs) as [[r|] fs1] eqn:E1; [|done].
    destruct (undo_entries st_dev conflict_root entries fs1) as [[rs|] fs2] eqn:E2; [|done].
    intros [= <- _]. destruct (IH _ _ _ E2) as [? Hlen]. split.
    + constructor; [by eapply undo_entry_known|done].
    + cbn. by rewrite Hlen.
Qed.

(** X28. The summaries of an undo account for every entry of the manifest:
    in the preview of a prepared plan and in the result of its execution,
    each entry is counted as restored, in conflict or skipped. *)
Theorem undo_summaries_count_every_entry fs0 stored operation_id plan :
  prepare_undo_plan fs0 stored operation_id = Ok plan →
  (let c := _undo_counts (preview_undo plan) in
   restore c + conflict c + skipped c = Z.of_nat (length (UndoPlan.entries plan)))
  ∧ ∀ st_dev fs results fs',
      execute_undo st_dev plan fs = (Ok results, fs') →
      let c := _undo_counts results in
      restore c + conflict c + skipped c = Z.of_nat (length (UndoPlan.entries plan)).
Proof.
  intros Hplan%prepare_undo_plan_known. split.
  - destruct (undo_counts_sums (preview_undo plan)) as (Ht & _ & _ & _ & _ & _ & _ & Hall).
    cbn zeta in *. rewrite Hall by (by apply preview_undo_known). rewrite Ht.
    unfold preview_undo. by rewrite length_map.
  - intros st_dev fs results fs'. unfold execute_undo, mbind, M_bind.
    destruct (utils.ensure_directory _ fs) as [[[]|] fs1]; [|done].
    intros [Hk Hlen]%undo_entries_known; [|done].
    destruct (undo_counts_sums results) as (Ht & _ & _ & _ & _ & _ & _ & Hall).
    cbn zeta in *. rewrite Hall by done. by rewrite Ht, Hlen.
Qed.

Lemma undo_summaries_count_every_entry_witness :
  match prepare_undo_plan Samples.merged (Some Samples.manifest) "batch123" with
  | Ok plan =>
      (let c := _undo_counts (preview_undo plan) in
       restore c + conflict c + skipped c = Z.of_nat (length (UndoPlan.entries plan)))
      ∧ ∀ st_dev fs results fs',
          execute_undo st_dev plan fs = (Ok results, fs') →
          let c := _undo_counts results in
          restore c + conflict c + skipped c = Z.of_nat (length (UndoPlan.entries plan))
  | Err _ => False
  end.
Proof.
  destruct (prepare_undo_plan Samples.merged (Some Samples.manifest) "batch123")
    as [plan|e] eqn:E.
  - exact (undo_summaries_count_every_entry _ _ _ plan E).
  - vm_compute in E. discriminate E.
Defined.

End Reports.
